(** * SumoNetVis: topology linking and lane-marking rules

    A shallow embedding of [SumoNetVis/Net.py]: the classes [_Edge], [_Lane],
    [_LaneMarking], [_Connection], [_Request], [_Junction] and [Net], without
    plotting and 3D export; and of [Trajectory.py]: the classes [Trajectory]
    and [Trajectories], where drawing is the list of the segments drawn, and
    without the colour maps of matplotlib.

    - The object graph is kept in an explicit store: the objects that the
      linking pass writes to (edges, lanes, junctions, connections) are
      referred to by handles into the store of the [Net].
    - Exceptions are values of [result]; a function that cannot raise
      returns its value.
    - Python floats are binary64 floats ([PrimFloat]), Python integers are
      [Z], text is ASCII.
    - Python's [float], the shapely operations and the vocabulary of vehicle
      classes are variables of the section; the class [Allowance] of
      [_Utils.py], which is not among the source files, is modelled from
      the specification. *)

From Stdlib Require Import ZArith String Ascii List Bool Lia PrimFloat Sorted.
From stdpp Require Import base option list strings gmap pretty.

Set Warnings "-register-all,-inexact-float".

Open Scope string_scope.
Open Scope Z_scope.
Open Scope list_scope.

(** ** Exceptions and the error monad *)

(** The Python exceptions raised by the modelled code. *)
Inductive exn : Type :=
  | KeyError
  | ValueError
  | IndexError
  | TypeError
  | AttributeError
  | ReferenceError
  | NotImplementedError.

Inductive result (A : Type) : Type :=
  | Ok (a : A)
  | Raise (e : exn).
Arguments Ok {A} a.
Arguments Raise {A} e.

#[export] Instance exn_eq_dec : EqDecision exn.
Proof. solve_decision. Defined.

#[export] Instance result_eq_dec {A} `{EqDecision A} : EqDecision (result A).
Proof. solve_decision. Defined.

#[export] Instance result_ret : MRet result := fun _ a => Ok a.
#[export] Instance result_bind : MBind result := fun _ _ f m =>
  match m with
  | Ok a => f a
  | Raise e => Raise e
  end.
#[export] Instance result_fmap : FMap result := fun _ _ f m =>
  match m with
  | Ok a => Ok (f a)
  | Raise e => Raise e
  end.

(** [o or raise e]: the value of an option, or the exception [e]. *)
Definition or_raise {A} (o : option A) (e : exn) : result A :=
  match o with
  | Some a => Ok a
  | None => Raise e
  end.

(** [try m except e: h] for a single exception class. *)
Definition try_except {A} (m : result A) (e : exn) (h : result A) : result A :=
  match m with
  | Ok a => Ok a
  | Raise e' => if decide (e' = e) then h else Raise e'
  end.

(** A left-to-right loop over a list whose body may raise. *)
Fixpoint foldM {A S} (body : S -> A -> result S) (s : S) (l : list A) : result S :=
  match l with
  | [] => Ok s
  | x :: l' => s' ← body s x; foldM body s' l'
  end.

(** The same loop on a state that is changed in place: the state that is
    reached, and the exception that ended the loop, if one did. *)
Fixpoint run_loop {A S} (body : S -> A -> result S) (s : S) (l : list A)
    : S * option exn :=
  match l with
  | [] => (s, None)
  | x :: l' =>
      match body s x with
      | Ok s' => run_loop body s' l'
      | Raise e => (s, Some e)
      end
  end.

(** ** Python built-ins on strings *)

Module Py.

(** [s.split(sep)] for a one-character separator. *)
Fixpoint split (sep : ascii) (s : string) : list string :=
  match s with
  | EmptyString => [EmptyString]
  | String c rest =>
      if Ascii.eqb c sep then EmptyString :: split sep rest
      else match split sep rest with
           | [] => [String c EmptyString]
           | w :: ws => String c w :: ws
           end
  end.

(** [sep.join(parts)]. *)
Fixpoint join (sep : string) (parts : list string) : string :=
  match parts with
  | [] => EmptyString
  | [p] => p
  | p :: ps => p +:+ sep +:+ join sep ps
  end.

(** [l[:-1]] and [l[-1]]. *)
Definition but_last {A} (l : list A) : list A := removelast l.
Definition last_item {A} (l : list A) : result A := or_raise (last l) IndexError.

(** Characters that [str.isspace] accepts, among the ASCII ones. *)
Definition is_space (c : ascii) : bool :=
  let n := nat_of_ascii c in
  ((9 <=? n) && (n <=? 13) || (28 <=? n) && (n <=? 32))%nat.

Fixpoint lstrip (s : string) : string :=
  match s with
  | String c rest => if is_space c then lstrip rest else s
  | EmptyString => EmptyString
  end.

Fixpoint rstrip (s : string) : string :=
  match s with
  | EmptyString => EmptyString
  | String c rest =>
      match rstrip rest with
      | EmptyString => if is_space c then EmptyString else String c EmptyString
      | r => String c r
      end
  end.

Definition strip (s : string) : string := rstrip (lstrip s).

Definition digit_of (c : ascii) : option Z :=
  let n := nat_of_ascii c in
  if ((48 <=? n) && (n <=? 57))%nat then Some (Z.of_nat (n - 48)) else None.

(** The digits of a decimal literal: single underscores are allowed
    between two digits. *)
Fixpoint int_digits (s : string) (acc : Z) (after_digit : bool) : option Z :=
  match s with
  | EmptyString => if after_digit then Some acc else None
  | String c rest =>
      match digit_of c with
      | Some d => int_digits rest (10 * acc + d) true
      | None =>
          if Ascii.eqb c "_" && after_digit then int_digits rest acc false
          else None
      end
  end.

(** [int(s)] in base ten on ASCII text; [None] stands for [ValueError]. *)
Definition int (s : string) : option Z :=
  match strip s with
  | String "+" rest => int_digits rest 0 false
  | String "-" rest => Z.opp <$> int_digits rest 0 false
  | t => int_digits t 0 false
  end.

(** [str(n)] for an integer. *)
Definition str (n : Z) : string := pretty n.

(** [x in s] for a character [x] and a string [s]. *)
Fixpoint contains (c : ascii) (s : string) : bool :=
  match s with
  | EmptyString => false
  | String c' rest => Ascii.eqb c c' || contains c rest
  end.

(** [l.index(x)] on a list of strings; [None] stands for [ValueError]. *)
Fixpoint index (x : string) (l : list string) : option nat :=
  match l with
  | [] => None
  | y :: l' => if String.eqb y x then Some 0%nat else S <$> index x l'
  end.

End Py.


Section Model.

(** ** What the module takes from outside the repository's source files *)

(** The fixed vocabulary of vehicle class names of [_Utils.py], which is not
    among the source files. *)
Variable vocabulary : list string.

(** Python's [float(s)]; [None] stands for [ValueError]. *)
Variable py_float : string -> option float.

(** ** Allowance *)

(** Modelled from the spec: the class names of a comma- or space-separated
    list, as the constructor of [Allowance] reads them. *)
Definition class_names (s : string) : list string :=
  List.filter (fun w => negb (String.eqb w ""))
              (concat (map (Py.split ",") (Py.split " " s))).

(** Modelled from the spec: the class [Allowance] of [SumoNetVis/_Utils.py],
    which is not among the source files.  An Allowance is a membership
    predicate over class names: a default ([allow_default], the distinguished
    "all" member) and the classes that are excepted from it ([mentioned]:
    the disallowed classes when the default permits, the allowed ones when it
    denies). *)
Record Allowance : Type := mkAllowance {
  allow_default : bool;
  mentioned : list string
}.

(** Modelled from the spec: [Allowance(allow_string, disallow_string)].
    An empty allow list or "all" permits every class not explicitly
    disallowed; "none" denies every class; otherwise the allow list wins. *)
Definition Allowance_new (allow_string disallow_string : string) : Allowance :=
  let allow := class_names allow_string in
  if bool_decide (allow = []) || bool_decide ("all" ∈ allow)
  then mkAllowance true (class_names disallow_string)
  else if bool_decide ("none" ∈ allow) then mkAllowance false []
  else mkAllowance false allow.

(** Modelled from the spec: the membership test [allows(vClass)], also
    written [allows[vClass]]; a name outside the vocabulary, such as "all",
    is governed by the default alone. *)
Definition Allowance_member (a : Allowance) (c : string) : bool :=
  if bool_decide (c ∈ vocabulary)
  then xorb (allow_default a) (bool_decide (c ∈ mentioned a))
  else allow_default a.

(** Modelled from the spec: [union] (the accrual [+=]); the result permits
    a class iff either operand did. *)
Definition Allowance_union (a b : Allowance) : Allowance :=
  match allow_default a, allow_default b with
  | false, false => mkAllowance false (mentioned a ++ mentioned b)
  | true, false =>
      mkAllowance true
        (List.filter (fun c => negb (bool_decide (c ∈ mentioned b))) (mentioned a))
  | false, true =>
      mkAllowance true
        (List.filter (fun c => negb (bool_decide (c ∈ mentioned a))) (mentioned b))
  | true, true =>
      mkAllowance true
        (List.filter (fun c => bool_decide (c ∈ mentioned b)) (mentioned a))
  end.

(** Modelled from the spec: [is_superset_of]; true iff every class the
    other permits is also permitted here. *)
Definition Allowance_is_superset_of (a other : Allowance) : bool :=
  forallb (fun c => implb (Allowance_member other c) (Allowance_member a c))
          vocabulary.

(** Modelled from the spec: equality against a class name, [allows == name]:
    the set is exactly that one class; "none" stands for the set that denies
    every class. *)
Definition Allowance_eq (a : Allowance) (name : string) : bool :=
  if String.eqb name "none"
  then forallb (fun c => negb (Allowance_member a c)) vocabulary
  else Allowance_member a name
       && forallb (fun c => String.eqb c name || negb (Allowance_member a c))
                  vocabulary.

(** [allows not in names]. *)
Definition Allowance_not_in (a : Allowance) (names : list string) : bool :=
  negb (existsb (Allowance_eq a) names).

(** ** Geometry *)

(** A coordinate tuple, and the shapely geometries the module handles. *)
Definition coord : Type := list float.

Inductive Geometry : Type :=
  | LineString (coords : list coord)
  | MultiLineString (parts : list (list coord))
  | Point (at_ : coord)
  | Polygon (exterior : list coord).

Inductive Side : Type := left_side | right_side.

(** shapely: [g.parallel_offset(d, side=...)], [ops.substring(g, a, b)],
    [g.buffer(d, cap_style=CAP_STYLE.flat)], [g.length], and whether
    [shapely.ops] has [substring] (Shapely >= 1.7.0). *)
Variable parallel_offset : Geometry -> float -> Side -> Geometry.
Variable substring : Geometry -> float -> float -> Geometry.
Variable buffer_flat : Geometry -> float -> Geometry.
Variable geom_length : Geometry -> float.
Variable has_substring : bool.

(** [g.coords]: multi-part geometries and polygons provide no coordinate
    sequence. *)
Definition geom_coords (g : Geometry) : result (list coord) :=
  match g with
  | LineString cs => Ok cs
  | Point c => Ok [c]
  | MultiLineString _ => Raise NotImplementedError
  | Polygon _ => Raise NotImplementedError
  end.

(** [l[0]] on a list. *)
Definition first_item {A} (l : list A) : result A := or_raise (head l) IndexError.

(** ** The object store *)

(** The attribute mapping of an XML element. *)
Definition attribs : Type := list (string * string).

Fixpoint attrib_get (a : attribs) (k : string) : option string :=
  match a with
  | [] => None
  | (k', v) :: a' => if String.eqb k' k then Some v else attrib_get a' k
  end.

(** [a[k]], which raises [KeyError] for a missing key. *)
Definition attrib_item (a : attribs) (k : string) : result string :=
  or_raise (attrib_get a k) KeyError.

(** [a[k] if k in a else d]. *)
Definition attrib_default (a : attribs) (k : string) (d : string) : string :=
  default d (attrib_get a k).

(** An XML element: its tag, attributes and children. *)
Inductive Element : Type :=
  | Elem (tag : string) (attrib : attribs) (children : list Element).

Definition tag_of (e : Element) : string := let 'Elem t _ _ := e in t.
Definition attrib_of (e : Element) : attribs := let 'Elem _ a _ := e in a.
Definition children_of (e : Element) : list Element := let 'Elem _ _ c := e in c.

(** Handles.  An edge or a junction is referred to by its key in the
    dictionary of the [Net]; a lane by the key of its edge and its position
    in that edge's [lanes]; a connection by its position in
    [Net.connections]. *)
Definition EdgeRef : Type := string.
Definition JunctionRef : Type := string.
Definition LaneRef : Type := (string * nat)%type.
Definition ConnectionRef : Type := nat.

(** [_Request]; a request is not changed once its junction holds it, so
    lanes keep requests by value. *)
Record Request : Type := mkRequest {
  request_index : Z;
  response : string;
  foes : string;
  cont : string;
  parentJunction : option JunctionRef
}.

(** A stop offset: the pair [(value, vClasses)]. *)
Definition StopOffset : Type := (float * Allowance)%type.

(** [_Lane]. [endOffset] is the attribute's text, [None] for the default 0. *)
Record Lane : Type := mkLane {
  lane_id : string;
  lane_index : Z;
  speed : float;
  allows : Allowance;
  width : float;
  endOffset : option string;
  acceleration : string;
  alignment : Geometry;
  lane_shape : Geometry;
  parentEdge : option EdgeRef;
  lane_stop_offsets : list StopOffset;
  incoming_connections : list ConnectionRef;
  outgoing_connections : list ConnectionRef;
  requests : list Request
}.

(** [_Edge]. *)
Record Edge : Type := mkEdge {
  edge_id : string;
  function : string;
  from_junction_id : option string;
  to_junction_id : option string;
  from_junction : option JunctionRef;
  to_junction : option JunctionRef;
  lanes : list Lane;
  stop_offsets : list StopOffset
}.

(** [_Connection]. *)
Record Connection : Type := mkConnection {
  from_edge_id : string;
  to_edge_id : string;
  from_edge : option EdgeRef;
  to_edge : option EdgeRef;
  from_lane_index : Z;
  to_lane_index : Z;
  from_lane : option LaneRef;
  to_lane : option LaneRef;
  via_id : option string;
  via_lane : option LaneRef;
  dir : string;
  state : string;
  connection_shape : option Geometry
}.

(** [_Junction]. *)
Record Junction : Type := mkJunction {
  junction_id : string;
  junction_type : string;
  incLane_ids : list string;
  intLane_ids : list string;
  incLanes : list LaneRef;
  intLanes : list LaneRef;
  _requests : list Request;
  junction_shape : option Geometry
}.

(** [Net], without its additionals.  [edges] is a dictionary that is read by
    key, and iterated only to update each edge on its own; [junctions] is a
    dictionary whose iteration order shows in the lanes' request lists. *)
Record Net : Type := mkNet {
  edges : gmap string Edge;
  junctions : list (string * Junction);
  connections : list Connection
}.

(** Dictionaries that keep insertion order: [d.get(k)] and [d[k] = v]. *)
Fixpoint dict_get {V} (d : list (string * V)) (k : string) : option V :=
  match d with
  | [] => None
  | (k', v) :: d' => if String.eqb k' k then Some v else dict_get d' k
  end.

Fixpoint dict_set {V} (d : list (string * V)) (k : string) (v : V) : list (string * V) :=
  match d with
  | [] => [(k, v)]
  | (k', v') :: d' =>
      if String.eqb k' k then (k, v) :: d' else (k', v') :: dict_set d' k v
  end.

(** Reading through handles.  A handle that the store does not resolve
    counts as [None]. *)
Definition Net_lane (es : gmap string Edge) (h : LaneRef) : option Lane :=
  e ← es !! h.1; lanes e !! h.2.

Definition Lane_parentEdge (net : Net) (l : Lane) : option Edge :=
  k ← parentEdge l; edges net !! k.

Definition Edge_to_junction (net : Net) (e : Edge) : option Junction :=
  k ← to_junction e; dict_get (junctions net) k.

(** Field updates. *)
Definition Lane_set_links (l : Lane) (inc out : list ConnectionRef)
    (reqs : list Request) : Lane :=
  mkLane (lane_id l) (lane_index l) (speed l) (allows l) (width l) (endOffset l)
         (acceleration l) (alignment l) (lane_shape l) (parentEdge l)
         (lane_stop_offsets l) inc out reqs.

Definition Lane_set_parentEdge (l : Lane) (p : option EdgeRef) : Lane :=
  mkLane (lane_id l) (lane_index l) (speed l) (allows l) (width l) (endOffset l)
         (acceleration l) (alignment l) (lane_shape l) p
         (lane_stop_offsets l) (incoming_connections l) (outgoing_connections l)
         (requests l).

Definition Lane_set_stop_offsets (l : Lane) (so : list StopOffset) : Lane :=
  mkLane (lane_id l) (lane_index l) (speed l) (allows l) (width l) (endOffset l)
         (acceleration l) (alignment l) (lane_shape l) (parentEdge l)
         so (incoming_connections l) (outgoing_connections l) (requests l).

Definition Edge_set_junctions (e : Edge) (f t : option JunctionRef) : Edge :=
  mkEdge (edge_id e) (function e) (from_junction_id e) (to_junction_id e) f t
         (lanes e) (stop_offsets e).

Definition Edge_set_lanes (e : Edge) (ls : list Lane) : Edge :=
  mkEdge (edge_id e) (function e) (from_junction_id e) (to_junction_id e)
         (from_junction e) (to_junction e) ls (stop_offsets e).

Definition Edge_set_stop_offsets (e : Edge) (so : list StopOffset) : Edge :=
  mkEdge (edge_id e) (function e) (from_junction_id e) (to_junction_id e)
         (from_junction e) (to_junction e) (lanes e) so.

Definition Junction_set_lanes (j : Junction) (inc int : list LaneRef) : Junction :=
  mkJunction (junction_id j) (junction_type j) (incLane_ids j) (intLane_ids j)
             inc int (_requests j) (junction_shape j).

Definition Junction_set_requests (j : Junction) (rs : list Request) : Junction :=
  mkJunction (junction_id j) (junction_type j) (incLane_ids j) (intLane_ids j)
             (incLanes j) (intLanes j) rs (junction_shape j).

Definition Request_set_parent (r : Request) (p : option JunctionRef) : Request :=
  mkRequest (request_index r) (response r) (foes r) (cont r) p.

Definition Connection_set_links (c : Connection) (fe te : option EdgeRef)
    (fl tl vl : option LaneRef) : Connection :=
  mkConnection (from_edge_id c) (to_edge_id c) fe te (from_lane_index c)
               (to_lane_index c) fl tl (via_id c) vl (dir c) (state c)
               (connection_shape c).

(** The lane at a handle, changed in place. *)
Definition update_lane (es : gmap string Edge) (h : LaneRef) (f : Lane -> Lane)
    : gmap string Edge :=
  alter (fun e => Edge_set_lanes e (alter f h.2 (lanes e))) h.1 es.

(** ** Module-level settings *)

Definition DEFAULT_LANE_WIDTH : float := 3.2%float.
Definition USA_STYLE : string := "USA".
Definition EUR_STYLE : string := "EUR".

(** The globals [LANE_MARKINGS_STYLE], [STRIPE_WIDTH_SCALE_FACTOR] and
    [PLOT_STOP_LINES], read by the marking rules. *)
Record Settings : Type := mkSettings {
  LANE_MARKINGS_STYLE : string;
  STRIPE_WIDTH_SCALE_FACTOR : float;
  PLOT_STOP_LINES : bool
}.

Definition default_settings : Settings := mkSettings EUR_STYLE 1%float true.

(** [set_style(style, plot_stop_lines)]. *)
Definition set_style (g : Settings) (style : option string)
    (plot_stop_lines : option bool) : result Settings :=
  g1 ← match style with
       | Some st =>
           if bool_decide (st ∈ [USA_STYLE; EUR_STYLE])
           then Ok (mkSettings st (STRIPE_WIDTH_SCALE_FACTOR g) (PLOT_STOP_LINES g))
           else Raise IndexError
       | None => Ok g
       end;
  Ok match plot_stop_lines with
     | Some b => mkSettings (LANE_MARKINGS_STYLE g1) (STRIPE_WIDTH_SCALE_FACTOR g1) b
     | None => g1
     end.

(** [set_stripe_width_scale(factor)]. *)
Definition set_stripe_width_scale (g : Settings) (factor : float) : Settings :=
  mkSettings (LANE_MARKINGS_STYLE g) factor (PLOT_STOP_LINES g).

(** ** _Edge *)

(** [_Edge.__init__]. *)
Definition Edge_init (attrib : attribs) : result Edge :=
  id ← attrib_item attrib "id";
  Ok (mkEdge id (attrib_default attrib "function" "normal")
             (attrib_get attrib "from") (attrib_get attrib "to")
             None None [] []).

(** [_Edge.append_lane]: the lane's [parentEdge] refers to this edge. *)
Definition Edge_append_lane (e : Edge) (l : Lane) : Edge :=
  Edge_set_lanes e (lanes e ++ [Lane_set_parentEdge l (Some (edge_id e))]).

(** The first lane with the given index, with its position. *)
Fixpoint find_lane (ls : list Lane) (index : Z) : option (nat * Lane) :=
  match ls with
  | [] => None
  | l :: ls' =>
      if (lane_index l =? index)%Z then Some (0%nat, l)
      else prod_map S id <$> find_lane ls' index
  end.

(** [_Edge.get_lane]. *)
Definition Edge_get_lane (e : Edge) (index : Z) : result (nat * Lane) :=
  or_raise (find_lane (lanes e) index) IndexError.

(** [_Edge.lane_count]. *)
Definition Edge_lane_count (e : Edge) : Z := Z.of_nat (length (lanes e)).

(** The pair that [append_stop_offset] appends, for an edge and for a lane. *)
Definition stop_offset_of (attrib : attribs) : result StopOffset :=
  v ← attrib_item attrib "value";
  value ← or_raise (py_float v) ValueError;
  let vc := attrib_default attrib "vClasses" "" in
  let exceptions := attrib_default attrib "exceptions" "" in
  Ok (value, Allowance_new vc exceptions).

(** [_Edge.append_stop_offset]. *)
Definition Edge_append_stop_offset (e : Edge) (attrib : attribs) : result Edge :=
  so ← stop_offset_of attrib;
  Ok (Edge_set_stop_offsets e (stop_offsets e ++ [so])).

(** ** _Request and _Junction *)

(** [_Request.__init__]; [append_request] sets the parent junction. *)
Definition Request_init (attrib : attribs) : result Request :=
  i ← attrib_item attrib "index";
  index ← or_raise (Py.int i) ValueError;
  rsp ← attrib_item attrib "response";
  fs ← attrib_item attrib "foes";
  ct ← attrib_item attrib "cont";
  Ok (mkRequest index rsp fs ct None).

(** The coordinate lists of a "x1,y1 x2,y2 ..." attribute. *)
Definition parse_coords (s : string) : result (list coord) :=
  mapM (fun xy => mapM (fun c => or_raise (py_float c) ValueError) (Py.split "," xy))
       (Py.split " " s).

(** The ids of a space-separated attribute, none for the empty text. *)
Definition split_ids (s : string) : list string :=
  if String.eqb s "" then [] else Py.split " " s.

(** [_Junction.__init__]; a polygon is built from more than two
    coordinate pairs. *)
Definition Junction_init (attrib : attribs) : result Junction :=
  id ← attrib_item attrib "id";
  ty ← attrib_item attrib "type";
  inc ← attrib_item attrib "incLanes";
  int ← attrib_item attrib "intLanes";
  shp ← match attrib_get attrib "shape" with
        | Some s =>
            coords ← parse_coords s;
            Ok (if (2 <? length coords)%nat then Some (Polygon coords) else None)
        | None => Ok None
        end;
  Ok (mkJunction id ty (split_ids inc) (split_ids int) [] [] [] shp).

(** [_Junction.append_request]. *)
Definition Junction_append_request (j : Junction) (r : Request) : Junction :=
  Junction_set_requests j
    (_requests j ++ [Request_set_parent r (Some (junction_id j))]).

(** [_Junction.get_request_by_index]. *)
Definition get_request_by_index (j : Junction) (index : Z) : result Request :=
  or_raise (List.find (fun req => (request_index req =? index)%Z) (_requests j))
           IndexError.

(** [lane_id] is [None] when the caller passes a connection's missing
    [via_id]: the message of the [IndexError] cannot be built then. *)
Definition get_request_by_int_lane (j : Junction) (lane_id : option string)
    : result Request :=
  match lane_id with
  | None => Raise TypeError
  | Some lid =>
      match Py.index lid (intLane_ids j) with
      | None => Raise IndexError
      | Some index => get_request_by_index j (Z.of_nat index)
      end
  end.

(** ** _Lane *)

(** [_Lane.__init__].  [LineString(coords)] keeps the coordinates as they
    are read: what shapely itself checks of them is not modelled. *)
Definition Lane_init (attrib : attribs) : result Lane :=
  id ← attrib_item attrib "id";
  i ← attrib_item attrib "index";
  index ← or_raise (Py.int i) ValueError;
  sp ← attrib_item attrib "speed";
  speed ← or_raise (py_float sp) ValueError;
  let allow_string := attrib_default attrib "allow" "" in
  let disallow_string := attrib_default attrib "disallow" "" in
  let allows := Allowance_new allow_string disallow_string in
  width ← match attrib_get attrib "width" with
          | Some w => or_raise (py_float w) ValueError
          | None => Ok DEFAULT_LANE_WIDTH
          end;
  let endOffset := attrib_get attrib "endOffset" in
  let acceleration := attrib_default attrib "acceleration" "False" in
  shp ← attrib_item attrib "shape";
  coords ← parse_coords shp;
  let alignment := LineString coords in
  let shape := buffer_flat alignment (width / 2)%float in
  Ok (mkLane id index speed allows width endOffset acceleration alignment shape
             None [] [] [] []).

(** [_Lane.lane_type]. *)
Definition lane_type (net : Net) (self : Lane) : string :=
  if Allowance_eq (allows self) "pedestrian" then
    match Lane_parentEdge net self with
    | Some e => if String.eqb (function e) "crossing" then "crosswalk" else "pedestrian"
    | None => "pedestrian"
    end
  else if Allowance_eq (allows self) "bicycle" then "bicycle"
  else if Allowance_eq (allows self) "ship" then "ship"
  else if Allowance_eq (allows self) "authority" then "authority"
  else if Allowance_eq (allows self) "none" then "none"
  else if negb (Allowance_member (allows self) "passenger") then "no_passenger"
  else "other".

(** [_Lane.inverse_lane_index]. *)
Definition inverse_lane_index (net : Net) (self : Lane) : result Z :=
  e ← or_raise (Lane_parentEdge net self) AttributeError;
  Ok (Edge_lane_count e - lane_index self - 1).

(** [_Lane.append_stop_offset]. *)
Definition Lane_append_stop_offset (l : Lane) (attrib : attribs) : result Lane :=
  so ← stop_offset_of attrib;
  Ok (Lane_set_stop_offsets l (lane_stop_offsets l ++ [so])).

(** [0 in locations]. *)
Definition contains_zero (locations : list float) : bool :=
  existsb (fun x => PrimFloat.eqb x 0%float) locations.

(** The body of the loop of [get_stop_line_locations], on the pair of the
    accrued classes and the locations. *)
Definition accrue (st : Allowance * list float) (so : StopOffset)
    : Allowance * list float :=
  (Allowance_union st.1 so.2, (st.2 ++ [so.1])%list).

(** [_Lane.get_stop_line_locations]; the 0 that the code appends is the
    integer 0, here the float that equals it. *)
Definition get_stop_line_locations (net : Net) (self : Lane) : list float :=
  let stop_offsets :=
    if (0 <? length (lane_stop_offsets self))%nat then lane_stop_offsets self
    else match Lane_parentEdge net self with
         | Some e => stop_offsets e
         | None => []
         end in
  let '(accrued_vClasses, stop_line_locations) :=
    fold_left accrue stop_offsets (Allowance_new "none" "", []) in
  if negb (Allowance_is_superset_of accrued_vClasses (allows self))
     && negb (contains_zero stop_line_locations)
  then (stop_line_locations ++ [0%float])%list
  else stop_line_locations.

(** [_Lane._requires_stop_line]. *)
Definition _requires_stop_line (net : Net) (self : Lane) : result bool :=
  e ← or_raise (Lane_parentEdge net self) AttributeError;
  j ← or_raise (Edge_to_junction net e) AttributeError;
  if bool_decide (junction_type j ∈ ["internal"; "zipper"]) then Ok false
  else if String.eqb (junction_type j) "always_stop" then Ok true
  else Ok (existsb (fun request => Py.contains "1" (response request))
                   (requests self)).

(** ** _LaneMarking and the marking rules *)

Record LaneMarking : Type := mkLaneMarking {
  purpose : string;
  marking_alignment : Geometry;
  linewidth : float;
  color : string;
  dashes : float * float
}.

(** [_LaneMarking.__init__]. *)
Definition LaneMarking_init (alignment : Geometry) (linewidth : float)
    (color : string) (dashes : float * float) (purpose : option string)
    : LaneMarking :=
  mkLaneMarking (default "" purpose) alignment linewidth color dashes.

(** The dash pattern of a marking between a lane and the adjacent lane of
    the next index; the two styles choose it alike. *)
Definition boundary_dashes (self adjacent_lane : Lane) : float * float :=
  if xorb (Allowance_member (allows self) "bicycle")
          (Allowance_member (allows adjacent_lane) "bicycle")
  then (100, 0)%float
  else if xorb (Allowance_member (allows self) "passenger")
               (Allowance_member (allows adjacent_lane) "passenger")
  then if Allowance_member (allows self) "bicycle" then (1, 3)%float
       else (100, 0)%float
  else (3, 9)%float.

(** The branch of one style: the stripe at the left edge, then the outer
    marking.  The styles differ in the offset and the colour of the centre
    stripe. *)
Definition style_markings (g : Settings) (net : Net) (self : Lane)
    (center_offset : float -> float) (center_color : string)
    : result (list LaneMarking) :=
  let lw := (0.1 * STRIPE_WIDTH_SCALE_FACTOR g)%float in
  inv ← inverse_lane_index net self;
  stripe ←
    (if (inv =? 0)%Z then
       let leftEdge := parallel_offset (alignment self) (center_offset lw) left_side in
       Ok (LaneMarking_init leftEdge lw center_color (100, 0)%float (Some "center"))
     else
       e ← or_raise (Lane_parentEdge net self) AttributeError;
       adj ← Edge_get_lane e (lane_index self + 1);
       let leftEdge := parallel_offset (alignment self) (width self / 2)%float left_side in
       Ok (LaneMarking_init leftEdge lw "w" (boundary_dashes self adj.2) (Some "lane")));
  let outer :=
    if (lane_index self =? 0)%Z
       && negb (Allowance_member (allows self) "pedestrian"
                && negb (Allowance_member (allows self) "all"))
    then
      let rightEdge := parallel_offset (alignment self) (width self / 2)%float right_side in
      [LaneMarking_init rightEdge lw "w" (100, 0)%float (Some "outer")]
    else [] in
  Ok (stripe :: outer).

(** The body of the stop-line loop for one location. *)
Definition stop_line_marking (self : Lane) (stop_line_location : float)
    : result LaneMarking :=
  let slw := 0.5%float in
  let pos := (geom_length (alignment self) - stop_line_location - slw / 2)%float in
  let end_cl := substring (alignment self) (pos - 1)%float pos in
  let end_left := parallel_offset end_cl (width self / 2)%float left_side in
  let end_right := parallel_offset end_cl (width self / 2)%float right_side in
  cl ← geom_coords end_left;
  a ← Py.last_item cl;
  cr ← geom_coords end_right;
  b ← first_item cr;
  Ok (LaneMarking_init (LineString [a; b]) slw "w" (100, 0)%float (Some "stopline")).

(** The stop-line loop: without [ops.substring] it warns and breaks at the
    first location. *)
Definition stop_line_markings (net : Net) (self : Lane) : result (list LaneMarking) :=
  if has_substring
  then mapM (stop_line_marking self) (get_stop_line_locations net self)
  else Ok [].

(** [_Lane._guess_lane_markings]. *)
Definition _guess_lane_markings (g : Settings) (net : Net) (self : Lane)
    : result (list LaneMarking) :=
  e ← or_raise (Lane_parentEdge net self) AttributeError;
  if String.eqb (function e) "internal"
     || Allowance_eq (allows self) "ship" || Allowance_eq (allows self) "rail"
  then Ok []
  else if String.eqb (function e) "crossing"
  then Ok [LaneMarking_init (alignment self) (width self) "w" (0.5, 0.5)%float
                            (Some "crossing")]
  else
    markings ←
      (if String.eqb (LANE_MARKINGS_STYLE g) USA_STYLE
       then style_markings g net self (fun lw => (width self / 2 - lw)%float) "y"
       else if String.eqb (LANE_MARKINGS_STYLE g) EUR_STYLE
       then style_markings g net self (fun _ => (width self / 2)%float) "w"
       else Ok []);
    stop_lines ←
      (if PLOT_STOP_LINES g && Allowance_not_in (allows self) ["pedestrian"; "ship"]
       then
         required ← _requires_stop_line net self;
         if required : bool then stop_line_markings net self else Ok []
       else Ok []);
    Ok (markings ++ stop_lines)%list.

(** ** _Connection *)

(** [_Connection.__init__]. *)
Definition Connection_init (attrib : attribs) : result Connection :=
  f ← attrib_item attrib "from";
  t ← attrib_item attrib "to";
  fl ← attrib_item attrib "fromLane";
  from_lane_index ← or_raise (Py.int fl) ValueError;
  tl ← attrib_item attrib "toLane";
  to_lane_index ← or_raise (Py.int tl) ValueError;
  let via := attrib_get attrib "via" in
  d ← attrib_item attrib "dir";
  st ← attrib_item attrib "state";
  shp ← match attrib_get attrib "shape" with
        | Some s => coords ← parse_coords s; Ok (Some (LineString coords))
        | None => Ok None
        end;
  Ok (mkConnection f t None None from_lane_index to_lane_index None None via None
                   d st shp).

(** [l[1:-1]]. *)
Definition interior {A} (l : list A) : list A := removelast (tail l).

(** [_Connection._generate_shape]. *)
Definition _generate_shape (net : Net) (self : Connection) : result Geometry :=
  match from_lane self ≫= Net_lane (edges net),
        to_lane self ≫= Net_lane (edges net),
        via_lane self ≫= Net_lane (edges net) with
  | Some fl, Some tl, Some vl =>
      let half := (width fl / 2)%float in
      from_lane_left_edge ← geom_coords (parallel_offset (alignment fl) half left_side);
      from_lane_right_edge ← geom_coords (parallel_offset (alignment fl) half right_side);
      to_lane_left_edge ←
        geom_coords (parallel_offset (alignment tl) (width tl / 2)%float left_side);
      to_lane_right_edge ←
        geom_coords (parallel_offset (alignment tl) (width tl / 2)%float right_side);
      left_edge ← geom_coords (parallel_offset (alignment vl) half left_side);
      right_edge ← geom_coords (parallel_offset (alignment vl) half right_side);
      let right_edge := rev right_edge in
      a ← Py.last_item from_lane_left_edge;
      b ← first_item to_lane_left_edge;
      let left_coords := ([a] ++ interior left_edge ++ [b])%list in
      c ← first_item from_lane_right_edge;
      d ← Py.last_item to_lane_right_edge;
      let right_coords := ([c] ++ interior right_edge ++ [d])%list in
      let left_coords := rev left_coords in
      r0 ← first_item right_coords;
      Ok (Polygon (right_coords ++ left_coords ++ [r0])%list)
  | _, _, _ => Raise ReferenceError
  end.

(** ** Net *)

(** The connections that satisfy [p], each with its position. *)
Definition connections_where (p : Connection -> bool) (cxns : list Connection)
    : list (ConnectionRef * Connection) :=
  List.filter (fun ic => p ic.2) (imap pair cxns).

(** The tests of [_get_connections_from_lane] and [_get_connections_to_lane]. *)
Definition leaves_lane (lane_id : string) (connection : Connection) : bool :=
  String.eqb (from_edge_id connection +:+ "_" +:+ Py.str (from_lane_index connection))
             lane_id.

Definition enters_lane (lane_id : string) (connection : Connection) : bool :=
  String.eqb (to_edge_id connection +:+ "_" +:+ Py.str (to_lane_index connection))
             lane_id.

(** [Net._get_connections_from_lane], [_to_lane] and [_via_lane]: the
    connections found, each with its handle. *)
Definition _get_connections_from_lane (cxns : list Connection) (lane_id : string)
    : list (ConnectionRef * Connection) :=
  connections_where (leaves_lane lane_id) cxns.

Definition _get_connections_to_lane (cxns : list Connection) (lane_id : string)
    : list (ConnectionRef * Connection) :=
  connections_where (enters_lane lane_id) cxns.

Definition _get_connections_via_lane (cxns : list Connection) (via : option string)
    : list (ConnectionRef * Connection) :=
  connections_where (fun c => bool_decide (via_id c = via)) cxns.

(** [_get_lane]: the lane of a lane id, [None] when the net has no edge of
    the id's edge part. *)
Definition _get_lane (es : gmap string Edge) (lane_id : string)
    : result (option LaneRef) :=
  let edge_id := Py.join "_" (Py.but_last (Py.split "_" lane_id)) in
  last ← Py.last_item (Py.split "_" lane_id);
  lane_num ← or_raise (Py.int last) ValueError;
  match es !! edge_id with
  | Some edge => l ← Edge_get_lane edge lane_num; Ok (Some (edge_id, l.1))
  | None => Ok None
  end.

(** The loops that resolve [incLane_ids] and [intLane_ids]: the lanes that
    are found, in order. *)
Definition resolve_lanes (es : gmap string Edge) (ids : list string)
    : result (list LaneRef) :=
  omap id <$> mapM (_get_lane es) ids.

(** The requests that one outgoing connection adds to its lane. *)
Definition requests_of_connection (cxns : list Connection) (junction : Junction)
    (cxn : Connection) : result (list Request) :=
  match via_id cxn with
  | None => Ok []
  | Some via =>
      try_except
        (req ← get_request_by_int_lane junction (Some via); Ok [req])
        IndexError
        (mapM (fun cxni => get_request_by_int_lane junction (via_id cxni.2))
              (_get_connections_from_lane cxns via))
  end.

(** The body of the loop over [junction.incLanes]. *)
Definition link_lane (cxns : list Connection) (junction : Junction)
    (es : gmap string Edge) (h : LaneRef) : result (gmap string Edge) :=
  lane ← or_raise (Net_lane es h) AttributeError;
  let incoming := _get_connections_to_lane cxns (lane_id lane) in
  let outgoing := _get_connections_from_lane cxns (lane_id lane) in
  reqs ← mapM (fun cxn => requests_of_connection cxns junction cxn.2) outgoing;
  Ok (update_lane es h (fun l =>
        Lane_set_links l incoming.*1 outgoing.*1 (requests l ++ concat reqs))).

(** The body of the loop over the junctions. *)
Definition link_junction (cxns : list Connection) (es : gmap string Edge)
    (junction : Junction) : result (Junction * gmap string Edge) :=
  if String.eqb (junction_type junction) "internal" then Ok (junction, es)
  else
    inc ← resolve_lanes es (incLane_ids junction);
    int ← resolve_lanes es (intLane_ids junction);
    let junction := Junction_set_lanes junction (incLanes junction ++ inc)
                                       (intLanes junction ++ int) in
    es' ← foldM (link_lane cxns junction) es (incLanes junction);
    Ok (junction, es').

Fixpoint link_junctions (cxns : list Connection) (es : gmap string Edge)
    (js : list (string * Junction)) : result (list (string * Junction) * gmap string Edge) :=
  match js with
  | [] => Ok ([], es)
  | (k, j) :: js' =>
      r ← link_junction cxns es j;
      rest ← link_junctions cxns r.2 js';
      Ok ((k, r.1) :: rest.1, rest.2)
  end.

(** [d.get(k, None)] as a handle. *)
Definition junction_ref (js : list (string * Junction)) (k : option string)
    : option JunctionRef :=
  k ← k; _ ← dict_get js k; Some k.

Definition edge_ref (es : gmap string Edge) (k : string) : option EdgeRef :=
  _ ← es !! k; Some k.

(** The body of the loop over the edges. *)
Definition link_edge (js : list (string * Junction)) (edge : Edge) : Edge :=
  Edge_set_junctions edge (junction_ref js (from_junction_id edge))
                          (junction_ref js (to_junction_id edge)).

(** The lane of a connection's end: left as it is when the edge is missing. *)
Definition end_lane (es : gmap string Edge) (edge_id : string) (index : Z)
    (old : option LaneRef) : result (option LaneRef) :=
  match es !! edge_id with
  | Some edge => l ← Edge_get_lane edge index; Ok (Some (edge_id, l.1))
  | None => Ok old
  end.

(** The body of the loop over the connections. *)
Definition link_connection (es : gmap string Edge) (connection : Connection)
    : result Connection :=
  via ← match via_id connection with
        | Some v => _get_lane es v
        | None => Ok (via_lane connection)
        end;
  let fe := edge_ref es (from_edge_id connection) in
  fl ← end_lane es (from_edge_id connection) (from_lane_index connection)
                (from_lane connection);
  let te := edge_ref es (to_edge_id connection) in
  tl ← end_lane es (to_edge_id connection) (to_lane_index connection)
                (to_lane connection);
  Ok (Connection_set_links connection fe te fl tl via).

(** [Net._link_objects]. *)
Definition _link_objects (net : Net) : result Net :=
  let es := link_edge (junctions net) <$> edges net in
  r ← link_junctions (connections net) es (junctions net);
  cxns ← mapM (link_connection r.2) (connections net);
  Ok (mkNet r.2 r.1 cxns).

(** *** Net.__init__ *)

Definition is_tag (e : Element) (t : string) : bool := String.eqb (tag_of e) t.

(** A lane element with its stop offsets, an edge element with its stop
    offsets and lanes, a junction element with its requests. *)
Definition build_lane (edgeChild : Element) : result Lane :=
  lane ← Lane_init (attrib_of edgeChild);
  foldM (fun lane laneChild =>
           if is_tag laneChild "stopOffset"
           then Lane_append_stop_offset lane (attrib_of laneChild)
           else Ok lane)
        lane (children_of edgeChild).

Definition build_edge (obj : Element) : result Edge :=
  edge ← Edge_init (attrib_of obj);
  foldM (fun edge edgeChild =>
           if is_tag edgeChild "stopOffset"
           then Edge_append_stop_offset edge (attrib_of edgeChild)
           else if is_tag edgeChild "lane"
           then lane ← build_lane edgeChild; Ok (Edge_append_lane edge lane)
           else Ok edge)
        edge (children_of obj).

Definition build_junction (obj : Element) : result Junction :=
  junction ← Junction_init (attrib_of obj);
  foldM (fun junction jnChild =>
           if is_tag jnChild "request"
           then req ← Request_init (attrib_of jnChild);
                Ok (Junction_append_request junction req)
           else Ok junction)
        junction (children_of obj).

(** The body of the loop over the children of the root element. *)
Definition add_object (net : Net) (obj : Element) : result Net :=
  if is_tag obj "edge" then
    if bool_decide (attrib_get (attrib_of obj) "function" = Some "walkingarea")
    then Ok net
    else
      edge ← build_edge obj;
      Ok (mkNet (<[edge_id edge := edge]> (edges net)) (junctions net)
                (connections net))
  else if is_tag obj "junction" then
    junction ← build_junction obj;
    Ok (mkNet (edges net) (dict_set (junctions net) (junction_id junction) junction)
              (connections net))
  else if is_tag obj "connection" then
    connection ← Connection_init (attrib_of obj);
    Ok (mkNet (edges net) (junctions net) (connections net ++ [connection]))
  else Ok net.

Definition empty_net : Net := mkNet ∅ [] [].

(** The objects of the network file, before they are linked. *)
Definition load_objects (root : list Element) : result Net :=
  foldM add_object empty_net root.

(** [Net(file)] on the children of the file's root element, without
    additional files. *)
Definition Net_init (root : list Element) : result Net :=
  net ← load_objects root;
  _link_objects net.

(** ** Lane colours *)

(** [COLOR_SCHEME]. *)
Definition COLOR_SCHEME : list (string * string) :=
  [("junction", "#660000"); ("pedestrian", "#808080"); ("bicycle", "#C0422C");
   ("ship", "#96C8C8"); ("authority", "#FF0000"); ("none", "#FFFFFF");
   ("no_passenger", "#5C5C5C"); ("crosswalk", "#00000000"); ("other", "#000000")].

(** [_Lane.lane_color]. *)
Definition lane_color (net : Net) (self : Lane) : result string :=
  let type := lane_type net self in
  match dict_get COLOR_SCHEME type with
  | Some c => Ok c
  | None => or_raise (dict_get COLOR_SCHEME "other") KeyError
  end.

(** ** Trajectory.py *)

(** A colour: a name such as "#000000", or an entry of a colour map. *)
Inductive Color : Type :=
  | ColorName (name : string)
  | ColorRGB (rgb : list float).

(** [Trajectory]: one list per quantity, one entry per point.  Speed, angle
    and lane of a point may be None. *)
Record Trajectory : Type := mkTrajectory {
  traj_id : string;
  traj_time : list float;
  traj_x : list float;
  traj_y : list float;
  traj_speed : list (option float);
  traj_angle : list (option float);
  traj_lane : list (option string);
  traj_colors : list Color
}.

(** [Trajectory.__init__]: a list that is not given is a new empty list.
    Lists that are given are taken as separate objects. *)
Definition Trajectory_init (id : string) (time x y : option (list float))
    (speed angle : option (list (option float))) (lane : option (list (option string)))
    (colors : option (list Color)) : Trajectory :=
  mkTrajectory id (default [] time) (default [] x) (default [] y) (default [] speed)
               (default [] angle) (default [] lane) (default [] colors).

(** [Trajectory.append_point]. *)
Definition append_point (t : Trajectory) (time x y : float) (speed angle : option float)
    (lane : option string) (color : Color) : Trajectory :=
  mkTrajectory (traj_id t) (traj_time t ++ [time]) (traj_x t ++ [x]) (traj_y t ++ [y])
               (traj_speed t ++ [speed]) (traj_angle t ++ [angle])
               (traj_lane t ++ [lane]) (traj_colors t ++ [color]).

(** The default colour of [append_point]. *)
Definition default_color : Color := ColorName "#000000".

(** [Trajectory.assign_colors_constant]. *)
Definition assign_colors_constant (t : Trajectory) (color : Color) : Trajectory :=
  mkTrajectory (traj_id t) (traj_time t) (traj_x t) (traj_y t) (traj_speed t)
               (traj_angle t) (traj_lane t) (map (fun _ => color) (traj_x t)).

(** [color_dict[lane]] for a dictionary given as its items. *)
Definition color_of (color_dict : list (option string * Color)) (lane : option string)
    : option Color :=
  snd <$> List.find (fun kv => bool_decide (kv.1 = lane)) color_dict.

(** The body of the last loop of [assign_colors_lane]:
    [self.colors[i] = color_dict[self.lane[i]]], which assigns last. *)
Definition assign_color_lane (t : Trajectory) (color_dict : list (option string * Color))
    (colors : list Color) (i : nat) : result (list Color) :=
  lane ← or_raise (traj_lane t !! i) IndexError;
  color ← or_raise (color_of color_dict lane) KeyError;
  if (i <? length colors)%nat then Ok (<[i := color]> colors) else Raise IndexError.

Section ColorMap.

(** matplotlib's colour maps: [plt.cm.get_cmap(name)], and [cmap.colors]
    of a colour map or of whatever object is passed for one.  Both may
    raise. *)
Variable Cmap : Type.
Variable get_cmap : string -> result Cmap.
Variable cmap_colors : Cmap -> result (list Color).

(** The argument [cmap] when it is not None: a name or an object. *)
Inductive CmapArg : Type :=
  | CmapName (name : string)
  | CmapObject (cmap : Cmap).

(** The first lines of [assign_colors_lane] (and of [assign_colors_speed],
    with another default): the colours of the colour map asked for. *)
Definition cmap_list (default_name : string) (cmap : option CmapArg)
    : result (list Color) :=
  cmap ← match cmap with
         | None => get_cmap default_name
         | Some (CmapName name) => get_cmap name
         | Some (CmapObject c) => Ok c
         end;
  cmap_colors cmap.

(** [Trajectory.assign_colors_lane] for a call that gives [color_dict]:
    the trajectory after the call, whose colours are changed in place up to
    the exception, if there is one.  The colour map is fetched though it is
    not used then.  Without [color_dict] the colours depend on the order in
    which Python iterates over a set; that branch is not modelled. *)
Definition assign_colors_lane (t : Trajectory) (cmap : option CmapArg)
    (color_dict : list (option string * Color)) : Trajectory * option exn :=
  match cmap_list "tab10" cmap with
  | Raise e => (t, Some e)
  | Ok cmapList =>
      let r := run_loop (assign_color_lane t color_dict) (traj_colors t)
                        (seq 0 (length (traj_x t))) in
      (mkTrajectory (traj_id t) (traj_time t) (traj_x t) (traj_y t) (traj_speed t)
                    (traj_angle t) (traj_lane t) r.1,
       r.2)
  end.

End ColorMap.

(** A call of [ax.plot]: the two slices and the colour. *)
Record Segment : Type := mkSegment {
  segment_x : list float;
  segment_y : list float;
  segment_c : Color
}.

(** [l[i:i+2]]. *)
Definition slice2 {A} (l : list A) (i : nat) : list A := take 2 (drop i l).

(** The loop of [Trajectory.plot] from index [i], with [n] indices left:
    the calls of [ax.plot] that it makes, and the exception that ends it,
    if one does.  A call of [ax.plot] is what is recorded of it: what
    matplotlib does with its arguments is not modelled. *)
Fixpoint plot_loop (t : Trajectory) (start_time end_time : float) (i n : nat)
    : list Segment * option exn :=
  match n with
  | O => ([], None)
  | S n' =>
      match traj_time t !! i with
      | None => ([], Some IndexError)
      | Some ti =>
          if (ti <? start_time)%float then plot_loop t start_time end_time (S i) n'
          else
            match traj_time t !! S i with
            | None => ([], Some IndexError)
            | Some ti1 =>
                if (end_time <? ti1)%float then ([], None)
                else
                  match traj_colors t !! i with
                  | None => ([], Some IndexError)
                  | Some c =>
                      let rest := plot_loop t start_time end_time (S i) n' in
                      (mkSegment (slice2 (traj_x t) i) (slice2 (traj_y t) i) c
                         :: rest.1,
                       rest.2)
                  end
            end
      end
  end.

(** [Trajectory.plot]: the calls of [ax.plot] made, and the exception
    raised, if any. *)
Definition Trajectory_plot (t : Trajectory) (start_time end_time : float)
    : list Segment * option exn :=
  if (length (traj_x t) <? 2)%nat then ([], None)
  else plot_loop t start_time end_time 0 (length (traj_x t) - 2).

(** [Trajectories.plot]: the calls of [ax.plot] of the trajectories, in
    order, up to the first exception. *)
Fixpoint Trajectories_plot (trajectories : list Trajectory)
    (start_time end_time : float) : list Segment * option exn :=
  match trajectories with
  | [] => ([], None)
  | trajectory :: rest =>
      let drawn := Trajectory_plot trajectory start_time end_time in
      match drawn.2 with
      | Some e => drawn
      | None =>
          let more := Trajectories_plot rest start_time end_time in
          ((drawn.1 ++ more.1)%list, more.2)
      end
  end.

(** The index of [Trajectories.__getitem__]: a string, an integer, or a
    value of another type. *)
Inductive Key : Type :=
  | KeyStr (s : string)
  | KeyInt (i : Z)
  | KeyOther.

(** [Trajectories.__getitem__] on the list [self.trajectories]; the class
    has no attribute [items]. *)
Definition Trajectories_getitem (trajectories : list Trajectory) (i : Key)
    : result Trajectory :=
  match i with
  | KeyStr s =>
      or_raise (List.find (fun trajectory => String.eqb (traj_id trajectory) s)
                          trajectories) IndexError
  | KeyInt _ => Raise AttributeError
  | KeyOther => Raise TypeError
  end.

(** [Trajectories.append]. *)
Definition Trajectories_append (trajectories : list Trajectory) (t : Trajectory)
    : list Trajectory :=
  trajectories ++ [t].

(** The body of the loops of [read_from_fcd] for one child of a time step. *)
Definition read_vehicle (timestep : Element) (trajectories : list (string * Trajectory))
    (veh : Element) : result (list (string * Trajectory)) :=
  tm ← attrib_item (attrib_of timestep) "time";
  time ← or_raise (py_float tm) ValueError;
  if is_tag veh "vehicle" then
    vehID ← attrib_item (attrib_of veh) "id";
    let trajectories :=
      match dict_get trajectories vehID with
      | Some _ => trajectories
      | None =>
          dict_set trajectories vehID
                   (Trajectory_init vehID None None None None None None None)
      end in
    xs ← attrib_item (attrib_of veh) "x";
    x ← or_raise (py_float xs) ValueError;
    ys ← attrib_item (attrib_of veh) "y";
    y ← or_raise (py_float ys) ValueError;
    lane ← attrib_item (attrib_of veh) "lane";
    ss ← attrib_item (attrib_of veh) "speed";
    speed ← or_raise (py_float ss) ValueError;
    as_ ← attrib_item (attrib_of veh) "angle";
    angle ← or_raise (py_float as_) ValueError;
    t ← or_raise (dict_get trajectories vehID) KeyError;
    Ok (dict_set trajectories vehID
                 (append_point t time x y (Some speed) (Some angle) (Some lane)
                               default_color))
  else Ok trajectories.

(** The dictionary that [read_from_fcd] fills from the time steps. *)
Definition read_timesteps (root : list Element) : result (list (string * Trajectory)) :=
  foldM (fun trajectories timestep =>
           foldM (read_vehicle timestep) trajectories (children_of timestep))
        [] root.

(** [Trajectories.read_from_fcd] on the children of the file's root. *)
Definition read_from_fcd (trajectories : list Trajectory) (root : list Element)
    : result (list Trajectory) :=
  read ← read_timesteps root;
  Ok (fold_left Trajectories_append read.*2 trajectories).

(** [s.endswith(suffix)]. *)
Fixpoint ends_with (s suffix : string) : bool :=
  String.eqb s suffix
  || match s with
     | EmptyString => false
     | String _ rest => ends_with rest suffix
     end.

(** [Trajectories.__init__] on a file name and the children of the root of
    that file. *)
Definition Trajectories_init (file : option string) (root : list Element)
    : result (list Trajectory) :=
  match file with
  | None => Ok []
  | Some name =>
      if ends_with name "fcd-output.xml" then read_from_fcd [] root
      else Raise NotImplementedError
  end.

(** ** Notions used to state the properties *)

(** The lane lies on an edge whose function is "crossing". *)
Definition on_crossing_edge (net : Net) (l : Lane) : bool :=
  match Lane_parentEdge net l with
  | Some e => String.eqb (function e) "crossing"
  | None => false
  end.

(** The response bitstring has a '1' at position [p]. *)
Definition one_at (p : nat) (r : Request) : bool :=
  bool_decide (String.get p (response r) = Some "1"%char).

(** The stop-offset declarations a lane's stop lines are computed from: its
    own if it has any, else those of its parent edge. *)
Definition declarations (net : Net) (l : Lane) : list StopOffset :=
  match lane_stop_offsets l with
  | [] => match Lane_parentEdge net l with
          | Some e => stop_offsets e
          | None => []
          end
  | so => so
  end.

(** The Allowance accrued across a list of declarations. *)
Definition accrued (decls : list StopOffset) : Allowance :=
  fold_left Allowance_union decls.*2 (Allowance_new "none" "").

(** Every lane of the store changed by [f]. *)
Definition map_lanes (f : Lane -> Lane) (es : gmap string Edge) : gmap string Edge :=
  (fun e => Edge_set_lanes e (f <$> lanes e)) <$> es.

(** A lane, an edge, a connection and a junction without what the linking
    pass writes. *)
Definition lane_unlinked (l : Lane) : Lane := Lane_set_links l [] [] [].

(** A lane without its requests. *)
Definition lane_without_requests (l : Lane) : Lane :=
  Lane_set_links l (incoming_connections l) (outgoing_connections l) [].

Definition connection_unlinked (c : Connection) : Connection :=
  Connection_set_links c None None None None None.

Definition junction_unlinked (j : Junction) : Junction :=
  Junction_set_lanes j [] [].

(** The stopline markings among a list of markings. *)
Definition stoplines (ms : list LaneMarking) : list LaneMarking :=
  List.filter (fun m => String.eqb (purpose m) "stopline") ms.

(** An element of the network file that is an edge of function
    "walkingarea". *)
Definition is_walkingarea_edge (obj : Element) : bool :=
  is_tag obj "edge"
  && bool_decide (attrib_get (attrib_of obj) "function" = Some "walkingarea").

(** The edge part and the index part of a lane id "<edgeId>_<index>". *)
Definition edge_part (lane_id : string) : string :=
  Py.join "_" (Py.but_last (Py.split "_" lane_id)).

Definition index_part (lane_id : string) : option Z :=
  last (Py.split "_" lane_id) ≫= Py.int.

(** The lane at [h] carries the connection lists that the linking pass
    gives it, and the requests of its outgoing connections at junction [j]
    are found. *)
Definition settled (cxns : list Connection) (j : Junction) (es : gmap string Edge)
    (h : LaneRef) : Prop :=
  exists lane reqs,
    Net_lane es h = Some lane
    /\ incoming_connections lane = (_get_connections_to_lane cxns (lane_id lane)).*1
    /\ outgoing_connections lane = (_get_connections_from_lane cxns (lane_id lane)).*1
    /\ mapM (fun cxn => requests_of_connection cxns j cxn.2)
            (_get_connections_from_lane cxns (lane_id lane)) = Ok reqs.

(** The linking pass has nothing new to find at junction [j]: its lane ids
    resolve, and its lanes, old and resolved, are settled. *)
Definition ready (cxns : list Connection) (es : gmap string Edge) (j : Junction) : Prop :=
  String.eqb (junction_type j) "internal" = false ->
  exists inc int,
    resolve_lanes es (incLane_ids j) = Ok inc
    /\ resolve_lanes es (intLane_ids j) = Ok int
    /\ (forall h, h ∈ incLanes j ++ inc -> settled cxns j es h).

(** What a run of the linking pass makes of a junction that is [ready]. *)
Definition relinked (es : gmap string Edge) (j j' : Junction) : Prop :=
  if String.eqb (junction_type j) "internal" then j' = j
  else exists inc int,
         resolve_lanes es (incLane_ids j) = Ok inc
         /\ resolve_lanes es (intLane_ids j) = Ok int
         /\ j' = Junction_set_lanes j (incLanes j ++ inc) (intLanes j ++ int).

(** Every lane of [es] is a lane of [es'] whose request list starts with
    the requests it has in [es]. *)
Definition requests_extend (es es' : gmap string Edge) : Prop :=
  forall h l, Net_lane es h = Some l ->
    exists l', Net_lane es' h = Some l' /\ requests l `prefix_of` requests l'.

(** Two markings that differ at most as the centre stripes of the two
    styles do: in alignment and colour. *)
Definition same_but_center (a b : LaneMarking) : Prop :=
  purpose a = purpose b /\ linewidth a = linewidth b /\ dashes a = dashes b
  /\ (purpose a <> "center" -> a = b).

(** A call of one of the two functions that set the module-level settings. *)
Inductive SettingsCall : Type :=
  | call_set_style (style : option string) (plot_stop_lines : option bool)
  | call_set_stripe_width_scale (factor : float).

(** The settings after a call; a call that raises leaves them as they are. *)
Definition after_call (g : Settings) (c : SettingsCall) : Settings :=
  match c with
  | call_set_style style plot_stop_lines =>
      match set_style g style plot_stop_lines with
      | Ok g' => g'
      | Raise _ => g
      end
  | call_set_stripe_width_scale factor => set_stripe_width_scale g factor
  end.

(** Every list of a trajectory has one entry per point. *)
Definition aligned (t : Trajectory) : Prop :=
  length (traj_time t) = length (traj_x t)
  /\ length (traj_y t) = length (traj_x t)
  /\ length (traj_speed t) = length (traj_x t)
  /\ length (traj_angle t) = length (traj_x t)
  /\ length (traj_lane t) = length (traj_x t)
  /\ length (traj_colors t) = length (traj_x t).

(** The vehicle elements of the time steps of a file, in document order. *)
Definition vehicles (root : list Element) : list Element :=
  flat_map (fun timestep =>
              List.filter (fun veh => is_tag veh "vehicle") (children_of timestep))
           root.

(** The test for the vehicle elements that carry the id [k], and the lane
    attributes of those among [vs]. *)
Definition has_id (k : string) (veh : Element) : bool :=
  bool_decide (attrib_get (attrib_of veh) "id" = Some k).

Definition lanes_of (k : string) (vs : list Element) : list (option string) :=
  (fun veh => attrib_get (attrib_of veh) "lane") <$> List.filter (has_id k) vs.

(** What the dictionary of [read_from_fcd] holds when the vehicle elements
    [vs] have been read. *)
Definition fcd_read (d : list (string * Trajectory)) (vs : list Element) : Prop :=
  NoDup d.*1
  /\ (forall k t, (k, t) ∈ d ->
        traj_id t = k /\ aligned t /\ traj_lane t = lanes_of k vs /\ traj_lane t <> [])
  /\ (forall veh, veh ∈ vs ->
        exists k, attrib_get (attrib_of veh) "id" = Some k /\ k ∈ d.*1).

(** The segment that [Trajectory.plot] draws from point [k]. *)
Definition drawn_from (t : Trajectory) (start_time end_time : float) (k : nat)
    (sg : Segment) : Prop :=
  exists tk tk1 c,
    traj_time t !! k = Some tk /\ traj_time t !! S k = Some tk1
    /\ traj_colors t !! k = Some c
    /\ (tk <? start_time)%float = false /\ (end_time <? tk1)%float = false
    /\ sg = mkSegment (slice2 (traj_x t) k) (slice2 (traj_y t) k) c.

(** A lane of edge [k] as [Net.__init__] builds it: without links, its
    shape the buffer of its alignment. *)
Definition lane_loaded (k : string) (l : Lane) : Prop :=
  parentEdge l = Some k /\ lane_unlinked l = l
  /\ lane_shape l = buffer_flat (alignment l) (width l / 2)%float.

(** The net when its objects are read and not yet linked. *)
Definition net_loaded (net : Net) : Prop :=
  (forall k e, edges net !! k = Some e ->
     edge_id e = k /\ from_junction e = None /\ to_junction e = None
     /\ Forall (lane_loaded k) (lanes e))
  /\ NoDup (junctions net).*1
  /\ (forall k j, (k, j) ∈ junctions net ->
        junction_id j = k /\ junction_unlinked j = j
        /\ Forall (fun r => parentJunction r = Some k) (_requests j))
  /\ Forall (fun c => connection_unlinked c = c) (connections net).

(** Every lane with links is an incoming lane of one of the junctions [js],
    and every request of a lane is a request of such a junction. *)
Definition linked_by (js : list (string * Junction)) (es : gmap string Edge) : Prop :=
  forall h l, Net_lane es h = Some l ->
    (lane_unlinked l = l \/ exists k j, (k, j) ∈ js /\ h ∈ incLanes j)
    /\ forall r, r ∈ requests l ->
         exists k j, (k, j) ∈ js /\ h ∈ incLanes j /\ r ∈ _requests j.

(** A text of decimal digits. *)
Fixpoint all_digits (s : string) : bool :=
  match s with
  | EmptyString => true
  | String c rest => bool_decide (is_Some (Py.digit_of c)) && all_digits rest
  end.

(** The lane that a lane id names in [es]: none when its index part is no
    integer, when [es] has no edge of its edge part, or when that edge has
    no lane of that index. *)
Definition lane_of_id (es : gmap string Edge) (lane_id : string) : option LaneRef :=
  n ← index_part lane_id;
  e ← es !! edge_part lane_id;
  il ← find_lane (lanes e) n;
  Some (edge_part lane_id, il.1).

(** The lane of an edge id and a lane index. *)
Definition lane_of_index (es : gmap string Edge) (edge_id : string) (n : Z)
    : option LaneRef :=
  e ← es !! edge_id;
  il ← find_lane (lanes e) n;
  Some (edge_id, il.1).

(** The edge [edge_id] is not in [es], or it has a lane of index [n]. *)
Definition index_tolerated (es : gmap string Edge) (edge_id : string) (n : Z) : Prop :=
  forall e, es !! edge_id = Some e -> is_Some (find_lane (lanes e) n).

(** The index part of the lane id is an integer, and its edge is not in
    [es] or has a lane of that index. *)
Definition lane_id_tolerated (es : gmap string Edge) (lane_id : string) : Prop :=
  exists n, index_part lane_id = Some n /\ index_tolerated es (edge_part lane_id) n.

(** Junction [j] has a request for the internal lane [via]. *)
Definition has_request (j : Junction) (via : option string) : Prop :=
  exists r, get_request_by_int_lane j via = Ok r.

(** The requests that connection [c] adds to its lane at junction [j] are
    found: [j] has a request for the via lane of [c], or for the via lane
    of every connection that leaves the via lane of [c]. *)
Definition requests_found (cxns : list Connection) (j : Junction) (c : Connection)
    : Prop :=
  forall via, via_id c = Some via ->
    has_request j (Some via)
    \/ forall i cxni, (i, cxni) ∈ _get_connections_from_lane cxns via ->
                      has_request j (via_id cxni).

(** The lane at handle [h] is there, and the requests of every connection
    that leaves it are found at junction [j]. *)
Definition lane_linkable (cxns : list Connection) (es : gmap string Edge)
    (j : Junction) (h : LaneRef) : Prop :=
  exists lid, lane_id <$> Net_lane es h = Some lid
              /\ forall i c, (i, c) ∈ _get_connections_from_lane cxns lid ->
                             requests_found cxns j c.

(** The linking pass finds what it looks up at junction [j] in [es]. *)
Definition linkable (cxns : list Connection) (es : gmap string Edge) (j : Junction)
    : Prop :=
  String.eqb (junction_type j) "internal" = false ->
  exists inc int,
    resolve_lanes es (incLane_ids j) = Ok inc
    /\ resolve_lanes es (intLane_ids j) = Ok int
    /\ forall h, h ∈ incLanes j ++ inc -> lane_linkable cxns es j h.

(** The same of a junction that has no lanes yet, by its lane ids: each of
    them is tolerated, and the requests are found for each lane that an
    incoming lane id names. *)
Definition junction_tolerated (cxns : list Connection) (es : gmap string Edge)
    (j : Junction) : Prop :=
  (forall lid, lid ∈ incLane_ids j ++ intLane_ids j -> lane_id_tolerated es lid)
  /\ forall lid h, lid ∈ incLane_ids j -> lane_of_id es lid = Some h ->
                   lane_linkable cxns es j h.

(** The via lane id of connection [c], if it has one, and its two lane
    indices are tolerated. *)
Definition connection_tolerated (es : gmap string Edge) (c : Connection) : Prop :=
  (forall via, via_id c = Some via -> lane_id_tolerated es via)
  /\ index_tolerated es (from_edge_id c) (from_lane_index c)
  /\ index_tolerated es (to_edge_id c) (to_lane_index c).

(** The exceptions of the linking pass. *)
Definition link_error (e : exn) : Prop :=
  e = ValueError \/ e = IndexError \/ e = TypeError.

(** ** An example network *)

(** Stand-ins for what the module takes from outside, used to run the model
    on examples: a vocabulary, [float] on integer literals, and the shapely
    operations on straight segments along the x axis. *)
Definition example_vocabulary : list string :=
  ["passenger"; "bicycle"; "pedestrian"; "ship"; "authority"; "rail"].

Fixpoint float_of_positive (p : positive) : float :=
  match p with
  | xH => 1%float
  | xO p' => (2 * float_of_positive p')%float
  | xI p' => (2 * float_of_positive p' + 1)%float
  end.

Definition example_float (s : string) : option float :=
  match Py.int s with
  | Some Z0 => Some 0%float
  | Some (Zpos p) => Some (float_of_positive p)
  | Some (Zneg p) => Some (- float_of_positive p)%float
  | None => None
  end.

Definition shift_y (d : float) (c : coord) : coord :=
  match c with
  | [x; y] => [x; (y + d)%float]
  | _ => c
  end.

Definition example_parallel_offset (g : Geometry) (d : float) (side : Side) : Geometry :=
  match g, side with
  | LineString cs, left_side => LineString (shift_y d <$> cs)
  | LineString cs, right_side => LineString (rev (shift_y (- d)%float <$> cs))
  | _, _ => g
  end.

Definition example_substring (g : Geometry) (a b : float) : Geometry :=
  match g with
  | LineString ([x0; y0] :: _) => LineString [[(x0 + a)%float; y0]; [(x0 + b)%float; y0]]
  | _ => g
  end.

Definition example_length (g : Geometry) : float :=
  match g with
  | LineString [[x0; _]; [x1; _]] => (x1 - x0)%float
  | _ => 0%float
  end.

Definition example_buffer_flat (g : Geometry) (d : float) : Geometry :=
  match g with
  | LineString [[x0; y0]; [x1; y1]] =>
      Polygon [[x0; (y0 + d)%float]; [x1; (y1 + d)%float];
               [x1; (y1 - d)%float]; [x0; (y0 - d)%float]]
  | _ => Polygon []
  end.

Definition lane_element (id index shape : string) (more : attribs) : Element :=
  Elem "lane" ([("id", id); ("index", index); ("speed", "13"); ("shape", shape)] ++ more) [].

Definition connection_element (from fromLane to toLane : string) (more : attribs)
    : Element :=
  Elem "connection" ([("from", from); ("to", to); ("fromLane", fromLane);
                      ("toLane", toLane); ("dir", "s"); ("state", "M")] ++ more) [].

Definition request_element (index response : string) : Element :=
  Elem "request" [("index", index); ("response", response); ("foes", response);
                  ("cont", "0")] [].

(** Two lanes of edge "in" cross the priority junction "J" over internal
    lanes to edge "out", with the given response bitstrings; a rail lane and a road
    lane reach the always-stop junction "S"; "J" also has a crossing, a
    crossing lane for ships, and a walking area. *)
Definition example_root_with (response0 response1 : string) : list Element :=
  [ Elem "edge" [("id", ":J_0"); ("function", "internal")]
      [lane_element ":J_0_0" "0" "10,0 20,0" []];
    Elem "edge" [("id", ":J_1"); ("function", "internal")]
      [lane_element ":J_1_0" "0" "10,3 20,3" []];
    Elem "edge" [("id", ":J_c0"); ("function", "crossing")]
      [lane_element ":J_c0_0" "0" "10,5 20,5" [("allow", "pedestrian")]];
    Elem "edge" [("id", ":J_c1"); ("function", "crossing")]
      [lane_element ":J_c1_0" "0" "10,7 20,7" [("allow", "ship")]];
    Elem "edge" [("id", ":J_w0"); ("function", "walkingarea")]
      [lane_element ":J_w0_0" "0" "10,9 12,9" [("allow", "pedestrian")]];
    Elem "edge" [("id", "in"); ("from", "A"); ("to", "J")]
      [lane_element "in_0" "0" "0,0 10,0" [];
       lane_element "in_1" "1" "0,3 10,3" []];
    Elem "edge" [("id", "out"); ("from", "J"); ("to", "B")]
      [lane_element "out_0" "0" "20,0 30,0" [];
       lane_element "out_1" "1" "20,3 30,3" []];
    Elem "edge" [("id", "rail"); ("from", "A"); ("to", "S")]
      [lane_element "rail_0" "0" "0,20 10,20" [("allow", "rail")]];
    Elem "edge" [("id", "road"); ("from", "A"); ("to", "S")]
      [lane_element "road_0" "0" "0,30 10,30" []];
    Elem "junction" [("id", "A"); ("type", "dead_end"); ("incLanes", "");
                     ("intLanes", "")] [];
    Elem "junction" [("id", "J"); ("type", "priority");
                     ("incLanes", "in_0 in_1 :J_w0_0");
                     ("intLanes", ":J_0_0 :J_1_0")]
      [request_element "0" response0; request_element "1" response1];
    Elem "junction" [("id", "S"); ("type", "always_stop");
                     ("incLanes", "rail_0 road_0"); ("intLanes", "")] [];
    connection_element "in" "0" "out" "0" [("via", ":J_0_0")];
    connection_element "in" "1" "out" "1" [("via", ":J_1_0")];
    connection_element ":J_0" "0" "out" "0" [];
    connection_element ":J_1" "0" "out" "1" [] ].

Definition example_root : list Element := example_root_with "10" "01".

(** The example with a junction whose incoming-lane list names lane 5 of
    edge "in", which has lanes 0 and 1. *)
Definition example_root_missing_lane : list Element :=
  example_root
  ++ [Elem "junction" [("id", "K"); ("type", "priority"); ("incLanes", "in_5");
                       ("intLanes", "")] []].

(** The example with a connection that leaves lane "in_0" over the lane
    ":X_0_0", which junction "J" does not list and whose edge is not in the
    net, and a connection that leaves ":X_0_0" with the given attributes. *)
Definition example_root_unlisted_via (more : attribs) : list Element :=
  example_root
  ++ [connection_element "in" "0" "out" "1" [("via", ":X_0_0")];
      connection_element ":X_0" "0" "out" "1" more].

(** ** Example trajectories *)

(** Three points along the x axis, one per second. *)
Definition example_trajectory : Trajectory :=
  Trajectory_init "a" (Some [0; 1; 2]%float) (Some [0; 13; 26]%float)
                  (Some [0; 0; 0]%float) None None None None.

(** The same points with their lanes and colours, and a colour for each
    lane. *)
Definition example_trajectory_on_lanes : Trajectory :=
  Trajectory_init "a" (Some [0; 1; 2]%float) (Some [0; 13; 26]%float)
                  (Some [0; 0; 0]%float) None None
                  (Some [Some "in_0"; Some ":J_0_0"; Some "in_0"])
                  (Some [default_color; default_color; default_color]).

Definition example_color_dict : list (option string * Color) :=
  [(Some "in_0", ColorName "red"); (Some ":J_0_0", ColorName "blue")].

(** A stand-in for matplotlib's colour maps: a colour map is its list of
    colours, and "tab10" is the only name known. *)
Definition example_get_cmap (name : string) : result (list Color) :=
  if String.eqb name "tab10" then Ok [ColorName "tab:blue"; ColorName "tab:orange"]
  else Raise ValueError.

Definition example_cmap_colors (cmap : list Color) : result (list Color) := Ok cmap.

(** Four points of which only the first has a colour. *)
Definition example_trajectory_one_color : Trajectory :=
  Trajectory_init "c" (Some [0; 1; 2; 3]%float) (Some [0; 13; 26; 39]%float)
                  (Some [0; 0; 0; 0]%float) None None None (Some [default_color]).

Definition vehicle_element (id x lane : string) : Element :=
  Elem "vehicle" [("id", id); ("x", x); ("y", "0"); ("angle", "90"); ("type", "car");
                  ("speed", "13"); ("pos", x); ("lane", lane); ("slope", "0")] [].

(** Two time steps of floating car data: vehicle "a" in both, a person and
    vehicle "b" in the second. *)
Definition example_fcd : list Element :=
  [Elem "timestep" [("time", "0")] [vehicle_element "a" "0" "in_0"];
   Elem "timestep" [("time", "1")]
        [vehicle_element "a" "13" ":J_0_0";
         Elem "person" [("id", "p"); ("x", "5"); ("y", "2")] [];
         vehicle_element "b" "0" "in_1"]].

(** * Properties *)

(** ** The error monad *)

Lemma bind_Ok {A B} (m : result A) (f : A -> result B) (b : B) :
  m ≫= f = Ok b <-> exists a, m = Ok a /\ f a = Ok b.
Proof.
  destruct m as [a|e]; simpl; split.
  - intros H. exists a. auto.
  - intros [a' [[= <-] H]]. exact H.
  - discriminate.
  - intros [a' [[=] _]].
Qed.

Lemma or_raise_Ok {A} (o : option A) (e : exn) (a : A) :
  or_raise o e = Ok a <-> o = Some a.
Proof. destruct o; simpl; split; congruence. Qed.

Lemma mapM_Ok {A B} (f : A -> result B) (l : list A) (r : list B) :
  mapM f l = Ok r <-> Forall2 (fun x y => f x = Ok y) l r.
Proof.
  revert r. induction l as [|x l IH]; intros r; simpl.
  - split; [intros [= <-]; constructor | intros H; inversion H; reflexivity].
  - split.
    + intros H. apply bind_Ok in H as [y [Hy H]].
      apply bind_Ok in H as [r' [Hr' [= <-]]].
      constructor; [exact Hy | apply IH; exact Hr'].
    + intros H. inversion H as [|? y ? r' Hy Hr']; subst.
      apply IH in Hr'. cbn. rewrite Hy. cbn. rewrite Hr'. reflexivity.
Qed.

Lemma mapM_ext {A B} (f g : A -> result B) (l : list A) :
  (forall x, x ∈ l -> f x = g x) -> mapM f l = mapM g l.
Proof.
  induction l as [|x l IH]; intros H; simpl; [reflexivity|].
  rewrite (H x) by constructor.
  rewrite IH; [reflexivity|]. intros y Hy. apply H. constructor. exact Hy.
Qed.

Lemma mapM_fmap {A B C} (f : B -> result C) (g : A -> B) (l : list A) :
  mapM f (g <$> l) = mapM (fun x => f (g x)) l.
Proof.
  induction l as [|x l IH]; [reflexivity|].
  rewrite fmap_cons. cbn. rewrite IH. reflexivity.
Qed.

(** An invariant of a loop that ends without raising. *)
Lemma foldM_invariant {A S} (body : S -> A -> result S) (P : S -> Prop) (l : list A) :
  (forall s x s', x ∈ l -> P s -> body s x = Ok s' -> P s') ->
  forall s s', P s -> foldM body s l = Ok s' -> P s'.
Proof.
  induction l as [|x l IH]; intros Hstep s s' Hs H; simpl in H.
  - injection H as <-. exact Hs.
  - apply bind_Ok in H as [s1 [H1 H]].
    eapply IH; [| |exact H].
    + intros s0 y s0' Hy. apply Hstep. constructor. exact Hy.
    + eapply Hstep; [constructor | exact Hs | exact H1].
Qed.

(** ** The store *)

Lemma Edge_set_lanes_twice (e : Edge) (ls ls' : list Lane) :
  Edge_set_lanes (Edge_set_lanes e ls) ls' = Edge_set_lanes e ls'.
Proof. reflexivity. Qed.

(** Changing a lane in place is invisible through [f] when [f] forgets the
    change. *)
Lemma map_lanes_update_lane (f g : Lane -> Lane) (es : gmap string Edge) (h : LaneRef) :
  (forall l, f (g l) = f l) ->
  map_lanes f (update_lane es h g) = map_lanes f es.
Proof.
  intros Hfg. unfold map_lanes, update_lane.
  apply map_eq. intros k. rewrite !lookup_fmap, lookup_alter.
  destruct (decide (h.1 = k)) as [<-|]; [|reflexivity].
  destruct (es !! h.1) as [e|]; simpl; [|reflexivity].
  f_equal. rewrite Edge_set_lanes_twice. f_equal.
  rewrite (list_fmap_alter f g id).
  - apply list_alter_id. reflexivity.
  - apply Forall_forall. intros l _. apply Hfg.
Qed.

Lemma Net_lane_map_lanes (f : Lane -> Lane) (es : gmap string Edge) (h : LaneRef) :
  Net_lane (map_lanes f es) h = f <$> Net_lane es h.
Proof.
  unfold Net_lane, map_lanes. rewrite lookup_fmap.
  destruct (es !! h.1) as [e|]; simpl; [|reflexivity].
  apply list_lookup_fmap.
Qed.

Lemma Net_lane_update_lane (es : gmap string Edge) (h h' : LaneRef) (g : Lane -> Lane) :
  Net_lane (update_lane es h g) h'
  = if decide (h = h') then g <$> Net_lane es h else Net_lane es h'.
Proof.
  unfold Net_lane, update_lane. destruct h as [k i], h' as [k' i']; simpl.
  rewrite lookup_alter.
  destruct (decide (k = k')) as [<-|Hk].
  - destruct (es !! k) as [e|]; simpl.
    + rewrite list_lookup_alter.
      destruct (decide (i = i')) as [<-|Hi].
      * rewrite decide_True by reflexivity. reflexivity.
      * rewrite decide_False by congruence. reflexivity.
    + destruct (decide _); reflexivity.
  - rewrite decide_False by congruence. reflexivity.
Qed.

(** ** Allowance *)

Lemma elem_of_filter_bool (f : string -> bool) (c : string) (l : list string) :
  bool_decide (c ∈ List.filter f l) = bool_decide (c ∈ l) && f c.
Proof.
  apply eq_true_iff_eq.
  rewrite andb_true_iff, !bool_decide_eq_true, !list_elem_of_In, filter_In.
  reflexivity.
Qed.

Lemma elem_of_app_bool (c : string) (l1 l2 : list string) :
  bool_decide (c ∈ l1 ++ l2) = bool_decide (c ∈ l1) || bool_decide (c ∈ l2).
Proof.
  apply eq_true_iff_eq.
  rewrite orb_true_iff, !bool_decide_eq_true, elem_of_app.
  reflexivity.
Qed.

(** The union permits a class iff one of the operands permits it. *)
Lemma Allowance_member_union (a b : Allowance) (c : string) :
  Allowance_member (Allowance_union a b) c
  = Allowance_member a c || Allowance_member b c.
Proof.
  unfold Allowance_member, Allowance_union.
  destruct a as [da ma], b as [db mb]; simpl.
  destruct (bool_decide (c ∈ vocabulary)), da, db; simpl;
    rewrite ?elem_of_filter_bool, ?elem_of_app_bool;
    destruct (bool_decide (c ∈ ma)), (bool_decide (c ∈ mb)); reflexivity.
Qed.

Lemma Allowance_is_superset_of_spec (a b : Allowance) :
  Allowance_is_superset_of a b = true
  <-> forall c, c ∈ vocabulary -> Allowance_member b c = true ->
                Allowance_member a c = true.
Proof.
  unfold Allowance_is_superset_of. rewrite forallb_forall. split.
  - intros H c Hc Hb. apply list_elem_of_In, H in Hc.
    rewrite Hb in Hc. exact Hc.
  - intros H c Hc. apply list_elem_of_In in Hc.
    destruct (Allowance_member b c) eqn:Hb; [|reflexivity].
    simpl. auto.
Qed.

(** "none" denies every class of the vocabulary. *)
Lemma Allowance_none_member (c : string) :
  c ∈ vocabulary -> Allowance_member (Allowance_new "none" "") c = false.
Proof.
  intros Hc. unfold Allowance_member. rewrite (bool_decide_eq_true_2 _ Hc).
  reflexivity.
Qed.

(** C6: for all Allowances A and B, the union of A and B is a superset of A
    and of B; the union permits a class if and only if at least one operand
    permits it, so every class an operand permits is permitted by the union. *)
Theorem Allowance_union_is_superset (a b : Allowance) :
  Allowance_is_superset_of (Allowance_union a b) a = true
  /\ Allowance_is_superset_of (Allowance_union a b) b = true
  /\ (forall c, Allowance_member (Allowance_union a b) c = true
                <-> Allowance_member a c = true \/ Allowance_member b c = true)
  /\ (forall c, Allowance_member a c = true ->
                Allowance_member (Allowance_union a b) c = true)
  /\ (forall c, Allowance_member b c = true ->
                Allowance_member (Allowance_union a b) c = true).
Proof.
  assert (Hiff : forall c, Allowance_member (Allowance_union a b) c = true
                 <-> Allowance_member a c = true \/ Allowance_member b c = true).
  { intros c. rewrite Allowance_member_union. apply orb_true_iff. }
  split; [|split; [|split; [|split]]].
  - apply Allowance_is_superset_of_spec. intros c _ H. apply Hiff. auto.
  - apply Allowance_is_superset_of_spec. intros c _ H. apply Hiff. auto.
  - exact Hiff.
  - intros c H. apply Hiff. auto.
  - intros c H. apply Hiff. auto.
Qed.

(** ** Lane classification *)

(** C8: lane_type() is the fixed-priority classification: pedestrian-only on
    a crossing edge is "crosswalk", pedestrian-only otherwise "pedestrian";
    else bicycle-only "bicycle", ship-only "ship", authority-only
    "authority", fully excluded "none"; else "no_passenger" when passenger
    traffic is not allowed; else "other".  Each test is reached only when the
    tests before it have failed. *)
Theorem lane_type_classification (net : Net) (l : Lane) :
  let only := Allowance_eq (allows l) in
  (only "pedestrian" = true -> on_crossing_edge net l = true ->
     lane_type net l = "crosswalk")
  /\ (only "pedestrian" = true -> on_crossing_edge net l = false ->
     lane_type net l = "pedestrian")
  /\ (only "pedestrian" = false -> only "bicycle" = true ->
     lane_type net l = "bicycle")
  /\ (only "pedestrian" = false -> only "bicycle" = false -> only "ship" = true ->
     lane_type net l = "ship")
  /\ (only "pedestrian" = false -> only "bicycle" = false -> only "ship" = false ->
     only "authority" = true -> lane_type net l = "authority")
  /\ (only "pedestrian" = false -> only "bicycle" = false -> only "ship" = false ->
     only "authority" = false -> only "none" = true -> lane_type net l = "none")
  /\ (only "pedestrian" = false -> only "bicycle" = false -> only "ship" = false ->
     only "authority" = false -> only "none" = false ->
     Allowance_member (allows l) "passenger" = false ->
     lane_type net l = "no_passenger")
  /\ (only "pedestrian" = false -> only "bicycle" = false -> only "ship" = false ->
     only "authority" = false -> only "none" = false ->
     Allowance_member (allows l) "passenger" = true ->
     lane_type net l = "other").
Proof.
  unfold lane_type, on_crossing_edge. cbv zeta.
  repeat apply conj; intros;
    repeat match goal with
           | H : Allowance_eq _ _ = _ |- _ => rewrite H; clear H
           | H : Allowance_member _ _ = _ |- _ => rewrite H; clear H
           end;
    try reflexivity;
    destruct (Lane_parentEdge net l) as [e|]; try discriminate; try reflexivity;
    match goal with H : String.eqb _ _ = _ |- _ => rewrite H end; reflexivity.
Qed.

(** ** Stop lines *)

Lemma contains_get (c : ascii) (s : string) :
  Py.contains c s = true <-> exists i, String.get i s = Some c.
Proof.
  induction s as [|c' s IH]; simpl.
  - split; [discriminate | intros [i Hi]; discriminate].
  - rewrite orb_true_iff, IH, Ascii.eqb_eq. split.
    + intros [->|[i Hi]]; [exists 0%nat; reflexivity | exists (S i); exact Hi].
    + intros [[|i] Hi]; [left; congruence | right; exists i; exact Hi].
Qed.

(** C1, amended: for a lane whose parent edge has a resolved destination
    junction, requires_stop_line() is false when the junction's type is
    "internal" or "zipper", whatever the lane's requests; true when the type
    is "always_stop"; and otherwise true if and only if some request of the
    lane has a '1' at some position of its response bitstring. *)
Theorem requires_stop_line_rule (net : Net) (l : Lane) (e : Edge) (j : Junction) :
  Lane_parentEdge net l = Some e ->
  Edge_to_junction net e = Some j ->
  (junction_type j = "internal" \/ junction_type j = "zipper" ->
     _requires_stop_line net l = Ok false)
  /\ (junction_type j = "always_stop" -> _requires_stop_line net l = Ok true)
  /\ (junction_type j <> "internal" -> junction_type j <> "zipper" ->
      junction_type j <> "always_stop" ->
      exists b, _requires_stop_line net l = Ok b
                /\ (b = true <-> exists request i, request ∈ requests l
                                 /\ String.get i (response request) = Some "1"%char)).
Proof.
  intros He Hj. unfold _requires_stop_line. rewrite He. simpl. rewrite Hj. simpl.
  split; [|split].
  - intros Ht. rewrite bool_decide_eq_true_2; [reflexivity|].
    destruct Ht as [Ht | Ht]; rewrite Ht; repeat constructor.
  - intros Ht. rewrite Ht. reflexivity.
  - intros H1 H2 H3. rewrite bool_decide_eq_false_2
      by (rewrite !elem_of_cons, elem_of_nil; tauto).
    destruct (String.eqb_spec (junction_type j) "always_stop") as [Heq|_];
      [contradiction|].
    eexists. split; [reflexivity|].
    rewrite existsb_exists. split.
    + intros [r [Hr Hc]]. apply contains_get in Hc as [i Hi].
      exists r, i. split; [apply list_elem_of_In; exact Hr | exact Hi].
    + intros [r [i [Hr Hi]]]. exists r. split; [apply list_elem_of_In; exact Hr|].
      apply contains_get. exists i. exact Hi.
Qed.

(** C5: the stop-line locations are computed from the lane's own stop-offset
    declarations if it has any, else from its parent edge's: they are the
    declared offsets, in order, followed by 0 exactly when the Allowance
    accrued across the declarations does not cover every class the lane
    permits and no declaration has offset 0.  So the list contains 0 whenever
    the accrued Allowance does not cover the lane's classes, and with no
    declaration at all it is [0] as soon as the lane permits a class. *)
Theorem stop_line_locations_cover (net : Net) (l : Lane) :
  let decls := declarations net l in
  let uncovered := negb (Allowance_is_superset_of (accrued decls) (allows l)) in
  get_stop_line_locations net l
  = decls.*1 ++ (if uncovered && negb (contains_zero decls.*1) then [0%float] else [])
  /\ (uncovered = true -> contains_zero (get_stop_line_locations net l) = true)
  /\ (decls = [] ->
      (exists c, c ∈ vocabulary /\ Allowance_member (allows l) c = true) ->
      get_stop_line_locations net l = [0%float]).
Proof.
  intros decls uncovered.
  assert (Hfold : forall ds a locs,
            fold_left accrue ds (a, locs)
            = (fold_left Allowance_union ds.*2 a, locs ++ ds.*1)).
  { induction ds as [|d ds IH]; intros a locs; simpl.
    - rewrite app_nil_r. reflexivity.
    - unfold accrue at 2. simpl. rewrite IH, <- app_assoc. reflexivity. }
  assert (Hsel : (if (0 <? length (lane_stop_offsets l))%nat then lane_stop_offsets l
                  else match Lane_parentEdge net l with
                       | Some e => stop_offsets e
                       | None => []
                       end) = decls).
  { subst decls. unfold declarations. destruct (lane_stop_offsets l); reflexivity. }
  assert (Heq : get_stop_line_locations net l
                = decls.*1 ++ (if uncovered && negb (contains_zero decls.*1)
                               then [0%float] else [])).
  { unfold get_stop_line_locations. rewrite Hsel, Hfold. simpl.
    subst uncovered. unfold accrued.
    destruct (negb _ && negb _); [reflexivity | rewrite app_nil_r; reflexivity]. }
  split; [exact Heq|]. split.
  - intros Hu. rewrite Heq, Hu. simpl. unfold contains_zero.
    rewrite existsb_app.
    destruct (existsb _ decls.*1) eqn:Hz; [reflexivity|]. reflexivity.
  - intros Hnil [c [Hc Hm]]. rewrite Heq. subst uncovered. rewrite Hnil. simpl.
    replace (Allowance_is_superset_of _ _) with false; [reflexivity|].
    symmetry. apply not_true_is_false. intros Hs.
    rewrite Allowance_is_superset_of_spec in Hs.
    specialize (Hs c Hc Hm). unfold accrued in Hs. simpl in Hs.
    rewrite Allowance_none_member in Hs by exact Hc. discriminate.
Qed.

(** ** Connection splices *)

(** C4: splice-polygon derivation raises an error, and so produces no
    geometry, whenever the from-lane, the to-lane or the via-lane reference
    is unresolved; in particular for a connection that declares a via id
    whose via-lane is unresolved. *)
Theorem generate_shape_needs_lanes (net : Net) (c : Connection) :
  from_lane c = None \/ to_lane c = None \/ via_lane c = None ->
  _generate_shape net c = Raise ReferenceError
  /\ (forall g, _generate_shape net c <> Ok g).
Proof.
  intros H.
  assert (Hr : _generate_shape net c = Raise ReferenceError).
  { unfold _generate_shape.
    destruct H as [-> | [-> | ->]]; simpl.
    - reflexivity.
    - destruct (from_lane c ≫= Net_lane (edges net)); reflexivity.
    - destruct (from_lane c ≫= Net_lane (edges net));
        [destruct (to_lane c ≫= Net_lane (edges net))|]; reflexivity. }
  split; [exact Hr | intros g; rewrite Hr; discriminate].
Qed.

(** ** Lane markings *)

(** C9, amended: for a lane whose parent edge has function "crossing" and
    whose Allowance is neither exactly ship nor exactly rail, marking
    derivation returns exactly one marking: dashed, white, of purpose
    "crossing", along the lane's centerline at the full lane width, whatever
    the style and the other settings. *)
Theorem crossing_lane_marking (g : Settings) (net : Net) (l : Lane) (e : Edge) :
  Lane_parentEdge net l = Some e ->
  function e = "crossing" ->
  Allowance_eq (allows l) "ship" = false ->
  Allowance_eq (allows l) "rail" = false ->
  _guess_lane_markings g net l
  = Ok [mkLaneMarking "crossing" (alignment l) (width l) "w" (0.5, 0.5)%float].
Proof.
  intros He Hf Hs Hr. unfold _guess_lane_markings.
  rewrite He. simpl. rewrite Hf, Hs, Hr. reflexivity.
Qed.

(** The markings of a style's branch are "center", "lane" and "outer"
    markings. *)
Lemma style_markings_no_stopline (g : Settings) (net : Net) (l : Lane)
    (off : float -> float) (col : string) (ms : list LaneMarking) :
  style_markings g net l off col = Ok ms -> stoplines ms = [].
Proof.
  unfold style_markings. intros H.
  apply bind_Ok in H as [inv [_ H]].
  apply bind_Ok in H as [stripe [Hstripe [= <-]]].
  assert (Hp : purpose stripe = "center" \/ purpose stripe = "lane").
  { destruct (inv =? 0)%Z.
    - injection Hstripe as <-. left. reflexivity.
    - apply bind_Ok in Hstripe as [e' [_ Hstripe]].
      apply bind_Ok in Hstripe as [adj [_ [= <-]]]. right. reflexivity. }
  unfold stoplines. simpl.
  replace (String.eqb (purpose stripe) "stopline") with false
    by (destruct Hp as [-> | ->]; reflexivity).
  destruct (_ && _); reflexivity.
Qed.

(** With [ops.substring] at hand, the stop-line loop gives one solid white
    "stopline" marking per location. *)
Lemma stop_line_markings_each (net : Net) (l : Lane) (sl : list LaneMarking) :
  has_substring = true ->
  stop_line_markings net l = Ok sl ->
  length sl = length (get_stop_line_locations net l)
  /\ Forall (fun m => purpose m = "stopline" /\ color m = "w"
                      /\ dashes m = (100, 0)%float /\ linewidth m = 0.5%float) sl.
Proof.
  intros Hs. unfold stop_line_markings. rewrite Hs. intros H.
  apply mapM_Ok in H. split.
  - symmetry. eapply Forall2_length. exact H.
  - induction H as [|loc m locs ms Hm _ IH]; constructor; [|exact IH].
    unfold stop_line_marking in Hm.
    apply bind_Ok in Hm as [cl [_ Hm]]. apply bind_Ok in Hm as [a [_ Hm]].
    apply bind_Ok in Hm as [cr [_ Hm]]. apply bind_Ok in Hm as [b [_ [= <-]]].
    repeat split.
Qed.

Lemma stoplines_all (sl : list LaneMarking) :
  Forall (fun m => purpose m = "stopline") sl -> stoplines sl = sl.
Proof.
  induction 1 as [|m sl Hm _ IH]; [reflexivity|].
  unfold stoplines in *. simpl. rewrite Hm. simpl. rewrite IH. reflexivity.
Qed.

(** C7, amended: when marking derivation returns for a lane (and shapely
    has [ops.substring]), its "stopline" markings are one solid white
    marking per derived stop-line location if stop-line generation is
    enabled globally, requires_stop_line() is true, the lane's Allowance is
    not exactly one of the single classes pedestrian, ship and rail, and the
    parent edge's function is neither "internal" nor "crossing"; otherwise
    the lane receives no stopline marking. *)
Theorem stopline_markings_rule (g : Settings) (net : Net) (l : Lane) (e : Edge)
    (ms : list LaneMarking) :
  has_substring = true ->
  Lane_parentEdge net l = Some e ->
  _guess_lane_markings g net l = Ok ms ->
  let wanted :=
    PLOT_STOP_LINES g
    && bool_decide (_requires_stop_line net l = Ok true)
    && Allowance_not_in (allows l) ["pedestrian"; "ship"; "rail"]
    && negb (String.eqb (function e) "internal")
    && negb (String.eqb (function e) "crossing") in
  length (stoplines ms)
  = (if wanted then length (get_stop_line_locations net l) else 0%nat)
  /\ Forall (fun m => color m = "w" /\ dashes m = (100, 0)%float
                      /\ linewidth m = 0.5%float) (stoplines ms).
Proof.
  intros Hsub He H wanted.
  unfold _guess_lane_markings in H. rewrite He in H. simpl in H.
  unfold Allowance_not_in in wanted. simpl in wanted.
  destruct (String.eqb (function e) "internal") eqn:Hint; simpl in H.
  { injection H as <-. replace wanted with false
      by (subst wanted; rewrite !andb_false_r; reflexivity).
    split; [reflexivity | constructor]. }
  destruct (Allowance_eq (allows l) "ship") eqn:Hship; simpl in H.
  { injection H as <-. replace wanted with false
      by (subst wanted; rewrite !orb_true_r, !andb_false_r; reflexivity).
    split; [reflexivity | constructor]. }
  destruct (Allowance_eq (allows l) "rail") eqn:Hrail; simpl in H.
  { injection H as <-. replace wanted with false
      by (subst wanted; rewrite !orb_true_r, !andb_false_r; reflexivity).
    split; [reflexivity | constructor]. }
  destruct (String.eqb (function e) "crossing") eqn:Hcr.
  { injection H as <-. replace wanted with false
      by (subst wanted; rewrite !andb_false_r; reflexivity).
    split; [reflexivity | constructor]. }
  apply bind_Ok in H as [ms1 [H1 H]].
  apply bind_Ok in H as [sl [Hsl [= <-]]].
  assert (Hms1 : stoplines ms1 = []).
  { destruct (String.eqb (LANE_MARKINGS_STYLE g) USA_STYLE);
      [eapply style_markings_no_stopline; exact H1|].
    destruct (String.eqb (LANE_MARKINGS_STYLE g) EUR_STYLE);
      [eapply style_markings_no_stopline; exact H1|].
    injection H1 as <-. reflexivity. }
  assert (Happ : stoplines (ms1 ++ sl) = stoplines sl).
  { unfold stoplines in *. rewrite List.filter_app, Hms1. reflexivity. }
  rewrite Happ. subst wanted. simpl. rewrite !orb_false_r, !andb_true_r.
  unfold Allowance_not_in in Hsl. simpl in Hsl. rewrite Hship, !orb_false_r in Hsl.
  destruct (PLOT_STOP_LINES g); simpl in *;
    [|injection Hsl as <-; split; [reflexivity | constructor]].
  destruct (Allowance_eq (allows l) "pedestrian"); simpl in *;
    [injection Hsl as <-; rewrite andb_false_r; split; [reflexivity | constructor]|].
  rewrite andb_true_r.
  apply bind_Ok in Hsl as [required [Hreq Hsl]]. rewrite Hreq.
  destruct required.
  - rewrite bool_decide_eq_true_2 by reflexivity.
    destruct (stop_line_markings_each _ _ _ Hsub Hsl) as [Hlen Hall].
    rewrite stoplines_all.
    + split; [exact Hlen|]. eapply Forall_impl; [exact Hall|]. simpl. tauto.
    + eapply Forall_impl; [exact Hall|]. simpl. tauto.
  - rewrite bool_decide_eq_false_2 by discriminate.
    injection Hsl as <-. split; [reflexivity | constructor].
Qed.

(** ** What the linking pass leaves alone *)

Lemma link_lane_unlinked (cxns : list Connection) (j : Junction)
    (es es' : gmap string Edge) (h : LaneRef) :
  link_lane cxns j es h = Ok es' ->
  map_lanes lane_unlinked es' = map_lanes lane_unlinked es.
Proof.
  unfold link_lane. intros H.
  apply bind_Ok in H as [lane [_ H]]. apply bind_Ok in H as [reqs [_ [= <-]]].
  apply map_lanes_update_lane. reflexivity.
Qed.

Lemma link_junction_unlinked (cxns : list Connection) (es es' : gmap string Edge)
    (j j' : Junction) :
  link_junction cxns es j = Ok (j', es') ->
  map_lanes lane_unlinked es' = map_lanes lane_unlinked es
  /\ junction_unlinked j' = junction_unlinked j.
Proof.
  unfold link_junction. destruct (String.eqb (junction_type j) "internal").
  - intros [= <- <-]. auto.
  - intros H. apply bind_Ok in H as [inc [_ H]]. apply bind_Ok in H as [int [_ H]].
    apply bind_Ok in H as [es1 [H [= <- <-]]]. split; [|reflexivity].
    eapply (foldM_invariant _
              (fun s => map_lanes lane_unlinked s = map_lanes lane_unlinked es));
      [| |exact H]; [|reflexivity].
    intros s x s' _ Hs Hx. rewrite <- Hs. eapply link_lane_unlinked. exact Hx.
Qed.

Lemma link_junctions_unlinked (cxns : list Connection) (js js' : list (string * Junction))
    (es es' : gmap string Edge) :
  link_junctions cxns es js = Ok (js', es') ->
  map_lanes lane_unlinked es' = map_lanes lane_unlinked es
  /\ Forall2 (fun kj kj' => kj.1 = kj'.1
                            /\ junction_unlinked kj.2 = junction_unlinked kj'.2) js js'.
Proof.
  revert js' es es'. induction js as [|[k j] js IH]; intros js' es es' H; simpl in H.
  - injection H as <- <-. split; [reflexivity | constructor].
  - apply bind_Ok in H as [[j1 es1] [H1 H]].
    apply bind_Ok in H as [[js2 es2] [H2 [= <- <-]]]. simpl in *.
    apply link_junction_unlinked in H1 as [He1 Hj1].
    apply IH in H2 as [He2 Hjs]. split; [congruence|].
    constructor; [simpl; auto | exact Hjs].
Qed.

(** The edges after the linking pass are the edges before it, with the same
    function. *)
Lemma link_objects_function (net net' : Net) (k : string) (e' : Edge) :
  _link_objects net = Ok net' ->
  edges net' !! k = Some e' ->
  exists e, edges net !! k = Some e /\ function e' = function e.
Proof.
  unfold _link_objects. intros H Hk.
  apply bind_Ok in H as [[js es] [H1 H]].
  apply bind_Ok in H as [cxns [_ [= <-]]]. simpl in *.
  apply link_junctions_unlinked in H1 as [He _].
  assert (Hl := f_equal (fun m => m !! k) He). simpl in Hl.
  unfold map_lanes in Hl. rewrite !lookup_fmap, Hk in Hl.
  destruct (edges net !! k) as [e|]; [|discriminate].
  exists e. split; [reflexivity|].
  apply (f_equal (fmap function)) in Hl. simpl in Hl. congruence.
Qed.

(** ** Construction *)

Lemma build_edge_function (obj : Element) (edge : Edge) :
  build_edge obj = Ok edge ->
  function edge = attrib_default (attrib_of obj) "function" "normal".
Proof.
  unfold build_edge. intros H. apply bind_Ok in H as [e0 [H0 H]].
  unfold Edge_init in H0. apply bind_Ok in H0 as [id [_ [= <-]]].
  eapply (foldM_invariant _
            (fun e => function e = attrib_default (attrib_of obj) "function" "normal"));
    [| |exact H]; [|reflexivity].
  intros e x e' _ He Hx. cbv beta in Hx.
  destruct (is_tag x "stopOffset").
  - unfold Edge_append_stop_offset in Hx.
    apply bind_Ok in Hx as [so [_ [= <-]]]. exact He.
  - destruct (is_tag x "lane").
    + apply bind_Ok in Hx as [lane [_ [= <-]]]. exact He.
    + injection Hx as <-. exact He.
Qed.

Lemma add_object_walkingarea (net : Net) (obj : Element) :
  is_walkingarea_edge obj = true -> add_object net obj = Ok net.
Proof.
  unfold is_walkingarea_edge, add_object. intros H.
  apply andb_true_iff in H as [-> ->]. reflexivity.
Qed.

Lemma load_objects_skip (net : Net) (root : list Element) :
  foldM add_object net (List.filter (fun obj => negb (is_walkingarea_edge obj)) root)
  = foldM add_object net root.
Proof.
  revert net. induction root as [|obj root IH]; intros net; simpl; [reflexivity|].
  destruct (is_walkingarea_edge obj) eqn:Hw; simpl.
  - rewrite add_object_walkingarea by exact Hw. simpl. apply IH.
  - destruct (add_object net obj); simpl; [apply IH | reflexivity].
Qed.

Lemma load_objects_no_walkingarea (root : list Element) (net : Net) :
  load_objects root = Ok net ->
  forall k e, edges net !! k = Some e -> function e <> "walkingarea".
Proof.
  unfold load_objects.
  apply (foldM_invariant add_object
           (fun n => forall k e, edges n !! k = Some e -> function e <> "walkingarea")).
  - intros n obj n' _ Hn H. unfold add_object in H.
    destruct (is_tag obj "edge").
    + destruct (bool_decide_reflect
                  (attrib_get (attrib_of obj) "function" = Some "walkingarea"))
        as [|Hne]; [injection H as <-; exact Hn|].
      apply bind_Ok in H as [edge [Hb [= <-]]]. simpl.
      intros k e. rewrite lookup_insert.
      destruct (decide (edge_id edge = k)); [|apply Hn].
      intros [= <-]. rewrite (build_edge_function _ _ Hb).
      unfold attrib_default.
      destruct (attrib_get (attrib_of obj) "function"); simpl; congruence.
    + destruct (is_tag obj "junction").
      * apply bind_Ok in H as [j [_ [= <-]]]. exact Hn.
      * destruct (is_tag obj "connection").
        -- apply bind_Ok in H as [c [_ [= <-]]]. exact Hn.
        -- injection H as <-. exact Hn.
  - intros k e Hk. simpl in Hk. rewrite lookup_empty in Hk. discriminate.
Qed.

(** C10: the edge collection of a Net constructed from a network description
    contains no edge whose function is "walkingarea": such edge records,
    with their lanes and stop offsets, are skipped at construction, and the
    Net is the one constructed from the description without them. *)
Theorem no_walkingarea_edge (root : list Element) (net : Net) :
  Net_init root = Ok net ->
  (forall k e, edges net !! k = Some e -> function e <> "walkingarea")
  /\ Net_init (List.filter (fun obj => negb (is_walkingarea_edge obj)) root) = Ok net.
Proof.
  intros H. split.
  - unfold Net_init in H. apply bind_Ok in H as [net0 [H0 H]].
    intros k e Hk.
    destruct (link_objects_function _ _ _ _ H Hk) as [e0 [Hk0 ->]].
    eapply load_objects_no_walkingarea; [exact H0 | exact Hk0].
  - unfold Net_init, load_objects in *. rewrite load_objects_skip. exact H.
Qed.

(** ** Lookups of the linking pass *)

Lemma get_lane_parts (es : gmap string Edge) (lane_id : string) :
  _get_lane es lane_id
  = match index_part lane_id with
    | None => Raise ValueError
    | Some n =>
        match es !! edge_part lane_id with
        | Some edge =>
            match find_lane (lanes edge) n with
            | Some l => Ok (Some (edge_part lane_id, l.1))
            | None => Raise IndexError
            end
        | None => Ok None
        end
    end.
Proof.
  unfold _get_lane, index_part, edge_part, Py.last_item.
  assert (Hne : exists w ws, Py.split "_" lane_id = w :: ws).
  { destruct lane_id as [|c rest]; simpl; [eauto|].
    destruct (Ascii.eqb c "_"); [eauto|].
    destruct (Py.split "_" rest); eauto. }
  destruct Hne as [w [ws Hsplit]]. rewrite Hsplit.
  destruct (last (w :: ws)) as [lst|] eqn:Hlast.
  - simpl. destruct (Py.int lst) as [n|]; simpl; [|reflexivity].
    destruct (es !! _) as [edge|]; [|reflexivity].
    unfold Edge_get_lane. destruct (find_lane (lanes edge) n); reflexivity.
  - apply last_None in Hlast. discriminate.
Qed.

(** ** Running the linking pass again *)

Lemma foldM_ext {A S} (f g : S -> A -> result S) (s : S) (l : list A) :
  (forall s x, f s x = g s x) -> foldM f s l = foldM g s l.
Proof.
  intros H. revert s. induction l as [|x l IH]; intros s; simpl; [reflexivity|].
  rewrite H. destruct (g s x); simpl; [apply IH | reflexivity].
Qed.

Lemma map_lanes_compose (f g : Lane -> Lane) (es : gmap string Edge) :
  map_lanes f (map_lanes g es) = map_lanes (f ∘ g) es.
Proof.
  unfold map_lanes. rewrite <- map_fmap_compose. apply map_fmap_ext.
  intros k e _. simpl. rewrite Edge_set_lanes_twice, <- list_fmap_compose.
  reflexivity.
Qed.

(** Stores that agree up to the requests of their lanes agree up to all
    that the linking pass writes. *)
Lemma without_requests_unlinked (es es' : gmap string Edge) :
  map_lanes lane_without_requests es = map_lanes lane_without_requests es' ->
  map_lanes lane_unlinked es = map_lanes lane_unlinked es'.
Proof.
  intros H. apply (f_equal (map_lanes lane_unlinked)) in H.
  rewrite !map_lanes_compose in H. exact H.
Qed.

Lemma find_lane_fmap (f : Lane -> Lane) (ls : list Lane) (n : Z) :
  (forall l, lane_index (f l) = lane_index l) ->
  find_lane (f <$> ls) n = prod_map id f <$> find_lane ls n.
Proof.
  intros Hf. induction ls as [|l ls IH]; [reflexivity|].
  rewrite fmap_cons. cbn [find_lane].
  rewrite Hf. destruct (lane_index l =? n)%Z; [reflexivity|].
  rewrite IH. destruct (find_lane ls n) as [[i l']|]; reflexivity.
Qed.

(** The lookups of the pass read the store up to the lanes' own fields. *)
Lemma get_lane_map_lanes (f : Lane -> Lane) (es : gmap string Edge) (lane_id : string) :
  (forall l, lane_index (f l) = lane_index l) ->
  _get_lane (map_lanes f es) lane_id = _get_lane es lane_id.
Proof.
  intros Hf. rewrite !get_lane_parts. destruct (index_part lane_id) as [n|]; [|reflexivity].
  unfold map_lanes. rewrite lookup_fmap.
  destruct (es !! edge_part lane_id) as [e|]; simpl; [|reflexivity].
  rewrite find_lane_fmap by exact Hf.
  destruct (find_lane (lanes e) n) as [[i l]|]; reflexivity.
Qed.

Lemma get_lane_unlinked (es es' : gmap string Edge) (lane_id : string) :
  map_lanes lane_unlinked es = map_lanes lane_unlinked es' ->
  _get_lane es lane_id = _get_lane es' lane_id.
Proof.
  intros H. rewrite <- (get_lane_map_lanes lane_unlinked es) by reflexivity.
  rewrite H. apply get_lane_map_lanes. reflexivity.
Qed.

Lemma resolve_lanes_unlinked (es es' : gmap string Edge) (ids : list string) :
  map_lanes lane_unlinked es = map_lanes lane_unlinked es' ->
  resolve_lanes es ids = resolve_lanes es' ids.
Proof.
  intros H. unfold resolve_lanes. f_equal. apply mapM_ext.
  intros i _. apply get_lane_unlinked. exact H.
Qed.

Lemma end_lane_map_lanes (f : Lane -> Lane) (es : gmap string Edge) (k : string)
    (n : Z) (old : option LaneRef) :
  (forall l, lane_index (f l) = lane_index l) ->
  end_lane (map_lanes f es) k n old = end_lane es k n old.
Proof.
  intros Hf. unfold end_lane, map_lanes, Edge_get_lane. rewrite lookup_fmap.
  destruct (es !! k) as [e|]; simpl; [|reflexivity].
  rewrite find_lane_fmap by exact Hf.
  destruct (find_lane (lanes e) n) as [[i l]|]; reflexivity.
Qed.

Lemma edge_ref_map_lanes (f : Lane -> Lane) (es : gmap string Edge) (k : string) :
  edge_ref (map_lanes f es) k = edge_ref es k.
Proof.
  unfold edge_ref, map_lanes. rewrite lookup_fmap. destruct (es !! k); reflexivity.
Qed.

Lemma link_connection_map_lanes (f : Lane -> Lane) (es : gmap string Edge)
    (c : Connection) :
  (forall l, lane_index (f l) = lane_index l) ->
  link_connection (map_lanes f es) c = link_connection es c.
Proof.
  intros Hf. unfold link_connection.
  rewrite !end_lane_map_lanes, !edge_ref_map_lanes by exact Hf.
  destruct (via_id c) as [v|]; [|reflexivity].
  rewrite get_lane_map_lanes by exact Hf. reflexivity.
Qed.

Lemma link_connection_unlinked (es es' : gmap string Edge) (c : Connection) :
  map_lanes lane_unlinked es = map_lanes lane_unlinked es' ->
  link_connection es c = link_connection es' c.
Proof.
  intros H. rewrite <- (link_connection_map_lanes lane_unlinked es) by reflexivity.
  rewrite H. apply link_connection_map_lanes. reflexivity.
Qed.

Lemma fmap_alter_at (f g : Lane -> Lane) (ls : list Lane) (i : nat) :
  (forall l, ls !! i = Some l -> f (g l) = f l) ->
  f <$> alter g i ls = f <$> ls.
Proof.
  intros H. apply list_eq. intros k.
  rewrite !list_lookup_fmap, list_lookup_alter.
  destruct (decide (i = k)) as [<-|]; [|reflexivity].
  destruct (ls !! i) as [l|] eqn:Hl; simpl; [|reflexivity].
  f_equal. apply H. reflexivity.
Qed.

Lemma map_lanes_update_lane_at (f g : Lane -> Lane) (es : gmap string Edge) (h : LaneRef) :
  (forall l, Net_lane es h = Some l -> f (g l) = f l) ->
  map_lanes f (update_lane es h g) = map_lanes f es.
Proof.
  intros Hfg. unfold map_lanes, update_lane.
  apply map_eq. intros k. rewrite !lookup_fmap, lookup_alter.
  destruct (decide (h.1 = k)) as [<-|]; [|reflexivity].
  destruct (es !! h.1) as [e|] eqn:He; simpl; [|reflexivity].
  f_equal. rewrite Edge_set_lanes_twice. f_equal.
  apply fmap_alter_at. intros l Hl. apply Hfg.
  unfold Net_lane. rewrite He. exact Hl.
Qed.

(** What [link_lane] does when it does not raise. *)
Lemma link_lane_Ok (cxns : list Connection) (j : Junction) (es es' : gmap string Edge)
    (h : LaneRef) :
  link_lane cxns j es h = Ok es'
  <-> exists lane reqs,
        Net_lane es h = Some lane
        /\ mapM (fun cxn => requests_of_connection cxns j cxn.2)
                (_get_connections_from_lane cxns (lane_id lane)) = Ok reqs
        /\ es' = update_lane es h (fun l =>
                   Lane_set_links l
                     (_get_connections_to_lane cxns (lane_id lane)).*1
                     (_get_connections_from_lane cxns (lane_id lane)).*1
                     (requests l ++ concat reqs)).
Proof.
  unfold link_lane. split.
  - intros H. apply bind_Ok in H as [lane [Hl H]]. apply or_raise_Ok in Hl.
    apply bind_Ok in H as [reqs [Hr [= <-]]]. exists lane, reqs. auto.
  - intros [lane [reqs [Hl [Hr ->]]]]. rewrite Hl. simpl. rewrite Hr. reflexivity.
Qed.

Lemma link_lane_settles (cxns : list Connection) (j : Junction)
    (es es' : gmap string Edge) (h : LaneRef) :
  link_lane cxns j es h = Ok es' -> settled cxns j es' h.
Proof.
  intros H. apply link_lane_Ok in H as [lane [reqs [Hl [Hr ->]]]].
  eexists _, reqs. rewrite Net_lane_update_lane, decide_True, Hl by reflexivity.
  simpl. repeat split; [reflexivity.. | exact Hr].
Qed.

Lemma link_lane_keeps (cxns : list Connection) (j j' : Junction)
    (es es' : gmap string Edge) (h h' : LaneRef) :
  link_lane cxns j es h = Ok es' -> settled cxns j' es h' -> settled cxns j' es' h'.
Proof.
  intros H [lane' [reqs' [Hl' [Hi [Ho Hr']]]]].
  apply link_lane_Ok in H as [lane [reqs [Hl [Hr ->]]]].
  destruct (decide (h = h')) as [<-|Hne].
  - assert (lane' = lane) as -> by congruence.
    eexists _, reqs'. rewrite Net_lane_update_lane, decide_True, Hl by reflexivity.
    simpl. repeat split; [reflexivity.. | exact Hr'].
  - exists lane', reqs'. rewrite Net_lane_update_lane, decide_False by exact Hne.
    auto.
Qed.

(** At a settled lane [link_lane] does not raise, and only adds requests. *)
Lemma link_lane_settled (cxns : list Connection) (j : Junction) (es : gmap string Edge)
    (h : LaneRef) :
  settled cxns j es h ->
  exists es', link_lane cxns j es h = Ok es'
              /\ map_lanes lane_without_requests es'
                 = map_lanes lane_without_requests es.
Proof.
  intros [lane [reqs [Hl [Hi [Ho Hr]]]]].
  eexists. split.
  - apply link_lane_Ok. exists lane, reqs. auto.
  - apply map_lanes_update_lane_at. intros l Hl'.
    assert (l = lane) as -> by congruence.
    unfold lane_without_requests. simpl. rewrite <- Hi, <- Ho. reflexivity.
Qed.

Lemma settled_without_requests (cxns : list Connection) (j : Junction)
    (es es' : gmap string Edge) (h : LaneRef) :
  map_lanes lane_without_requests es = map_lanes lane_without_requests es' ->
  settled cxns j es h -> settled cxns j es' h.
Proof.
  intros H [lane [reqs [Hl [Hi [Ho Hr]]]]].
  assert (Hh := f_equal (fun m => Net_lane m h) H). simpl in Hh.
  rewrite !Net_lane_map_lanes, Hl in Hh.
  destruct (Net_lane es' h) as [lane'|] eqn:Hl'; [|discriminate].
  simpl in Hh.
  assert (Hid : lane_id lane' = lane_id lane)
    by (apply (f_equal (fmap lane_id)) in Hh; simpl in Hh; congruence).
  assert (Hin : incoming_connections lane' = incoming_connections lane)
    by (apply (f_equal (fmap incoming_connections)) in Hh; simpl in Hh; congruence).
  assert (Hout : outgoing_connections lane' = outgoing_connections lane)
    by (apply (f_equal (fmap outgoing_connections)) in Hh; simpl in Hh; congruence).
  exists lane', reqs. rewrite Hid, Hin, Hout. repeat split; assumption.
Qed.

(** The requests of a connection are looked up in the junction's own
    tables, which the pass does not write. *)
Lemma requests_of_connection_junction (cxns : list Connection) (j j' : Junction)
    (c : Connection) :
  junction_unlinked j = junction_unlinked j' ->
  requests_of_connection cxns j c = requests_of_connection cxns j' c.
Proof.
  intros H.
  change (requests_of_connection cxns j c)
    with (requests_of_connection cxns (junction_unlinked j) c).
  rewrite H. reflexivity.
Qed.

Lemma link_lane_junction (cxns : list Connection) (j j' : Junction)
    (es : gmap string Edge) (h : LaneRef) :
  junction_unlinked j = junction_unlinked j' ->
  link_lane cxns j es h = link_lane cxns j' es h.
Proof.
  intros H. unfold link_lane. destruct (Net_lane es h) as [lane|]; [|reflexivity].
  simpl. erewrite mapM_ext; [reflexivity|].
  intros c _. apply requests_of_connection_junction. exact H.
Qed.

(** The loop over a junction's lanes, when they are settled already. *)
Lemma link_lanes_settled (cxns : list Connection) (j : Junction) (L : list LaneRef)
    (es : gmap string Edge) :
  (forall h, h ∈ L -> settled cxns j es h) ->
  exists es', foldM (link_lane cxns j) es L = Ok es'
              /\ map_lanes lane_without_requests es'
                 = map_lanes lane_without_requests es.
Proof.
  revert es. induction L as [|h L IH]; intros es HL; simpl.
  - exists es. auto.
  - destruct (link_lane_settled cxns j es h) as [es1 [H1 Heq1]];
      [apply HL; constructor|].
    destruct (IH es1) as [es' [H' Heq']].
    { intros h' Hh'. eapply settled_without_requests; [symmetry; exact Heq1|].
      apply HL. constructor. exact Hh'. }
    exists es'. rewrite H1. simpl. split; [exact H' | congruence].
Qed.

(** The loop settles the lanes it runs over and keeps the others settled. *)
Lemma link_lanes_settles (cxns : list Connection) (j : Junction) (L : list LaneRef)
    (es es' : gmap string Edge) :
  foldM (link_lane cxns j) es L = Ok es' ->
  (forall h, h ∈ L -> settled cxns j es' h)
  /\ (forall j0 h0, settled cxns j0 es h0 -> settled cxns j0 es' h0).
Proof.
  revert es. induction L as [|h L IH]; intros es H; simpl in H.
  - injection H as <-. split; [intros h Hh; inversion Hh | auto].
  - apply bind_Ok in H as [es1 [H1 H]].
    destruct (IH _ H) as [Hin Hkeep]. split.
    + intros h' Hh'. apply elem_of_cons in Hh' as [->|Hh']; [|apply Hin; exact Hh'].
      apply Hkeep. eapply link_lane_settles. exact H1.
    + intros j0 h0 Hs. apply Hkeep. eapply link_lane_keeps; eassumption.
Qed.

Lemma relinked_unlinked (es es' : gmap string Edge) (j j' : Junction) :
  map_lanes lane_unlinked es = map_lanes lane_unlinked es' ->
  relinked es j j' -> relinked es' j j'.
Proof.
  intros H. unfold relinked.
  rewrite !(resolve_lanes_unlinked es es') by exact H. auto.
Qed.

(** At a junction that is ready the pass does not raise; it appends the
    resolved lanes to the junction's lists once more and adds requests. *)
Lemma link_junction_ready (cxns : list Connection) (es : gmap string Edge)
    (j : Junction) :
  ready cxns es j ->
  exists j' es', link_junction cxns es j = Ok (j', es')
                 /\ map_lanes lane_without_requests es'
                    = map_lanes lane_without_requests es
                 /\ relinked es j j'.
Proof.
  intros Hr. unfold link_junction, relinked, ready in *.
  destruct (String.eqb (junction_type j) "internal").
  - exists j, es. auto.
  - destruct (Hr eq_refl) as [inc [int [Hinc [Hint Hs]]]].
    rewrite Hinc, Hint. simpl.
    destruct (link_lanes_settled cxns j (incLanes j ++ inc) es Hs) as [es' [H' Heq]].
    eexists _, es'. split; [|split; [exact Heq | eauto]].
    rewrite (foldM_ext _ (link_lane cxns j)), H'; [reflexivity|].
    intros s x. apply link_lane_junction. reflexivity.
Qed.

(** After the pass has run over a junction, the junction is ready. *)
Lemma link_junction_makes_ready (cxns : list Connection) (es es' : gmap string Edge)
    (j j' : Junction) :
  link_junction cxns es j = Ok (j', es') ->
  ready cxns es' j'
  /\ (forall j0 h0, settled cxns j0 es h0 -> settled cxns j0 es' h0).
Proof.
  intros H. destruct (link_junction_unlinked _ _ _ _ _ H) as [Hu Hj].
  unfold link_junction in H. unfold ready.
  destruct (String.eqb (junction_type j) "internal") eqn:Ht.
  - injection H as <- <-. split; [|auto]. intros Hni. congruence.
  - apply bind_Ok in H as [inc [Hinc H]]. apply bind_Ok in H as [int [Hint H]].
    apply bind_Ok in H as [es1 [H [= <- <-]]]. simpl in *.
    apply link_lanes_settles in H as [Hin Hkeep]. split; [|exact Hkeep].
    intros _. exists inc, int.
    rewrite !(resolve_lanes_unlinked es1 es) by exact Hu.
    split; [exact Hinc|]. split; [exact Hint|].
    intros h Hh. apply Hin. apply elem_of_app in Hh as [Hh|Hh]; [exact Hh|].
    apply elem_of_app. right. exact Hh.
Qed.

Lemma ready_preserved (cxns : list Connection) (es es' : gmap string Edge)
    (j : Junction) :
  map_lanes lane_unlinked es' = map_lanes lane_unlinked es ->
  (forall j0 h0, settled cxns j0 es h0 -> settled cxns j0 es' h0) ->
  ready cxns es j -> ready cxns es' j.
Proof.
  intros Hu Hkeep Hr Hni. destruct (Hr Hni) as [inc [int [Hinc [Hint Hs]]]].
  exists inc, int. rewrite !(resolve_lanes_unlinked es' es) by exact Hu. auto.
Qed.

(** After the pass has run over the junctions, all of them are ready. *)
Lemma link_junctions_make_ready (cxns : list Connection) (js js' : list (string * Junction))
    (es es' : gmap string Edge) :
  link_junctions cxns es js = Ok (js', es') ->
  Forall (fun kj => ready cxns es' kj.2) js'
  /\ (forall j0 h0, settled cxns j0 es h0 -> settled cxns j0 es' h0).
Proof.
  revert js' es es'. induction js as [|[k j] js IH]; intros js' es es' H; simpl in H.
  - injection H as <- <-. split; [constructor | auto].
  - apply bind_Ok in H as [[j1 es1] [H1 H]].
    apply bind_Ok in H as [[js2 es2] [H2 [= <- <-]]]. simpl in *.
    destruct (link_junctions_unlinked _ _ _ _ _ H2) as [Hu2 _].
    apply link_junction_makes_ready in H1 as [Hr1 Hk1].
    apply IH in H2 as [Hr2 Hk2]. split; [|auto].
    constructor; [|exact Hr2]. simpl.
    eapply ready_preserved; [exact Hu2 | exact Hk2 | exact Hr1].
Qed.

(** Over junctions that are ready the pass does not raise. *)
Lemma link_junctions_ready (cxns : list Connection) (js : list (string * Junction))
    (es : gmap string Edge) :
  Forall (fun kj => ready cxns es kj.2) js ->
  exists js' es',
    link_junctions cxns es js = Ok (js', es')
    /\ map_lanes lane_without_requests es' = map_lanes lane_without_requests es
    /\ Forall2 (fun kj kj' => kj'.1 = kj.1 /\ relinked es kj.2 kj'.2) js js'.
Proof.
  revert es. induction js as [|[k j] js IH]; intros es Hr; simpl.
  - exists [], es. split; [reflexivity|]. split; [reflexivity | constructor].
  - inversion Hr as [|? ? Hj Hjs]; subst. simpl in Hj.
    destruct (link_junction_ready cxns es j Hj) as [j1 [es1 [H1 [Heq1 Hrel1]]]].
    destruct (IH es1) as [js2 [es2 [H2 [Heq2 Hrel2]]]].
    { eapply Forall_impl; [exact Hjs|]. intros kj Hkj.
      eapply ready_preserved; [| |exact Hkj].
      - apply without_requests_unlinked. exact Heq1.
      - intros j0 h0. apply settled_without_requests. symmetry. exact Heq1. }
    exists ((k, j1) :: js2), es2. rewrite H1. simpl. rewrite H2. simpl.
    split; [reflexivity|]. split; [congruence|].
    constructor; [simpl; auto|].
    eapply Forall2_impl; [exact Hrel2|]. intros kj kj' [Hk Hrel]. split; [exact Hk|].
    eapply relinked_unlinked; [|exact Hrel].
    apply without_requests_unlinked. exact Heq1.
Qed.

(** The loop over the junctions reads of the connections what their
    records declare, not what the pass writes into them. *)
Lemma filter_imap_unlinked (p : Connection -> bool) (g : nat -> nat)
    (cxns : list Connection) :
  (forall c, p (connection_unlinked c) = p c) ->
  List.filter (fun ic : nat * Connection => p ic.2)
              (imap (fun i c => (g i, c)) (connection_unlinked <$> cxns))
  = prod_map id connection_unlinked
      <$> List.filter (fun ic : nat * Connection => p ic.2)
                      (imap (fun i c => (g i, c)) cxns).
Proof.
  intros Hp. revert g. induction cxns as [|c cxns IH]; intros g; [reflexivity|].
  rewrite fmap_cons. cbn [imap List.filter]. simpl. rewrite Hp.
  specialize (IH (g ∘ S)). unfold compose in *. simpl in IH.
  destruct (p c); simpl; rewrite IH; reflexivity.
Qed.

Lemma connections_where_unlinked (p : Connection -> bool) (cxns : list Connection) :
  (forall c, p (connection_unlinked c) = p c) ->
  connections_where p (connection_unlinked <$> cxns)
  = prod_map id connection_unlinked <$> connections_where p cxns.
Proof. intros Hp. apply (filter_imap_unlinked p id cxns Hp). Qed.

Lemma requests_of_connection_unlinked (cxns : list Connection) (j : Junction)
    (c : Connection) :
  requests_of_connection (connection_unlinked <$> cxns) j (connection_unlinked c)
  = requests_of_connection cxns j c.
Proof.
  unfold requests_of_connection. simpl. destruct (via_id c) as [via|]; [|reflexivity].
  f_equal. unfold _get_connections_from_lane.
  rewrite connections_where_unlinked by reflexivity.
  rewrite mapM_fmap. reflexivity.
Qed.

Lemma link_lane_unlinked_connections (cxns : list Connection) (j : Junction)
    (es : gmap string Edge) (h : LaneRef) :
  link_lane (connection_unlinked <$> cxns) j es h = link_lane cxns j es h.
Proof.
  unfold link_lane. destruct (Net_lane es h) as [lane|]; [|reflexivity]. simpl.
  unfold _get_connections_from_lane, _get_connections_to_lane.
  rewrite !connections_where_unlinked by reflexivity.
  rewrite mapM_fmap.
  rewrite (mapM_ext _ (fun cxn => requests_of_connection cxns j cxn.2))
    by (intros c _; apply requests_of_connection_unlinked).
  rewrite <- !list_fmap_compose.
  reflexivity.
Qed.

Lemma link_junctions_unlinked_connections (cxns : list Connection)
    (js : list (string * Junction)) (es : gmap string Edge) :
  link_junctions (connection_unlinked <$> cxns) es js = link_junctions cxns es js.
Proof.
  revert es. induction js as [|[k j] js IH]; intros es; simpl; [reflexivity|].
  assert (Hj : link_junction (connection_unlinked <$> cxns) es j
               = link_junction cxns es j).
  { unfold link_junction. destruct (String.eqb _ _); [reflexivity|].
    destruct (resolve_lanes es (incLane_ids j)); [|reflexivity].
    destruct (resolve_lanes es (intLane_ids j)); [|reflexivity]. simpl.
    rewrite (foldM_ext _ _ _ _ (link_lane_unlinked_connections cxns _)).
    reflexivity. }
  rewrite Hj. destruct (link_junction cxns es j) as [r|]; [|reflexivity].
  simpl. rewrite IH. reflexivity.
Qed.

(** Linking a connection again gives the same connection. *)
Lemma end_lane_again (es : gmap string Edge) (k : string) (n : Z)
    (old r : option LaneRef) :
  end_lane es k n old = Ok r -> end_lane es k n r = Ok r.
Proof.
  unfold end_lane. destruct (es !! k); [auto|]. intros [= ->]. reflexivity.
Qed.

Lemma link_connection_again (es : gmap string Edge) (c c1 : Connection) :
  link_connection es c = Ok c1 ->
  link_connection es c1 = Ok c1 /\ connection_unlinked c1 = connection_unlinked c.
Proof.
  unfold link_connection. intros H.
  apply bind_Ok in H as [via [Hvia H]]. apply bind_Ok in H as [fl [Hfl H]].
  apply bind_Ok in H as [tl [Htl [= <-]]]. simpl. split; [|reflexivity].
  apply end_lane_again in Hfl, Htl. rewrite Hfl, Htl.
  destruct (via_id c); [rewrite Hvia|]; reflexivity.
Qed.

Lemma link_connections_again (es : gmap string Edge) (cxns cxns1 : list Connection) :
  mapM (link_connection es) cxns = Ok cxns1 ->
  mapM (link_connection es) cxns1 = Ok cxns1
  /\ connection_unlinked <$> cxns1 = connection_unlinked <$> cxns.
Proof.
  intros H. apply mapM_Ok in H. split.
  - apply mapM_Ok. induction H as [|c c1 cs cs1 Hc _ IH]; constructor; [|exact IH].
    apply (link_connection_again _ _ _ Hc).
  - induction H as [|c c1 cs cs1 Hc _ IH]; [reflexivity|].
    rewrite !fmap_cons, IH. f_equal. apply (link_connection_again _ _ _ Hc).
Qed.

(** Linking the edges again gives the same edges. *)
Lemma junction_ref_keys (js js' : list (string * Junction)) (k : option string) :
  Forall2 (fun kj kj' => kj.1 = kj'.1
                         /\ junction_unlinked kj.2 = junction_unlinked kj'.2) js js' ->
  junction_ref js' k = junction_ref js k.
Proof.
  intros H. destruct k as [k|]; [|reflexivity]. unfold junction_ref. simpl.
  induction H as [|[k1 j1] [k2 j2] js js' [Hk _] _ IH]; [reflexivity|].
  simpl in *. subst k2. destruct (String.eqb k1 k); [reflexivity | exact IH].
Qed.

Lemma link_edges_again (cxns : list Connection) (js js1 : list (string * Junction))
    (es0 es1 : gmap string Edge) :
  link_junctions cxns (link_edge js <$> es0) js = Ok (js1, es1) ->
  link_edge js1 <$> es1 = es1.
Proof.
  intros H. apply link_junctions_unlinked in H as [Hu Hjs].
  apply map_eq. intros k. rewrite lookup_fmap.
  assert (Hk := f_equal (fun m => m !! k) Hu). simpl in Hk.
  unfold map_lanes in Hk. rewrite !lookup_fmap in Hk.
  destruct (es1 !! k) as [e1|]; [|reflexivity].
  destruct (es0 !! k) as [e0|]; [|discriminate]. simpl in *. f_equal.
  unfold link_edge. rewrite !(junction_ref_keys js js1) by exact Hjs.
  assert (Hf : from_junction_id e1 = from_junction_id e0)
    by (apply (f_equal (fmap from_junction_id)) in Hk; simpl in Hk; congruence).
  assert (Ht : to_junction_id e1 = to_junction_id e0)
    by (apply (f_equal (fmap to_junction_id)) in Hk; simpl in Hk; congruence).
  assert (Hfj : from_junction e1 = junction_ref js (from_junction_id e0))
    by (apply (f_equal (fmap from_junction)) in Hk; simpl in Hk; congruence).
  assert (Htj : to_junction e1 = junction_ref js (to_junction_id e0))
    by (apply (f_equal (fmap to_junction)) in Hk; simpl in Hk; congruence).
  rewrite Hf, Ht, <- Hfj, <- Htj. destruct e1. reflexivity.
Qed.

(** The pass appends to the request lists of the lanes. *)
Lemma link_lane_requests_extend (cxns : list Connection) (j : Junction)
    (es es' : gmap string Edge) (h0 : LaneRef) :
  link_lane cxns j es h0 = Ok es' -> requests_extend es es'.
Proof.
  intros H h l Hl. apply link_lane_Ok in H as [lane [reqs [Hl0 [_ ->]]]].
  rewrite Net_lane_update_lane. destruct (decide (h0 = h)) as [->|_].
  - rewrite Hl. simpl. eexists. split; [reflexivity|]. simpl.
    apply prefix_app_r. reflexivity.
  - exists l. split; [exact Hl | reflexivity].
Qed.

Lemma requests_extend_trans (es1 es2 es3 : gmap string Edge) :
  requests_extend es1 es2 -> requests_extend es2 es3 -> requests_extend es1 es3.
Proof.
  intros H12 H23 h l Hl. destruct (H12 h l Hl) as [l2 [Hl2 Hp2]].
  destruct (H23 h l2 Hl2) as [l3 [Hl3 Hp3]].
  exists l3. split; [exact Hl3 | etransitivity; eassumption].
Qed.

Lemma link_junctions_requests_extend (cxns : list Connection)
    (js js' : list (string * Junction)) (es es' : gmap string Edge) :
  link_junctions cxns es js = Ok (js', es') -> requests_extend es es'.
Proof.
  revert js' es es'. induction js as [|[k j] js IH]; intros js' es es' H; simpl in H.
  - injection H as <- <-. intros h l Hl. exists l. split; [exact Hl | reflexivity].
  - apply bind_Ok in H as [[j1 es1] [H1 H]].
    apply bind_Ok in H as [[js2 es2] [H2 [= <- <-]]]. simpl in *.
    apply requests_extend_trans with es1; [|eapply IH; exact H2].
    unfold link_junction in H1. destruct (String.eqb (junction_type j) "internal").
    + injection H1 as <- <-. intros h l Hl. exists l. split; [exact Hl | reflexivity].
    + apply bind_Ok in H1 as [inc [_ H1]]. apply bind_Ok in H1 as [int [_ H1]].
      apply bind_Ok in H1 as [es0 [H1 [= <- <-]]].
      eapply (foldM_invariant _ (fun s => requests_extend es s)); [| |exact H1].
      * intros s x s' _ Hs Hx. apply requests_extend_trans with s; [exact Hs|].
        eapply link_lane_requests_extend. exact Hx.
      * intros h l Hl. exists l. split; [exact Hl | reflexivity].
Qed.

(** C2, amended: for every network whose linking pass has already run,
    running the pass a second time does not raise and leaves identical the
    edge-to-junction references, the per-lane connection lists (the edges and
    their lanes change in nothing but the lanes' Request lists) and the
    connections with their lane and edge references; to the incoming and
    internal lane lists of every junction that is not internal it appends
    the lanes its ids resolve to once more, and the Request list of a lane
    is appended to. *)
Theorem relink_keeps_links (net net1 : Net) :
  _link_objects net = Ok net1 ->
  exists net2,
    _link_objects net1 = Ok net2
    /\ connections net2 = connections net1
    /\ map_lanes lane_without_requests (edges net2)
       = map_lanes lane_without_requests (edges net1)
    /\ Forall2 (fun kj kj' => kj'.1 = kj.1 /\ relinked (edges net1) kj.2 kj'.2)
               (junctions net1) (junctions net2)
    /\ requests_extend (edges net1) (edges net2).
Proof.
  unfold _link_objects at 1. intros H.
  apply bind_Ok in H as [[js1 es1] [H1 H]].
  apply bind_Ok in H as [cxns1 [H3 [= <-]]]. simpl in *.
  destruct (link_connections_again _ _ _ H3) as [H3' Hc].
  destruct (link_junctions_make_ready _ _ _ _ _ H1) as [Hready _].
  destruct (link_junctions_ready (connections net) js1 es1 Hready)
    as [js2 [es2 [H2 [Heq Hrel]]]].
  exists (mkNet es2 js2 cxns1). unfold _link_objects. simpl.
  rewrite (link_edges_again _ _ _ _ _ H1).
  rewrite <- link_junctions_unlinked_connections, Hc,
    link_junctions_unlinked_connections, H2.
  simpl.
  rewrite (mapM_ext _ (link_connection es1))
    by (intros c _; apply link_connection_unlinked, without_requests_unlinked;
        exact Heq).
  rewrite H3'. simpl.
  split; [reflexivity|]. split; [reflexivity|]. split; [exact Heq|].
  split; [exact Hrel|]. eapply link_junctions_requests_extend. exact H2.
Qed.

(** * Further properties of the code *)

(** ** Settings *)

(** [set_style] rejects a style that is neither "USA" nor "EUR" with
    IndexError, and otherwise sets what it is given and nothing else. *)
Lemma set_style_result (g : Settings) (style : option string) (psl : option bool) :
  match set_style g style psl with
  | Ok g' =>
      LANE_MARKINGS_STYLE g' = default (LANE_MARKINGS_STYLE g) style
      /\ PLOT_STOP_LINES g' = default (PLOT_STOP_LINES g) psl
      /\ STRIPE_WIDTH_SCALE_FACTOR g' = STRIPE_WIDTH_SCALE_FACTOR g
      /\ (forall st, style = Some st -> st = USA_STYLE \/ st = EUR_STYLE)
  | Raise e =>
      e = IndexError
      /\ exists st, style = Some st /\ st <> USA_STYLE /\ st <> EUR_STYLE
  end.
Proof.
  unfold set_style. destruct style as [st|]; simpl.
  - destruct (bool_decide_reflect (st ∈ [USA_STYLE; EUR_STYLE])) as [Hin|Hout]; simpl.
    + destruct psl; simpl; repeat split; try reflexivity;
        intros st' [= <-]; rewrite !elem_of_cons, elem_of_nil in Hin; tauto.
    + split; [reflexivity|]. exists st. rewrite !elem_of_cons, elem_of_nil in Hout.
      split; [reflexivity|]. tauto.
  - destruct psl; simpl; repeat split; try reflexivity; discriminate.
Qed.

(** X1: whatever calls of set_style and set_stripe_width_scale are made from
    the initial settings, also calls that raise, the marking style stays one
    of "USA" and "EUR"; a call of set_style with another style raises
    IndexError. *)
Theorem style_stays_supported (calls : list SettingsCall) :
  let g := fold_left after_call calls default_settings in
  (LANE_MARKINGS_STYLE g = USA_STYLE \/ LANE_MARKINGS_STYLE g = EUR_STYLE)
  /\ (forall st psl, st <> USA_STYLE -> st <> EUR_STYLE ->
        set_style g (Some st) psl = Raise IndexError).
Proof.
  cbv zeta. split.
  - assert (H : forall g0, (LANE_MARKINGS_STYLE g0 = USA_STYLE
                            \/ LANE_MARKINGS_STYLE g0 = EUR_STYLE) ->
              LANE_MARKINGS_STYLE (fold_left after_call calls g0) = USA_STYLE
              \/ LANE_MARKINGS_STYLE (fold_left after_call calls g0) = EUR_STYLE).
    { induction calls as [|c calls IH]; intros g0 Hg0; simpl; [exact Hg0|].
      apply IH. destruct c as [style psl|factor]; simpl; [|exact Hg0].
      pose proof (set_style_result g0 style psl) as Hs.
      destruct (set_style g0 style psl) as [g'|]; [|exact Hg0].
      destruct Hs as [Hst [_ [_ Hsup]]]. rewrite Hst.
      destruct style as [st|]; simpl; [apply Hsup; reflexivity | exact Hg0]. }
    apply H. right. reflexivity.
  - intros st psl H1 H2. unfold set_style.
    rewrite bool_decide_eq_false_2; [reflexivity|].
    rewrite !elem_of_cons, elem_of_nil. tauto.
Qed.

(** ** Lane colours *)

(** X2: lane_color never falls back: the type of every lane is a key of
    COLOR_SCHEME, so the colour is the one the scheme gives that type, and
    KeyError is never raised. *)
Theorem lane_color_of_type (net : Net) (l : Lane) :
  exists c, lane_color net l = Ok c
            /\ dict_get COLOR_SCHEME (lane_type net l) = Some c
            /\ lane_type net l ∈ ["crosswalk"; "pedestrian"; "bicycle"; "ship";
                                  "authority"; "none"; "no_passenger"; "other"].
Proof.
  unfold lane_color, lane_type.
  destruct (Allowance_eq (allows l) "pedestrian").
  { destruct (Lane_parentEdge net l) as [e|];
      [destruct (String.eqb (function e) "crossing")|];
      eexists; (split; [reflexivity|]); (split; [reflexivity|]);
      rewrite !elem_of_cons; tauto. }
  destruct (Allowance_eq (allows l) "bicycle");
    [eexists; (split; [reflexivity|]); (split; [reflexivity|]);
     rewrite !elem_of_cons; tauto|].
  destruct (Allowance_eq (allows l) "ship");
    [eexists; (split; [reflexivity|]); (split; [reflexivity|]);
     rewrite !elem_of_cons; tauto|].
  destruct (Allowance_eq (allows l) "authority");
    [eexists; (split; [reflexivity|]); (split; [reflexivity|]);
     rewrite !elem_of_cons; tauto|].
  destruct (Allowance_eq (allows l) "none");
    [eexists; (split; [reflexivity|]); (split; [reflexivity|]);
     rewrite !elem_of_cons; tauto|].
  destruct (negb (Allowance_member (allows l) "passenger"));
    eexists; (split; [reflexivity|]); (split; [reflexivity|]);
    rewrite !elem_of_cons; tauto.
Qed.

(** ** Lanes of an edge *)

Lemma find_lane_Some (ls : list Lane) (n : Z) (i : nat) (l : Lane) :
  find_lane ls n = Some (i, l)
  <-> ls !! i = Some l /\ lane_index l = n
      /\ (forall k l', (k < i)%nat -> ls !! k = Some l' -> lane_index l' <> n).
Proof.
  revert i. induction ls as [|l0 ls IH]; intros i; simpl.
  - split; [discriminate | intros [H _]; discriminate].
  - destruct (Z.eqb_spec (lane_index l0) n) as [Heq|Hne].
    + split.
      * intros [= <- <-]. split; [reflexivity|]. split; [exact Heq|]. intros; lia.
      * intros [Hi [Hn Hfirst]]. destruct i as [|i].
        -- simpl in Hi. congruence.
        -- exfalso. apply (Hfirst 0%nat l0); [lia | reflexivity | exact Heq].
    + split.
      * intros H. destruct (find_lane ls n) as [[i' l']|]; [|discriminate].
        simpl in H. injection H as <- <-.
        destruct (proj1 (IH i') eq_refl) as [Hi [Hn Hfirst]].
        split; [exact Hi|]. split; [exact Hn|].
        intros [|k] l'' Hk Hl''; simpl in Hl''; [congruence|].
        apply (Hfirst k); [lia | exact Hl''].
      * intros [Hi [Hn Hfirst]]. destruct i as [|i]; [simpl in Hi; congruence|].
        rewrite (proj2 (IH i)); [reflexivity|].
        split; [exact Hi|]. split; [exact Hn|].
        intros k l'' Hk Hl''. apply (Hfirst (S k)); [lia | exact Hl''].
Qed.

Lemma find_lane_None (ls : list Lane) (n : Z) :
  find_lane ls n = None <-> forall l, l ∈ ls -> lane_index l <> n.
Proof.
  induction ls as [|l0 ls IH]; simpl.
  - split; [intros _ l Hl; inversion Hl | reflexivity].
  - destruct (Z.eqb_spec (lane_index l0) n) as [Heq|Hne].
    + split; [discriminate|]. intros H. exfalso. apply (H l0); [constructor | exact Heq].
    + split.
      * intros H l Hl. apply elem_of_cons in Hl as [->|Hl]; [exact Hne|].
        destruct (find_lane ls n); [discriminate|]. apply IH; [reflexivity | exact Hl].
      * intros H. rewrite (proj2 IH); [reflexivity|].
        intros l Hl. apply H. constructor. exact Hl.
Qed.

(** X3: get_lane returns the first lane of the edge that has the given
    index, and raises IndexError exactly when no lane of the edge has it. *)
Theorem get_lane_first (e : Edge) (n : Z) :
  match Edge_get_lane e n with
  | Ok (i, l) =>
      lanes e !! i = Some l /\ lane_index l = n
      /\ (forall k l', (k < i)%nat -> lanes e !! k = Some l' -> lane_index l' <> n)
  | Raise err => err = IndexError /\ (forall l, l ∈ lanes e -> lane_index l <> n)
  end.
Proof.
  unfold Edge_get_lane. destruct (find_lane (lanes e) n) as [[i l]|] eqn:Hf; simpl.
  - apply find_lane_Some. exact Hf.
  - split; [reflexivity|]. apply find_lane_None. exact Hf.
Qed.

(** X4: append_lane makes the edge one lane longer and the edge the lane's
    parent; lookups that succeeded give the same lane as before, and the new
    lane is found under its index if no lane of the edge had that index (a
    second lane with an index already in use is never found). *)
Theorem append_lane_then_get_lane (e : Edge) (l : Lane) :
  Edge_lane_count (Edge_append_lane e l) = Edge_lane_count e + 1
  /\ (forall n r, Edge_get_lane e n = Ok r ->
                  Edge_get_lane (Edge_append_lane e l) n = Ok r)
  /\ ((forall l', l' ∈ lanes e -> lane_index l' <> lane_index l) ->
      Edge_get_lane (Edge_append_lane e l) (lane_index l)
      = Ok (length (lanes e), Lane_set_parentEdge l (Some (edge_id e))))
  /\ (forall n i l', Edge_get_lane (Edge_append_lane e l) n = Ok (i, l') ->
        i = length (lanes e) -> parentEdge l' = Some (edge_id e)).
Proof.
  unfold Edge_lane_count, Edge_get_lane, Edge_append_lane. simpl.
  split; [rewrite length_app; simpl; lia|]. split; [|split].
  - intros n [i l0] H. apply or_raise_Ok in H. apply or_raise_Ok.
    apply find_lane_Some in H as [Hi [Hn Hfirst]]. apply find_lane_Some.
    split; [apply lookup_app_l_Some; exact Hi|]. split; [exact Hn|].
    intros k l' Hk Hl'. apply (Hfirst k l' Hk).
    rewrite lookup_app_l in Hl'; [exact Hl'|].
    apply lookup_lt_Some in Hi. lia.
  - intros Hnew. apply or_raise_Ok, find_lane_Some.
    split; [rewrite lookup_app_r, Nat.sub_diag by lia; reflexivity|].
    split; [reflexivity|].
    intros k l' Hk Hl'. rewrite lookup_app_l in Hl' by exact Hk.
    apply Hnew. eapply list_elem_of_lookup_2. exact Hl'.
  - intros n i l' H ->. apply or_raise_Ok, find_lane_Some in H as [Hi _].
    rewrite lookup_app_r, Nat.sub_diag in Hi by lia. injection Hi as <-. reflexivity.
Qed.

(** ** Requests of a junction *)

Lemma index_Some (x : string) (l : list string) (i : nat) :
  Py.index x l = Some i
  <-> l !! i = Some x /\ (forall k, (k < i)%nat -> l !! k <> Some x).
Proof.
  revert i. induction l as [|y l IH]; intros i; simpl.
  - split; [discriminate | intros [H _]; discriminate].
  - destruct (String.eqb_spec y x) as [->|Hne].
    + split.
      * intros [= <-]. split; [reflexivity | intros; lia].
      * intros [Hi Hfirst]. destruct i as [|i]; [reflexivity|].
        exfalso. apply (Hfirst 0%nat); [lia | reflexivity].
    + split.
      * intros H. destruct (Py.index x l) as [i'|]; [|discriminate].
        simpl in H. injection H as <-.
        destruct (proj1 (IH i') eq_refl) as [Hi Hfirst].
        split; [exact Hi|].
        intros [|k] Hk; simpl; [congruence | apply Hfirst; lia].
      * intros [Hi Hfirst]. destruct i as [|i]; [simpl in Hi; congruence|].
        rewrite (proj2 (IH i)); [reflexivity|].
        split; [exact Hi|]. intros k Hk. apply (Hfirst (S k)). lia.
Qed.

Lemma index_None (x : string) (l : list string) :
  Py.index x l = None <-> x ∉ l.
Proof.
  induction l as [|y l IH]; simpl.
  - split; [intros _ H; inversion H | reflexivity].
  - rewrite not_elem_of_cons. destruct (String.eqb_spec y x) as [->|Hne].
    + split; [discriminate | intros [H _]; congruence].
    + destruct (Py.index x l); simpl.
      * split; [discriminate|]. intros [_ H]. apply IH in H. discriminate.
      * split; [|reflexivity]. intros _. split; [congruence|]. apply IH. reflexivity.
Qed.

(** X5: the request that get_request_by_int_lane returns for a lane id is a
    request of the junction whose index is the first position of the id in
    the junction's internal-lane ids.  It raises IndexError when the id is
    not among them or no request has that index, and TypeError when the id
    is None; it raises nothing else. *)
Theorem get_request_by_int_lane_result (j : Junction) (lid : option string) :
  match get_request_by_int_lane j lid with
  | Ok r =>
      exists lane_id i,
        lid = Some lane_id /\ r ∈ _requests j /\ request_index r = Z.of_nat i
        /\ intLane_ids j !! i = Some lane_id
        /\ (forall k, (k < i)%nat -> intLane_ids j !! k <> Some lane_id)
  | Raise err =>
      (lid = None /\ err = TypeError)
      \/ (err = IndexError
          /\ exists lane_id,
               lid = Some lane_id
               /\ (lane_id ∉ intLane_ids j
                   \/ exists i, Py.index lane_id (intLane_ids j) = Some i
                                /\ forall r, r ∈ _requests j ->
                                             request_index r <> Z.of_nat i))
  end.
Proof.
  unfold get_request_by_int_lane. destruct lid as [lane_id|]; [|left; auto].
  destruct (Py.index lane_id (intLane_ids j)) as [i|] eqn:Hi.
  - unfold get_request_by_index.
    destruct (List.find _ (_requests j)) as [r|] eqn:Hf; simpl.
    + apply find_some in Hf as [Hin Hr]. apply Z.eqb_eq in Hr.
      apply index_Some in Hi as [Hi Hfirst].
      exists lane_id, i. split; [reflexivity|].
      split; [apply list_elem_of_In; exact Hin|]. auto.
    + right. split; [reflexivity|]. exists lane_id. split; [reflexivity|]. right.
      exists i. split; [first [reflexivity | exact Hi]|]. intros r Hr.
      apply list_elem_of_In in Hr. apply (find_none _ _ Hf) in Hr.
      apply Z.eqb_neq. exact Hr.
  - right. split; [reflexivity|]. exists lane_id. split; [reflexivity|]. left.
    apply index_None. exact Hi.
Qed.

(** ** Connections of a lane *)

Lemma filter_imap_elem (p : Connection -> bool) (g : nat -> nat)
    (cxns : list Connection) (n : nat) (c : Connection) :
  (n, c) ∈ List.filter (fun ic : nat * Connection => p ic.2)
                       (imap (fun i c => (g i, c)) cxns)
  <-> exists i, n = g i /\ cxns !! i = Some c /\ p c = true.
Proof.
  rewrite list_elem_of_In, filter_In, <- list_elem_of_In, elem_of_lookup_imap. simpl.
  split.
  - intros [[i [c' [[= -> ->] Hi]]] Hp]. exists i. auto.
  - intros [i [-> [Hi Hp]]]. split; [exists i, c; auto | exact Hp].
Qed.

Lemma filter_imap_sorted (p : Connection -> bool) (g : nat -> nat)
    (cxns : list Connection) :
  (forall a b, (a < b)%nat -> (g a < g b)%nat) ->
  StronglySorted lt (List.filter (fun ic : nat * Connection => p ic.2)
                                 (imap (fun i c => (g i, c)) cxns)).*1.
Proof.
  revert g. induction cxns as [|c cxns IH]; intros g Hg; [constructor|].
  cbn [imap List.filter]. simpl.
  assert (Htail : StronglySorted lt
            (List.filter (fun ic : nat * Connection => p ic.2)
                         (imap (fun i c => ((g ∘ S) i, c)) cxns)).*1).
  { apply IH. intros a b Hab. unfold compose. apply Hg. lia. }
  destruct (p c); simpl; [|exact Htail].
  constructor; [exact Htail|].
  apply Forall_forall. intros n Hn.
  apply list_elem_of_fmap in Hn as [[n' c'] [-> Hn]].
  apply (filter_imap_elem p (g ∘ S)) in Hn as [i [Hn _]]. simpl in Hn. subst n'.
  simpl. apply Hg. lia.
Qed.

(** X6: the connections that the net finds from (or to) a lane id are
    exactly the connections whose from-edge id (to-edge id), an underscore
    and from-lane index (to-lane index) spell the id, each once, in the
    order of the net's connection list. *)
Theorem connections_of_lane (cxns : list Connection) (lane_id : string) :
  (forall i c,
     (i, c) ∈ _get_connections_from_lane cxns lane_id
     <-> cxns !! i = Some c
         /\ from_edge_id c +:+ "_" +:+ Py.str (from_lane_index c) = lane_id)
  /\ (forall i c,
        (i, c) ∈ _get_connections_to_lane cxns lane_id
        <-> cxns !! i = Some c
            /\ to_edge_id c +:+ "_" +:+ Py.str (to_lane_index c) = lane_id)
  /\ StronglySorted lt (_get_connections_from_lane cxns lane_id).*1
  /\ StronglySorted lt (_get_connections_to_lane cxns lane_id).*1.
Proof.
  unfold _get_connections_from_lane, _get_connections_to_lane, connections_where.
  split; [|split; [|split]].
  - intros i c. rewrite (filter_imap_elem _ id). unfold leaves_lane. split.
    + intros [i' [-> [Hi Hp]]]. apply String.eqb_eq in Hp. auto.
    + intros [Hi Hp]. exists i. apply String.eqb_eq in Hp. auto.
  - intros i c. rewrite (filter_imap_elem _ id). unfold enters_lane. split.
    + intros [i' [-> [Hi Hp]]]. apply String.eqb_eq in Hp. auto.
    + intros [Hi Hp]. exists i. apply String.eqb_eq in Hp. auto.
  - apply (filter_imap_sorted _ id). auto.
  - apply (filter_imap_sorted _ id). auto.
Qed.

(** ** The shape of a connection *)

Lemma geom_coords_Raise (g : Geometry) (e : exn) :
  geom_coords g = Raise e -> e = NotImplementedError.
Proof. destruct g; simpl; congruence. Qed.

Lemma last_item_Raise {A} (l : list A) (e : exn) :
  Py.last_item l = Raise e -> e = IndexError.
Proof. unfold Py.last_item, or_raise. destruct (last l); congruence. Qed.

Lemma first_item_Raise {A} (l : list A) (e : exn) :
  first_item l = Raise e -> e = IndexError.
Proof. unfold first_item, or_raise. destruct (head l); congruence. Qed.

(** X7: a shape that _generate_shape returns is a polygon whose ring is
    closed (its last coordinate is its first) and has at least five
    coordinates: two corners on the right, two on the left, and the first
    again.  Otherwise, whatever shapely's offset lines are, it raises
    ReferenceError (a lane is missing), NotImplementedError (an offset line
    has no coordinate sequence) or IndexError (an offset line is empty). *)
Theorem generate_shape_closed_ring (net : Net) (c : Connection) :
  match _generate_shape net c with
  | Ok g =>
      exists ring, g = Polygon ring /\ (5 <= length ring)%nat /\ head ring = last ring
  | Raise err => err ∈ [ReferenceError; NotImplementedError; IndexError]
  end.
Proof.
  unfold _generate_shape.
  destruct (from_lane c ≫= Net_lane (edges net)) as [fl|]; [|repeat constructor].
  destruct (to_lane c ≫= Net_lane (edges net)) as [tl|]; [|repeat constructor].
  destruct (via_lane c ≫= Net_lane (edges net)) as [vl|]; [|repeat constructor].
  assert (Hni : NotImplementedError ∈ [ReferenceError; NotImplementedError; IndexError])
    by repeat constructor.
  assert (Hix : IndexError ∈ [ReferenceError; NotImplementedError; IndexError])
    by repeat constructor.
  cbv zeta.
  set (half := (width fl / 2)%float).
  destruct (geom_coords (parallel_offset (alignment fl) half left_side))
    as [fll|e] eqn:H; simpl; [clear H | apply geom_coords_Raise in H; subst e; auto].
  destruct (geom_coords (parallel_offset (alignment fl) half right_side))
    as [flr|e] eqn:H; simpl; [clear H | apply geom_coords_Raise in H; subst e; auto].
  destruct (geom_coords (parallel_offset (alignment tl) (width tl / 2)%float left_side))
    as [tll|e] eqn:H; simpl; [clear H | apply geom_coords_Raise in H; subst e; auto].
  destruct (geom_coords (parallel_offset (alignment tl) (width tl / 2)%float right_side))
    as [tlr|e] eqn:H; simpl; [clear H | apply geom_coords_Raise in H; subst e; auto].
  destruct (geom_coords (parallel_offset (alignment vl) half left_side))
    as [le|e] eqn:H; simpl; [clear H | apply geom_coords_Raise in H; subst e; auto].
  destruct (geom_coords (parallel_offset (alignment vl) half right_side))
    as [re|e] eqn:H; simpl; [clear H | apply geom_coords_Raise in H; subst e; auto].
  destruct (Py.last_item fll) as [a|e] eqn:H; simpl;
    [clear H | apply last_item_Raise in H; subst e; auto].
  destruct (first_item tll) as [b|e] eqn:H; simpl;
    [clear H | apply first_item_Raise in H; subst e; auto].
  destruct (first_item flr) as [c0|e] eqn:H; simpl;
    [clear H | apply first_item_Raise in H; subst e; auto].
  destruct (Py.last_item tlr) as [d|e] eqn:H; simpl;
    [clear H | apply last_item_Raise in H; subst e; auto].
  eexists. split; [reflexivity|]. split.
  - simpl. rewrite !length_app, length_rev, !length_app. simpl. lia.
  - simpl. rewrite app_assoc, app_comm_cons, last_snoc. reflexivity.
Qed.

(** ** The two marking styles *)

Lemma set_style_known (g : Settings) (st : string) (psl : option bool) :
  st ∈ [USA_STYLE; EUR_STYLE] ->
  set_style g (Some st) psl
  = Ok (mkSettings st (STRIPE_WIDTH_SCALE_FACTOR g) (default (PLOT_STOP_LINES g) psl)).
Proof.
  intros Hin. unfold set_style. rewrite (bool_decide_eq_true_2 _ Hin).
  destruct psl; reflexivity.
Qed.

Lemma same_but_center_refl (m : LaneMarking) : same_but_center m m.
Proof. unfold same_but_center. auto. Qed.

Lemma style_markings_alike (g g' : Settings) (net : Net) (self : Lane)
    (offset offset' : float -> float) (colour colour' : string) :
  STRIPE_WIDTH_SCALE_FACTOR g = STRIPE_WIDTH_SCALE_FACTOR g' ->
  match style_markings g net self offset colour,
        style_markings g' net self offset' colour' with
  | Ok a, Ok b => Forall2 same_but_center a b
  | Raise e, Raise e' => e = e'
  | _, _ => False
  end.
Proof.
  intros Hw. unfold style_markings. rewrite <- Hw.
  destruct (inverse_lane_index net self) as [inv|e]; simpl; [|reflexivity].
  destruct (inv =? 0)%Z; simpl.
  - constructor.
    + unfold same_but_center, LaneMarking_init. simpl.
      repeat split; try reflexivity. congruence.
    + apply Forall2_same_length_lookup_2; [reflexivity|].
      intros i x y Hx Hy. assert (x = y) as -> by congruence. apply same_but_center_refl.
  - destruct (or_raise (Lane_parentEdge net self) AttributeError) as [e|err]; simpl;
      [|reflexivity].
    destruct (Edge_get_lane e (lane_index self + 1)) as [adj|err]; simpl; [|reflexivity].
    apply Forall2_same_length_lookup_2; [reflexivity|].
    intros i x y Hx Hy. assert (x = y) as -> by congruence. apply same_but_center_refl.
Qed.

(** X8: under the "USA" and the "EUR" style, set from the same settings,
    _guess_lane_markings raises the same exception or returns as many
    markings, with the same purposes, line widths and dash patterns one by
    one; only a marking whose purpose is "center" can differ between the
    two (in its offset and its colour). *)
Theorem styles_differ_in_center_only (g : Settings) (psl : option bool)
    (net : Net) (self : Lane) :
  exists usa eur,
    set_style g (Some USA_STYLE) psl = Ok usa
    /\ set_style g (Some EUR_STYLE) psl = Ok eur
    /\ match _guess_lane_markings usa net self, _guess_lane_markings eur net self with
       | Ok a, Ok b => Forall2 same_but_center a b
       | Raise e, Raise e' => e = e'
       | _, _ => False
       end.
Proof.
  do 2 eexists.
  split; [apply set_style_known; repeat constructor|].
  split; [apply set_style_known; repeat constructor|].
  unfold _guess_lane_markings.
  destruct (or_raise (Lane_parentEdge net self) AttributeError) as [e|err]; simpl;
    [|reflexivity].
  destruct (String.eqb (function e) "internal"
            || Allowance_eq (allows self) "ship" || Allowance_eq (allows self) "rail");
    [constructor|].
  destruct (String.eqb (function e) "crossing").
  { constructor; [apply same_but_center_refl | constructor]. }
  change (String.eqb USA_STYLE USA_STYLE) with true.
  change (String.eqb EUR_STYLE USA_STYLE) with false.
  change (String.eqb EUR_STYLE EUR_STYLE) with true. cbv iota.
  pose proof (style_markings_alike
    (mkSettings USA_STYLE (STRIPE_WIDTH_SCALE_FACTOR g) (default (PLOT_STOP_LINES g) psl))
    (mkSettings EUR_STYLE (STRIPE_WIDTH_SCALE_FACTOR g) (default (PLOT_STOP_LINES g) psl))
    net self (fun lw => (width self / 2 - lw)%float) (fun _ => (width self / 2)%float)
    "y" "w" eq_refl) as Halike.
  destruct (style_markings _ net self (fun lw => (width self / 2 - lw)%float) "y")
    as [a|err];
    destruct (style_markings _ net self (fun _ => (width self / 2)%float) "w")
      as [b|err']; simpl; try contradiction; [|exact Halike].
  match goal with
  | |- context [mbind _ ?m] => destruct m as [stop_lines|err]; simpl; [|reflexivity]
  end.
  apply Forall2_app; [exact Halike|].
  apply Forall2_same_length_lookup_2; [reflexivity|].
  intros i x y Hx Hy. assert (x = y) as -> by congruence. apply same_but_center_refl.
Qed.

(** ** Drawing a trajectory *)

Lemma plot_loop_segments (t : Trajectory) (start_time end_time : float) (n i : nat) :
  Forall (fun sg => exists k, (i <= k < i + n)%nat
                              /\ drawn_from t start_time end_time k sg)
         (plot_loop t start_time end_time i n).1
  /\ ((plot_loop t start_time end_time i n).2 = None
      \/ (plot_loop t start_time end_time i n).2 = Some IndexError).
Proof.
  revert i. induction n as [|n IH]; intros i; simpl; [split; [constructor | auto]|].
  destruct (traj_time t !! i) as [ti|] eqn:Hi; simpl; [|split; [constructor | auto]].
  assert (Hrest : forall segs,
            Forall (fun sg => exists k, (S i <= k < S i + n)%nat
                                        /\ drawn_from t start_time end_time k sg) segs ->
            Forall (fun sg => exists k, (i <= k < i + S n)%nat
                                        /\ drawn_from t start_time end_time k sg) segs).
  { intros segs Hsegs. eapply Forall_impl; [exact Hsegs|].
    intros sg [k [Hk Hsg]]. exists k. split; [lia|exact Hsg]. }
  destruct (IH (S i)) as [IHsegs IHerr].
  destruct (ti <? start_time)%float eqn:Hstart; [split; [apply Hrest|]; assumption|].
  destruct (traj_time t !! S i) as [ti1|] eqn:Hi1; simpl; [|split; [constructor | auto]].
  destruct (end_time <? ti1)%float eqn:Hend; [split; [constructor | auto]|].
  destruct (traj_colors t !! i) as [c|] eqn:Hc; simpl; [|split; [constructor | auto]].
  split; [|exact IHerr]. constructor; [|apply Hrest; exact IHsegs].
  exists i. split; [lia|]. exists ti, ti1, c. auto 10.
Qed.

Lemma plot_loop_returns (t : Trajectory) (start_time end_time : float) (n i : nat) :
  (i + n < length (traj_time t))%nat -> (i + n <= length (traj_colors t))%nat ->
  (plot_loop t start_time end_time i n).2 = None.
Proof.
  revert i. induction n as [|n IH]; intros i Htime Hcolors; simpl; [reflexivity|].
  destruct (lookup_lt_is_Some_2 (traj_time t) i) as [ti ->]; [lia|].
  destruct (lookup_lt_is_Some_2 (traj_time t) (S i)) as [ti1 ->]; [lia|].
  destruct (lookup_lt_is_Some_2 (traj_colors t) i) as [c ->]; [lia|].
  destruct (ti <? start_time)%float; [apply IH; lia|].
  destruct (end_time <? ti1)%float; [reflexivity|]. simpl. apply IH; lia.
Qed.

Lemma plot_segments (t : Trajectory) (start_time end_time : float) :
  Forall (fun sg => exists k, (k + 2 < length (traj_x t))%nat
                              /\ drawn_from t start_time end_time k sg)
         (Trajectory_plot t start_time end_time).1
  /\ ((Trajectory_plot t start_time end_time).2 = None
      \/ (Trajectory_plot t start_time end_time).2 = Some IndexError).
Proof.
  unfold Trajectory_plot. destruct (Nat.ltb_spec (length (traj_x t)) 2) as [Hlt|Hge].
  - split; [constructor | auto].
  - destruct (plot_loop_segments t start_time end_time (length (traj_x t) - 2) 0)
      as [Hsegs Herr].
    split; [|exact Herr]. eapply Forall_impl; [exact Hsegs|].
    intros sg [k [Hk Hsg]]. exists k. split; [lia|exact Hsg].
Qed.

Lemma plot_returns (t : Trajectory) (start_time end_time : float) :
  length (traj_time t) = length (traj_x t) ->
  length (traj_colors t) = length (traj_x t) ->
  (Trajectory_plot t start_time end_time).2 = None.
Proof.
  intros Htime Hcolors. unfold Trajectory_plot.
  destruct (Nat.ltb_spec (length (traj_x t)) 2) as [Hlt|Hge]; [reflexivity|].
  apply plot_loop_returns; lia.
Qed.

(** X9: in every run of Trajectory.plot, also one that an exception ends,
    every segment drawn starts at a point k with k + 2 below the number of
    points, whose time is not before start_time and whose successor's time
    is not after end_time, and is drawn in the colour of point k.  So the
    segment between the last two points is never drawn, and a trajectory
    of two points draws nothing.  The only exception of its own that ends
    a run is IndexError. *)
Theorem plot_leaves_last_segment (t : Trajectory) (start_time end_time : float) :
  Forall (fun sg => exists k, (k + 2 < length (traj_x t))%nat
                              /\ drawn_from t start_time end_time k sg)
         (Trajectory_plot t start_time end_time).1
  /\ ((Trajectory_plot t start_time end_time).2 = None
      \/ (Trajectory_plot t start_time end_time).2 = Some IndexError)
  /\ ((length (traj_x t) <= 2)%nat -> Trajectory_plot t start_time end_time = ([], None)).
Proof.
  destruct (plot_segments t start_time end_time) as [Hsegs Herr].
  split; [exact Hsegs|]. split; [exact Herr|].
  intros Hlen. unfold Trajectory_plot.
  destruct (Nat.ltb_spec (length (traj_x t)) 2) as [Hlt|Hge]; [reflexivity|].
  replace (length (traj_x t) - 2)%nat with 0%nat by lia. reflexivity.
Qed.

(** X10: after assign_colors_constant, a trajectory that has a time for
    each point is drawn without an exception, every segment in the given
    colour. *)
Theorem constant_colors_plot (t : Trajectory) (color : Color)
    (start_time end_time : float) :
  length (traj_time t) = length (traj_x t) ->
  exists segs,
    Trajectory_plot (assign_colors_constant t color) start_time end_time = (segs, None)
    /\ Forall (fun sg => segment_c sg = color) segs
    /\ length (traj_colors (assign_colors_constant t color)) = length (traj_x t).
Proof.
  intros Htime. set (t' := assign_colors_constant t color).
  assert (Hlen : length (traj_colors t') = length (traj_x t))
    by (simpl; apply length_map).
  pose proof (plot_returns t' start_time end_time Htime Hlen) as Hnone.
  destruct (plot_segments t' start_time end_time) as [Hdrawn _].
  destruct (Trajectory_plot t' start_time end_time) as [segs err]. simpl in *. subst err.
  exists segs. split; [reflexivity|]. split; [|exact Hlen].
  eapply Forall_impl; [exact Hdrawn|].
  intros sg [k [_ [tk [tk1 [c [_ [_ [Hc [_ [_ ->]]]]]]]]]]. simpl in *.
  apply list_lookup_fmap_Some in Hc as [x [-> _]]. reflexivity.
Qed.

(** ** Looking a trajectory up *)

(** X11: indexing a Trajectories object with a string returns the first
    trajectory with that id and raises IndexError when there is none; with
    an integer it raises AttributeError whatever the integer and the
    trajectories are; with any other value it raises TypeError. *)
Theorem getitem_result (ts : list Trajectory) (key : Key) :
  match Trajectories_getitem ts key with
  | Ok t =>
      exists before after,
        ts = (before ++ t :: after)%list /\ key = KeyStr (traj_id t)
        /\ forall t', t' ∈ before -> traj_id t' <> traj_id t
  | Raise e =>
      match key with
      | KeyStr s => e = IndexError /\ forall t, t ∈ ts -> traj_id t <> s
      | KeyInt _ => e = AttributeError
      | KeyOther => e = TypeError
      end
  end.
Proof.
  destruct key as [s| |]; simpl; [|reflexivity..].
  induction ts as [|t ts IH]; simpl.
  - split; [reflexivity|]. intros t Ht. inversion Ht.
  - destruct (String.eqb_spec (traj_id t) s) as [<-|Hne]; simpl.
    + exists [], ts. split; [reflexivity|]. split; [reflexivity|].
      intros t' Ht'. inversion Ht'.
    + destruct (List.find _ ts) as [t0|]; simpl in *.
      * destruct IH as [before [after [-> [[= <-] Hfirst]]]].
        exists (t :: before), after. split; [reflexivity|]. split; [reflexivity|].
        intros t' Ht'. apply elem_of_cons in Ht' as [->|Ht']; auto.
      * destruct IH as [_ IH]. split; [reflexivity|].
        intros t' Ht'. apply elem_of_cons in Ht' as [->|Ht']; auto.
Qed.

(** ** Reading trajectories *)

Lemma dict_get_elem {V} (d : list (string * V)) (k : string) (v : V) :
  dict_get d k = Some v -> (k, v) ∈ d.
Proof.
  induction d as [|[k' v'] d IH]; simpl; [discriminate|].
  destruct (String.eqb_spec k' k) as [->|Hne].
  - intros [= ->]. constructor.
  - intros H. constructor. auto.
Qed.

Lemma dict_get_fresh {V} (d : list (string * V)) (k : string) :
  dict_get d k = None -> k ∉ d.*1.
Proof.
  induction d as [|[k' v'] d IH]; simpl.
  - intros _ H. inversion H.
  - destruct (String.eqb_spec k' k) as [->|Hne]; [discriminate|].
    intros H. rewrite not_elem_of_cons. split; [congruence | auto].
Qed.

Lemma dict_get_set {V} (d : list (string * V)) (k : string) (v : V) :
  dict_get (dict_set d k v) k = Some v.
Proof.
  induction d as [|[k' v'] d IH]; simpl.
  - rewrite String.eqb_refl. reflexivity.
  - destruct (String.eqb_spec k' k) as [->|Hne]; simpl.
    + rewrite String.eqb_refl. reflexivity.
    + destruct (String.eqb_spec k' k); [contradiction | exact IH].
Qed.

Lemma dict_set_keys {V} (d : list (string * V)) (k : string) (v : V) :
  (dict_set d k v).*1
  = match dict_get d k with Some _ => d.*1 | None => (d.*1 ++ [k])%list end.
Proof.
  induction d as [|[k' v'] d IH]; [reflexivity|]. cbn [dict_set dict_get].
  destruct (String.eqb_spec k' k) as [->|Hne]; rewrite !fmap_cons; cbn [fst];
    [reflexivity|].
  rewrite IH. destruct (dict_get d k); reflexivity.
Qed.

Lemma dict_set_elem {V} (d : list (string * V)) (k k' : string) (v v' : V) :
  NoDup d.*1 -> (k', v') ∈ dict_set d k v ->
  (k' = k /\ v' = v) \/ (k' <> k /\ (k', v') ∈ d).
Proof.
  induction d as [|[k0 v0] d IH]; simpl; intros Hnd H.
  - apply list_elem_of_singleton in H as [= -> ->]. auto.
  - apply NoDup_cons in Hnd as [Hk0 Hnd].
    destruct (String.eqb_spec k0 k) as [->|Hne].
    + apply elem_of_cons in H as [[= -> ->]|H]; [auto|]. right. split.
      * intros ->. apply Hk0. apply list_elem_of_fmap. exists (k, v'). auto.
      * constructor. exact H.
    + apply elem_of_cons in H as [[= -> ->]|H].
      * right. split; [exact Hne | constructor].
      * destruct (IH Hnd H) as [?|[? ?]]; [auto|]. right. split; [auto|].
        constructor. assumption.
Qed.

Lemma lanes_of_snoc (k : string) (vs : list Element) (veh : Element) :
  lanes_of k (vs ++ [veh])
  = (lanes_of k vs
     ++ (if has_id k veh then [attrib_get (attrib_of veh) "lane"] else []))%list.
Proof.
  unfold lanes_of. rewrite List.filter_app, fmap_app. simpl.
  destruct (has_id k veh); reflexivity.
Qed.

Lemma lanes_of_fresh (k : string) (vs : list Element) (keys : list string) :
  (forall veh, veh ∈ vs ->
     exists k', attrib_get (attrib_of veh) "id" = Some k' /\ k' ∈ keys) ->
  k ∉ keys -> lanes_of k vs = [].
Proof.
  intros Hvs Hk. unfold lanes_of.
  induction vs as [|veh vs IH]; simpl; [reflexivity|].
  destruct (Hvs veh) as [k' [Hid Hk']]; [constructor|].
  unfold has_id at 1. rewrite Hid.
  destruct (bool_decide_reflect (Some k' = Some k)) as [[= ->]|_]; [contradiction|].
  apply IH. intros v Hv. apply Hvs. constructor. exact Hv.
Qed.

Lemma append_point_aligned (t : Trajectory) (time x y : float)
    (speed angle : option float) (lane : option string) (c : Color) :
  aligned t -> aligned (append_point t time x y speed angle lane c).
Proof. unfold aligned. simpl. rewrite !length_app. simpl. lia. Qed.

(** Appending the point of [veh] to the trajectory of its id, which the
    dictionary holds, maybe still without a point. *)
Lemma fcd_read_append (d : list (string * Trajectory)) (vs : list Element)
    (veh : Element) (vehID lane : string) (t : Trajectory) (time x y : float)
    (speed angle : option float) (c : Color) :
  NoDup d.*1 ->
  (forall k t', (k, t') ∈ d ->
     traj_id t' = k /\ aligned t' /\ traj_lane t' = lanes_of k vs
     /\ (k <> vehID -> traj_lane t' <> [])) ->
  (forall v, v ∈ vs -> exists k, attrib_get (attrib_of v) "id" = Some k /\ k ∈ d.*1) ->
  attrib_get (attrib_of veh) "id" = Some vehID ->
  attrib_get (attrib_of veh) "lane" = Some lane ->
  dict_get d vehID = Some t ->
  fcd_read (dict_set d vehID (append_point t time x y speed angle (Some lane) c))
           (vs ++ [veh]).
Proof.
  intros Hnd Hentries Hvs Hid Hlane Ht.
  assert (Hkeys : (dict_set d vehID
                     (append_point t time x y speed angle (Some lane) c)).*1 = d.*1)
    by (rewrite dict_set_keys, Ht; reflexivity).
  unfold fcd_read. rewrite Hkeys. split; [exact Hnd|]. split.
  - intros k t' Hin. rewrite lanes_of_snoc. unfold has_id. rewrite Hid.
    apply (dict_set_elem _ _ _ _ _ Hnd) in Hin as [[-> ->]|[Hne Hin]].
    + destruct (Hentries vehID t (dict_get_elem _ _ _ Ht)) as [Htid [Hal [Hl _]]].
      rewrite bool_decide_eq_true_2 by reflexivity.
      split; [exact Htid|]. split; [apply append_point_aligned; exact Hal|].
      simpl. rewrite Hl, Hlane. split; [reflexivity|].
      intros Hnil. apply app_eq_nil in Hnil as [_ [=]].
    + destruct (Hentries k t' Hin) as [Htid [Hal [Hl Hne']]].
      rewrite bool_decide_eq_false_2 by congruence. rewrite app_nil_r. auto.
  - intros v Hv. apply elem_of_app in Hv as [Hv|Hv]; [auto|].
    apply list_elem_of_singleton in Hv as ->. exists vehID. split; [exact Hid|].
    apply list_elem_of_fmap. exists (vehID, t). split; [reflexivity|].
    apply dict_get_elem. exact Ht.
Qed.

Lemma read_vehicle_step (timestep : Element) (d d' : list (string * Trajectory))
    (vs : list Element) (veh : Element) :
  fcd_read d vs -> read_vehicle timestep d veh = Ok d' ->
  fcd_read d' (vs ++ List.filter (fun v => is_tag v "vehicle") [veh]).
Proof.
  intros Hd H. unfold read_vehicle, attrib_item in H.
  apply bind_Ok in H as [tm [_ H]]. apply bind_Ok in H as [time [_ H]].
  simpl. destruct (is_tag veh "vehicle").
  2: { injection H as <-. rewrite app_nil_r. exact Hd. }
  apply bind_Ok in H as [vehID [Hid H]]. apply or_raise_Ok in Hid. cbv zeta in H.
  apply bind_Ok in H as [xs [_ H]]. apply bind_Ok in H as [x [_ H]].
  apply bind_Ok in H as [ys [_ H]]. apply bind_Ok in H as [y [_ H]].
  apply bind_Ok in H as [lane [Hlane H]]. apply or_raise_Ok in Hlane.
  apply bind_Ok in H as [ss [_ H]]. apply bind_Ok in H as [speed [_ H]].
  apply bind_Ok in H as [as_ [_ H]]. apply bind_Ok in H as [angle [_ H]].
  apply bind_Ok in H as [t [Ht H]]. apply or_raise_Ok in Ht. injection H as <-.
  destruct Hd as [Hnd [Hentries Hvs]].
  destruct (dict_get d vehID) as [t0|] eqn:Hget.
  - apply fcd_read_append; try assumption.
    intros k t' Hin. destruct (Hentries k t' Hin) as [? [? [? ?]]]. auto.
  - pose proof (dict_get_fresh _ _ Hget) as Hfresh.
    assert (Hkeys : (dict_set d vehID
                       (Trajectory_init vehID None None None None None None None)).*1
                    = (d.*1 ++ [vehID])%list)
      by (rewrite dict_set_keys, Hget; reflexivity).
    apply fcd_read_append; try assumption.
    + rewrite Hkeys. apply NoDup_app. split; [exact Hnd|]. split.
      * intros k Hk Hk'. apply list_elem_of_singleton in Hk' as ->. contradiction.
      * apply NoDup_singleton.
    + intros k t' Hin.
      apply (dict_set_elem _ _ _ _ _ Hnd) in Hin as [[-> ->]|[Hne Hin]].
      * split; [reflexivity|]. split; [repeat split|].
        split; [|intros Hne; contradiction]. simpl. symmetry.
        apply (lanes_of_fresh vehID vs d.*1); assumption.
      * destruct (Hentries k t' Hin) as [? [? [? ?]]]. auto.
    + intros v Hv. destruct (Hvs v Hv) as [k [Hk Hin]]. exists k. split; [exact Hk|].
      rewrite Hkeys. apply elem_of_app. auto.
Qed.

Lemma read_children (timestep : Element) (children : list Element) :
  forall (d d' : list (string * Trajectory)) (vs : list Element),
    fcd_read d vs -> foldM (read_vehicle timestep) d children = Ok d' ->
    fcd_read d' (vs ++ List.filter (fun v => is_tag v "vehicle") children).
Proof.
  induction children as [|veh children IH]; intros d d' vs Hd H.
  - injection H as <-. simpl. rewrite app_nil_r. exact Hd.
  - simpl in H. apply bind_Ok in H as [d1 [H1 H]].
    pose proof (IH _ _ _ (read_vehicle_step _ _ _ _ _ Hd H1) H) as Hd'.
    rewrite <- app_assoc in Hd'.
    replace (List.filter (fun v => is_tag v "vehicle") (veh :: children))
      with (List.filter (fun v => is_tag v "vehicle") [veh]
            ++ List.filter (fun v => is_tag v "vehicle") children)%list;
      [exact Hd'|].
    simpl. destruct (is_tag veh "vehicle"); reflexivity.
Qed.

Lemma read_steps (root : list Element) :
  forall (d d' : list (string * Trajectory)) (vs : list Element),
    fcd_read d vs ->
    foldM (fun trajectories timestep =>
             foldM (read_vehicle timestep) trajectories (children_of timestep))
          d root = Ok d' ->
    fcd_read d' (vs ++ vehicles root).
Proof.
  induction root as [|timestep root IH]; intros d d' vs Hd H.
  - injection H as <-. simpl. rewrite app_nil_r. exact Hd.
  - simpl in H. apply bind_Ok in H as [d1 [H1 H]].
    pose proof (IH _ _ _ (read_children _ _ _ _ _ Hd H1) H) as Hd'.
    rewrite <- app_assoc in Hd'. exact Hd'.
Qed.

Lemma read_timesteps_read (root : list Element) (d : list (string * Trajectory)) :
  read_timesteps root = Ok d -> fcd_read d (vehicles root).
Proof.
  intros H. apply (read_steps root [] d []); [|exact H].
  split; [constructor|]. split.
  - intros k t Hin. inversion Hin.
  - intros veh Hin. inversion Hin.
Qed.

Lemma fold_append (new ts : list Trajectory) :
  fold_left Trajectories_append new ts = (ts ++ new)%list.
Proof.
  revert ts. induction new as [|t new IH]; intros ts; simpl.
  - rewrite app_nil_r. reflexivity.
  - rewrite IH. unfold Trajectories_append. rewrite <- app_assoc. reflexivity.
Qed.

Lemma fcd_read_ids (d : list (string * Trajectory)) (vs : list Element) :
  fcd_read d vs -> traj_id <$> d.*2 = d.*1.
Proof.
  intros [_ [Hentries _]]. induction d as [|[k t] d IH]; [reflexivity|].
  rewrite !fmap_cons. simpl. f_equal.
  - apply (Hentries k t). constructor.
  - apply IH. intros k' t' Hin. apply Hentries. constructor. exact Hin.
Qed.

(** X12: read_from_fcd appends one trajectory for each vehicle id of the
    file, none twice.  Every list of such a trajectory has one entry per
    point, and its lanes are the lane attributes of the vehicle elements
    with its id, in document order; elements that are no vehicles add no
    point. *)
Theorem read_from_fcd_trajectories (ts0 ts : list Trajectory) (root : list Element) :
  read_from_fcd ts0 root = Ok ts ->
  exists new,
    ts = (ts0 ++ new)%list
    /\ Forall aligned new
    /\ NoDup (traj_id <$> new)
    /\ (forall t, t ∈ new ->
          traj_lane t <> []
          /\ traj_lane t = lanes_of (traj_id t) (vehicles root))
    /\ (forall veh, veh ∈ vehicles root ->
          exists t, t ∈ new /\ attrib_get (attrib_of veh) "id" = Some (traj_id t)).
Proof.
  unfold read_from_fcd. intros H. apply bind_Ok in H as [d [Hd H]].
  injection H as <-. apply read_timesteps_read in Hd.
  pose proof (fcd_read_ids _ _ Hd) as Hids. destruct Hd as [Hnd [Hentries Hvs]].
  assert (Hin : forall t, t ∈ d.*2 -> (traj_id t, t) ∈ d).
  { intros t Ht. apply list_elem_of_fmap in Ht as [[k t'] [-> Ht]]. simpl.
    destruct (Hentries k t' Ht) as [-> _]. exact Ht. }
  exists d.*2. split; [apply fold_append|]. split; [|split; [|split]].
  - apply Forall_forall. intros t Ht. apply (Hentries _ _ (Hin t Ht)).
  - rewrite Hids. exact Hnd.
  - intros t Ht. destruct (Hentries _ _ (Hin t Ht)) as [_ [_ [Hl Hne]]]. auto.
  - intros veh Hveh. destruct (Hvs veh Hveh) as [k [Hid Hk]].
    apply list_elem_of_fmap in Hk as [[k' t] [-> Hk]]. simpl in Hid.
    exists t. split; [apply list_elem_of_fmap; exists (k', t); auto|].
    destruct (Hentries k' t Hk) as [-> _]. exact Hid.
Qed.

Lemma bind_Raise {A B} (m : result A) (f : A -> result B) (e : exn) :
  m ≫= f = Raise e -> m = Raise e \/ exists a, m = Ok a /\ f a = Raise e.
Proof. destruct m as [a|e']; simpl; [eauto | intros [= ->]; auto]. Qed.

Lemma foldM_Raise {A S} (body : S -> A -> result S) (P : exn -> Prop) (l : list A) :
  (forall s x e, body s x = Raise e -> P e) ->
  forall s e, foldM body s l = Raise e -> P e.
Proof.
  intros Hbody. induction l as [|x l IH]; intros s e H; simpl in H; [discriminate|].
  apply bind_Raise in H as [H|[s' [_ H]]]; eauto.
Qed.

Lemma read_vehicle_Raise (timestep : Element) (d : list (string * Trajectory))
    (veh : Element) (e : exn) :
  read_vehicle timestep d veh = Raise e -> e = KeyError \/ e = ValueError.
Proof.
  unfold read_vehicle, attrib_item. cbv zeta. intros H.
  repeat match type of H with
  | or_raise ?o _ ≫= _ = Raise _ =>
      destruct o; simpl in H; [|injection H as <-; auto]
  | (if ?b then _ else _) = Raise _ => destruct b; [|discriminate]
  end.
  discriminate.
Qed.

Lemma find_by_id (ts : list Trajectory) (t : Trajectory) :
  NoDup (traj_id <$> ts) -> t ∈ ts ->
  List.find (fun t' => String.eqb (traj_id t') (traj_id t)) ts = Some t.
Proof.
  induction ts as [|t0 ts IH]; intros Hnd Hin; [inversion Hin|].
  rewrite fmap_cons in Hnd. apply NoDup_cons in Hnd as [Hfresh Hnd]. simpl.
  apply elem_of_cons in Hin as [->|Hin]; [rewrite String.eqb_refl; reflexivity|].
  destruct (String.eqb_spec (traj_id t0) (traj_id t)) as [Heq|_]; [|auto].
  exfalso. apply Hfresh. rewrite Heq. apply list_elem_of_fmap. exists t. auto.
Qed.

(** X13: in the Trajectories object that is built from a file, indexing
    with the id of any of its trajectories returns that trajectory.
    Without a file the object is empty.  The construction raises
    NotImplementedError for a file name that does not end in
    "fcd-output.xml", and for the elements of an fcd file only KeyError (a
    missing attribute) or ValueError (an attribute that is no number). *)
Theorem init_then_getitem (file : option string) (root : list Element) :
  match Trajectories_init file root with
  | Ok ts =>
      (file = None -> ts = [])
      /\ forall t, t ∈ ts -> Trajectories_getitem ts (KeyStr (traj_id t)) = Ok t
  | Raise e =>
      exists name,
        file = Some name
        /\ if ends_with name "fcd-output.xml" then e = KeyError \/ e = ValueError
           else e = NotImplementedError
  end.
Proof.
  destruct file as [name|]; simpl.
  2: { split; [reflexivity|]. intros t Ht. inversion Ht. }
  destruct (ends_with name "fcd-output.xml") eqn:Hname.
  2: { exists name. rewrite Hname. auto. }
  unfold read_from_fcd. destruct (read_timesteps root) as [d|e] eqn:Hd; simpl.
  - split; [discriminate|]. rewrite fold_append. simpl.
    apply read_timesteps_read in Hd. pose proof (fcd_read_ids _ _ Hd) as Hids.
    destruct Hd as [Hnd _]. intros t Ht.
    rewrite (find_by_id d.*2 t); [reflexivity | rewrite Hids; exact Hnd | exact Ht].
  - exists name. rewrite Hname. split; [reflexivity|].
    unfold read_timesteps in Hd.
    eapply (foldM_Raise _ (fun e => e = KeyError \/ e = ValueError)); [|exact Hd].
    intros d timestep e' Hstep.
    eapply (foldM_Raise _ (fun e => e = KeyError \/ e = ValueError)); [|exact Hstep].
    intros d' veh e''. apply read_vehicle_Raise.
Qed.

(** ** The net after its construction *)

Lemma lane_unlinked_fixed (l : Lane) :
  lane_unlinked l = l
  <-> incoming_connections l = [] /\ outgoing_connections l = [] /\ requests l = [].
Proof.
  split.
  - intros H. rewrite <- H. simpl. auto.
  - intros [H1 [H2 H3]]. destruct l. simpl in *. subst. reflexivity.
Qed.

Lemma junction_unlinked_fixed (j : Junction) :
  junction_unlinked j = j <-> incLanes j = [] /\ intLanes j = [].
Proof.
  split.
  - intros H. rewrite <- H. simpl. auto.
  - intros [H1 H2]. destruct j. simpl in *. subst. reflexivity.
Qed.

Lemma build_lane_loaded (edgeChild : Element) (l : Lane) :
  build_lane edgeChild = Ok l ->
  parentEdge l = None /\ lane_unlinked l = l
  /\ lane_shape l = buffer_flat (alignment l) (width l / 2)%float.
Proof.
  unfold build_lane. intros H. apply bind_Ok in H as [l0 [H0 H]].
  eapply (foldM_invariant _
            (fun l => parentEdge l = None /\ lane_unlinked l = l
                      /\ lane_shape l = buffer_flat (alignment l) (width l / 2)%float));
    [| |exact H].
  - intros l1 x l2 _ Hl Hx. cbv beta in Hx. destruct (is_tag x "stopOffset").
    + unfold Lane_append_stop_offset in Hx. apply bind_Ok in Hx as [so [_ [= <-]]].
      destruct Hl as [Hp [Hu Hs]]. simpl. split; [exact Hp|]. split; [|exact Hs].
      apply lane_unlinked_fixed. apply lane_unlinked_fixed in Hu. exact Hu.
    + injection Hx as <-. exact Hl.
  - unfold Lane_init, attrib_item in H0. cbv zeta in H0.
    repeat (apply bind_Ok in H0 as [? [_ H0]]). injection H0 as <-. auto.
Qed.

Lemma build_edge_loaded (obj : Element) (e : Edge) :
  build_edge obj = Ok e ->
  from_junction e = None /\ to_junction e = None
  /\ Forall (lane_loaded (edge_id e)) (lanes e).
Proof.
  unfold build_edge. intros H. apply bind_Ok in H as [e0 [H0 H]].
  eapply (foldM_invariant _
            (fun e => from_junction e = None /\ to_junction e = None
                      /\ Forall (lane_loaded (edge_id e)) (lanes e)));
    [| |exact H].
  - intros e1 x e2 _ He Hx. cbv beta in Hx. destruct (is_tag x "stopOffset").
    + unfold Edge_append_stop_offset in Hx. apply bind_Ok in Hx as [so [_ [= <-]]].
      exact He.
    + destruct (is_tag x "lane"); [|injection Hx as <-; exact He].
      apply bind_Ok in Hx as [l [Hl [= <-]]]. destruct He as [Hf [Ht Hls]].
      split; [exact Hf|]. split; [exact Ht|]. simpl.
      apply Forall_app. split; [exact Hls|]. constructor; [|constructor].
      apply build_lane_loaded in Hl as [_ [Hu Hs]].
      split; [reflexivity|]. split; [|exact Hs].
      apply lane_unlinked_fixed. apply lane_unlinked_fixed in Hu. exact Hu.
  - unfold Edge_init in H0. apply bind_Ok in H0 as [id [_ [= <-]]]. simpl.
    split; [reflexivity|]. split; [reflexivity|constructor].
Qed.

Lemma build_junction_loaded (obj : Element) (j : Junction) :
  build_junction obj = Ok j ->
  junction_unlinked j = j
  /\ Forall (fun r => parentJunction r = Some (junction_id j)) (_requests j).
Proof.
  unfold build_junction. intros H. apply bind_Ok in H as [j0 [H0 H]].
  eapply (foldM_invariant _
            (fun j => junction_unlinked j = j
                      /\ Forall (fun r => parentJunction r = Some (junction_id j))
                                (_requests j)));
    [| |exact H].
  - intros j1 x j2 _ Hj Hx. cbv beta in Hx.
    destruct (is_tag x "request"); [|injection Hx as <-; exact Hj].
    apply bind_Ok in Hx as [r [_ [= <-]]]. destruct Hj as [Hu Hrs]. split.
    + apply junction_unlinked_fixed. apply junction_unlinked_fixed in Hu. exact Hu.
    + simpl. apply Forall_app. split; [exact Hrs|]. constructor; [reflexivity|constructor].
  - unfold Junction_init, attrib_item in H0.
    repeat (apply bind_Ok in H0 as [? [_ H0]]). injection H0 as <-.
    split; [reflexivity|constructor].
Qed.

Lemma Connection_init_unlinked (attrib : attribs) (c : Connection) :
  Connection_init attrib = Ok c -> connection_unlinked c = c.
Proof.
  unfold Connection_init, attrib_item. cbv zeta. intros H.
  repeat (apply bind_Ok in H as [? [_ H]]). injection H as <-. reflexivity.
Qed.

Lemma load_objects_loaded (root : list Element) (net : Net) :
  load_objects root = Ok net -> net_loaded net.
Proof.
  unfold load_objects. apply (foldM_invariant add_object net_loaded).
  - intros n obj n' _ Hn H. unfold add_object in H.
    pose proof Hn as [Hes [Hnd [Hjs Hcs]]].
    destruct (is_tag obj "edge").
    { destruct (bool_decide (attrib_get (attrib_of obj) "function" = Some "walkingarea"));
        [injection H as <-; exact Hn|].
      apply bind_Ok in H as [edge [Hb [= <-]]].
      split; [|exact (conj Hnd (conj Hjs Hcs))]. simpl. intros k e. rewrite lookup_insert.
      destruct (decide (edge_id edge = k)) as [<-|Hne]; [|apply Hes].
      intros [= <-]. split; [reflexivity|]. exact (build_edge_loaded _ _ Hb). }
    destruct (is_tag obj "junction").
    { apply bind_Ok in H as [j [Hb [= <-]]]. apply build_junction_loaded in Hb.
      split; [exact Hes|]. simpl. split; [|split; [|exact Hcs]].
      - rewrite dict_set_keys. destruct (dict_get (junctions n) (junction_id j)) eqn:Hget;
          [exact Hnd|].
        apply NoDup_app. split; [exact Hnd|]. split; [|apply NoDup_singleton].
        intros k Hk Hk'. apply list_elem_of_singleton in Hk' as ->.
        apply (dict_get_fresh _ _ Hget). exact Hk.
      - intros k j' Hin.
        apply (dict_set_elem _ _ _ _ _ Hnd) in Hin as [[-> ->]|[_ Hin]]; [|auto].
        split; [reflexivity|exact Hb]. }
    destruct (is_tag obj "connection").
    { apply bind_Ok in H as [c [Hc [= <-]]]. apply Connection_init_unlinked in Hc.
      split; [exact Hes|]. split; [exact Hnd|]. split; [exact Hjs|]. simpl.
      apply Forall_app. split; [exact Hcs|]. constructor; [exact Hc|constructor]. }
    injection H as <-. exact Hn.
  - split; [|split; [constructor|split; [|constructor]]].
    + intros k e Hk. simpl in Hk. rewrite lookup_empty in Hk. discriminate.
    + intros k j Hin. inversion Hin.
Qed.

Lemma Net_init_parts (root : list Element) (net : Net) :
  Net_init root = Ok net ->
  exists net0,
    net_loaded net0
    /\ link_junctions (connections net0) (link_edge (junctions net0) <$> edges net0)
                      (junctions net0) = Ok (junctions net, edges net)
    /\ mapM (link_connection (edges net)) (connections net0) = Ok (connections net).
Proof.
  unfold Net_init, _link_objects. intros H. apply bind_Ok in H as [net0 [H0 H]].
  cbv zeta in H. apply bind_Ok in H as [[js es] [Hjs H]].
  apply bind_Ok in H as [cxns [Hcxns [= <-]]]. simpl in *.
  exists net0. split; [apply (load_objects_loaded root); exact H0|]. auto.
Qed.

(** An edge of the linked net is the edge read under its key, with its
    junctions set and links added to its lanes. *)
Lemma linked_edge (net0 : Net) (js : list (string * Junction)) (es : gmap string Edge)
    (k : string) (e : Edge) :
  link_junctions (connections net0) (link_edge (junctions net0) <$> edges net0)
                 (junctions net0) = Ok (js, es) ->
  es !! k = Some e ->
  exists e0,
    edges net0 !! k = Some e0
    /\ edge_id e = edge_id e0 /\ function e = function e0
    /\ from_junction_id e = from_junction_id e0 /\ to_junction_id e = to_junction_id e0
    /\ from_junction e = junction_ref js (from_junction_id e0)
    /\ to_junction e = junction_ref js (to_junction_id e0)
    /\ lane_unlinked <$> lanes e = lane_unlinked <$> lanes e0.
Proof.
  intros Hjs Hk. apply link_junctions_unlinked in Hjs as [Hes Hkeys].
  apply (f_equal (fun m => m !! k)) in Hes. unfold map_lanes in Hes.
  rewrite !lookup_fmap, Hk in Hes. simpl in Hes.
  destruct (edges net0 !! k) as [e0|]; [|discriminate]. simpl in Hes.
  injection Hes as Hid Hfn Hfi Hti Hf Ht Hls Hso.
  exists e0. split; [reflexivity|]. rewrite !(junction_ref_keys _ _ _ Hkeys). auto 10.
Qed.

(** X14: in a net built from a file, every edge is stored under its own
    id; every lane of the edge has the edge as its parentEdge and the flat
    buffer of its alignment by half its width as its shape; and the edge's
    from_junction and to_junction are the junctions stored under its
    junction ids, None where the net has no such junction. *)
Theorem net_edges_hold_lanes (root : list Element) (net : Net) :
  Net_init root = Ok net ->
  forall k e, edges net !! k = Some e ->
    edge_id e = k
    /\ from_junction e = junction_ref (junctions net) (from_junction_id e)
    /\ to_junction e = junction_ref (junctions net) (to_junction_id e)
    /\ Edge_to_junction net e = to_junction_id e ≫= dict_get (junctions net)
    /\ forall l, l ∈ lanes e ->
         Lane_parentEdge net l = Some e
         /\ lane_shape l = buffer_flat (alignment l) (width l / 2)%float.
Proof.
  intros H k e Hk. apply Net_init_parts in H as [net0 [[Hes _] [Hjs _]]].
  destruct (linked_edge _ _ _ _ _ Hjs Hk)
    as [e0 [Hk0 [Hid [_ [Hfi [Hti [Hf [Ht Hls]]]]]]]].
  destruct (Hes k e0 Hk0) as [Hid0 [_ [_ Hloaded]]].
  split; [congruence|]. split; [congruence|]. split; [congruence|]. split.
  - unfold Edge_to_junction. rewrite Ht, Hti. unfold junction_ref.
    destruct (to_junction_id e0) as [t|]; simpl; [|reflexivity].
    destruct (dict_get (junctions net) t) eqn:Hget; simpl; [exact Hget | reflexivity].
  - intros l Hl.
    assert (Hl0 : exists l0, l0 ∈ lanes e0 /\ lane_unlinked l = lane_unlinked l0).
    { assert (Hin : lane_unlinked l ∈ lane_unlinked <$> lanes e)
        by (apply list_elem_of_fmap; eauto).
      rewrite Hls in Hin. apply list_elem_of_fmap in Hin as [l0 [Heq Hl0]]. eauto. }
    destruct Hl0 as [l0 [Hl0 Heq]].
    destruct (proj1 (Forall_forall _ _) Hloaded l0 Hl0) as [Hp [_ Hs]].
    assert (parentEdge l = parentEdge l0)
      by (apply (f_equal parentEdge) in Heq; exact Heq).
    assert (lane_shape l = lane_shape l0)
      by (apply (f_equal lane_shape) in Heq; exact Heq).
    assert (alignment l = alignment l0)
      by (apply (f_equal alignment) in Heq; exact Heq).
    assert (width l = width l0) by (apply (f_equal width) in Heq; exact Heq).
    split; [|congruence].
    unfold Lane_parentEdge. replace (parentEdge l) with (Some k) by congruence.
    exact Hk.
Qed.

Lemma connection_unlinked_fixed (c : Connection) :
  connection_unlinked c = c ->
  from_edge c = None /\ to_edge c = None /\ from_lane c = None /\ to_lane c = None
  /\ via_lane c = None.
Proof. intros H. rewrite <- H. simpl. auto. Qed.

Lemma end_lane_found (es : gmap string Edge) (k : string) (n : Z)
    (r : option LaneRef) :
  end_lane es k n None = Ok r ->
  match es !! k with
  | Some e => exists il, Edge_get_lane e n = Ok il /\ r = Some (k, il.1)
  | None => r = None
  end.
Proof.
  unfold end_lane. destruct (es !! k) as [e|]; [|congruence].
  intros H. apply bind_Ok in H as [il [Hil [= <-]]]. eauto.
Qed.

(** X15: in a net built from a file, a connection's from_edge and to_edge
    are the edges stored under its edge ids, None where the net has none;
    its from_lane and to_lane are what get_lane of that edge returns for
    its lane index, None without the edge; and its via_lane is what
    _get_lane returns for its via id, None without a via id. *)
Theorem net_connections_resolved (root : list Element) (net : Net) :
  Net_init root = Ok net ->
  forall c, c ∈ connections net ->
    from_edge c = edge_ref (edges net) (from_edge_id c)
    /\ to_edge c = edge_ref (edges net) (to_edge_id c)
    /\ match edges net !! from_edge_id c with
       | Some e => exists il, Edge_get_lane e (from_lane_index c) = Ok il
                              /\ from_lane c = Some (from_edge_id c, il.1)
       | None => from_lane c = None
       end
    /\ match edges net !! to_edge_id c with
       | Some e => exists il, Edge_get_lane e (to_lane_index c) = Ok il
                              /\ to_lane c = Some (to_edge_id c, il.1)
       | None => to_lane c = None
       end
    /\ match via_id c with
       | Some v => _get_lane (edges net) v = Ok (via_lane c)
       | None => via_lane c = None
       end.
Proof.
  intros H c Hc. apply Net_init_parts in H as [net0 [[_ [_ [_ Hcs]]] [_ Hmap]]].
  apply mapM_Ok in Hmap. apply list_elem_of_lookup in Hc as [i Hi].
  destruct (Forall2_lookup_r _ _ _ _ _ Hmap Hi) as [c0 [Hi0 Hlink]].
  assert (Hc0 : connection_unlinked c0 = c0).
  { apply (proj1 (Forall_forall _ _) Hcs). apply list_elem_of_lookup. eauto. }
  apply connection_unlinked_fixed in Hc0 as [_ [_ [Hfl [Htl Hvl]]]].
  unfold link_connection in Hlink. rewrite Hfl, Htl, Hvl in Hlink.
  apply bind_Ok in Hlink as [via [Hvia Hlink]]. cbv zeta in Hlink.
  apply bind_Ok in Hlink as [fl [Hfrom Hlink]].
  apply bind_Ok in Hlink as [tl [Hto [= <-]]]. simpl.
  split; [reflexivity|]. split; [reflexivity|].
  split; [exact (end_lane_found _ _ _ _ Hfrom)|].
  split; [exact (end_lane_found _ _ _ _ Hto)|].
  destruct (via_id c0); [exact Hvia | congruence].
Qed.

Lemma link_junction_relinked (cxns : list Connection) (es es' : gmap string Edge)
    (j j' : Junction) :
  link_junction cxns es j = Ok (j', es') -> relinked es j j'.
Proof.
  unfold link_junction, relinked.
  destruct (String.eqb (junction_type j) "internal"); [congruence|].
  intros H. apply bind_Ok in H as [inc [Hinc H]]. apply bind_Ok in H as [int [Hint H]].
  cbv zeta in H. apply bind_Ok in H as [es1 [_ [= <- _]]]. eauto.
Qed.

Lemma link_junctions_relinked (cxns : list Connection) (js js' : list (string * Junction))
    (es es' : gmap string Edge) :
  link_junctions cxns es js = Ok (js', es') ->
  Forall2 (fun kj kj' => kj'.1 = kj.1 /\ relinked es' kj.2 kj'.2) js js'.
Proof.
  revert js' es. induction js as [|[k j] js IH]; intros js' es H; simpl in H.
  - injection H as <- _. constructor.
  - apply bind_Ok in H as [[j1 es1] [H1 H]]. apply bind_Ok in H as [[rest es2] [H2 H]].
    simpl in *. injection H as <- <-.
    constructor; [|exact (IH _ _ H2)]. simpl. split; [reflexivity|].
    apply (relinked_unlinked es); [|exact (link_junction_relinked _ _ _ _ _ H1)].
    apply link_junction_unlinked in H1 as [H1 _].
    apply link_junctions_unlinked in H2 as [H2 _]. congruence.
Qed.

(** X16: in a net built from a file, the junctions are stored under their
    own ids, each request has its junction as parent, and the incLanes and
    intLanes of a junction are the lanes that _get_lane finds for its
    incLane_ids and intLane_ids in the finished net, in order and without
    the ids whose edge the net does not have; those of a junction of type
    "internal" are empty. *)
Theorem net_junctions_resolved (root : list Element) (net : Net) :
  Net_init root = Ok net ->
  NoDup (junctions net).*1
  /\ forall k j, (k, j) ∈ junctions net ->
       junction_id j = k
       /\ dict_get (junctions net) k = Some j
       /\ Forall (fun r => parentJunction r = Some k) (_requests j)
       /\ if String.eqb (junction_type j) "internal"
          then incLanes j = [] /\ intLanes j = []
          else resolve_lanes (edges net) (incLane_ids j) = Ok (incLanes j)
               /\ resolve_lanes (edges net) (intLane_ids j) = Ok (intLanes j).
Proof.
  intros H. apply Net_init_parts in H as [net0 [[_ [Hnd [Hjs _]]] [Hlink _]]].
  pose proof (link_junctions_relinked _ _ _ _ _ Hlink) as Hrel.
  assert (Hkeys : (junctions net).*1 = (junctions net0).*1).
  { clear -Hrel. induction Hrel as [|[k j] [k' j'] js js' [Hk _] _ IH]; [reflexivity|].
    rewrite !fmap_cons. simpl in *. congruence. }
  assert (Hnd' : NoDup (junctions net).*1) by (rewrite Hkeys; exact Hnd).
  split; [exact Hnd'|].
  intros k j Hin. apply list_elem_of_lookup in Hin as [i Hi].
  destruct (Forall2_lookup_r _ _ _ _ _ Hrel Hi) as [[k0 j0] [Hi0 [Hk Hr]]].
  simpl in Hk, Hr. subst k0.
  destruct (Hjs k j0) as [Hid [Hu Hreqs]]; [apply list_elem_of_lookup; eauto|].
  apply junction_unlinked_fixed in Hu as [Hinc Hint]. unfold relinked in Hr.
  assert (Hget : dict_get (junctions net) k = Some j).
  { assert (Hin : (k, j) ∈ junctions net) by (apply list_elem_of_lookup; eauto).
    clear -Hin Hnd'. induction (junctions net) as [|[k1 j1] js IH]; [inversion Hin|].
    rewrite fmap_cons in Hnd'. apply NoDup_cons in Hnd' as [Hfresh Hnd']. simpl.
    apply elem_of_cons in Hin as [[= <- <-]|Hin]; [rewrite String.eqb_refl; reflexivity|].
    destruct (String.eqb_spec k1 k) as [->|_]; [|auto].
    exfalso. apply Hfresh. apply list_elem_of_fmap. exists (k, j). auto. }
  destruct (String.eqb (junction_type j0) "internal") eqn:Hty.
  - subst j. rewrite Hty. auto.
  - destruct Hr as [inc [int [Hrinc [Hrint ->]]]]. rewrite Hinc, Hint in *.
    simpl in *. rewrite Hty. auto.
Qed.

Lemma get_request_by_int_lane_in (j : Junction) (lid : option string) (r : Request) :
  get_request_by_int_lane j lid = Ok r -> r ∈ _requests j.
Proof.
  unfold get_request_by_int_lane, get_request_by_index.
  destruct lid as [lane_id|]; [|discriminate].
  destruct (Py.index lane_id (intLane_ids j)); [|discriminate].
  intros H. apply or_raise_Ok in H. apply find_some in H as [H _].
  apply list_elem_of_In. exact H.
Qed.

Lemma requests_of_connection_in (cxns : list Connection) (j : Junction)
    (c : Connection) (rs : list Request) :
  requests_of_connection cxns j c = Ok rs -> forall r, r ∈ rs -> r ∈ _requests j.
Proof.
  unfold requests_of_connection. destruct (via_id c) as [via|].
  2: { intros [= <-] r Hr. inversion Hr. }
  destruct (get_request_by_int_lane j (Some via)) as [req|e] eqn:Hreq; simpl.
  - intros [= <-] r Hr. apply list_elem_of_singleton in Hr as ->.
    exact (get_request_by_int_lane_in _ _ _ Hreq).
  - destruct (decide (e = IndexError)); [|discriminate].
    intros H r Hr. apply mapM_Ok in H.
    apply list_elem_of_lookup in Hr as [i Hi].
    destruct (Forall2_lookup_r _ _ _ _ _ H Hi) as [cxni [_ Hcxni]].
    exact (get_request_by_int_lane_in _ _ _ Hcxni).
Qed.

Lemma linked_by_mono (js js' : list (string * Junction)) (es : gmap string Edge) :
  (forall kj, kj ∈ js -> kj ∈ js') -> linked_by js es -> linked_by js' es.
Proof.
  intros Hsub Hes h l Hl. destruct (Hes h l Hl) as [Hlinks Hreqs]. split.
  - destruct Hlinks as [Hu|[k [j [Hin Hh]]]]; [auto|]. right. exists k, j. auto.
  - intros r Hr. destruct (Hreqs r Hr) as [k [j [Hin Hh]]]. exists k, j. auto.
Qed.

Lemma link_lane_linked_by (cxns : list Connection) (js : list (string * Junction))
    (k : string) (j : Junction) (es es' : gmap string Edge) (h0 : LaneRef) :
  (k, j) ∈ js -> h0 ∈ incLanes j ->
  linked_by js es -> link_lane cxns j es h0 = Ok es' -> linked_by js es'.
Proof.
  intros Hin Hh0 Hes H. apply link_lane_Ok in H as [lane [reqs [Hlane [Hreqs ->]]]].
  intros h l Hl. rewrite Net_lane_update_lane in Hl.
  destruct (decide (h0 = h)) as [<-|Hne]; [|exact (Hes h l Hl)].
  rewrite Hlane in Hl. injection Hl as <-. split; [right; exists k, j; auto|].
  simpl. intros r Hr. apply elem_of_app in Hr as [Hr|Hr].
  - exact (proj2 (Hes h0 lane Hlane) r Hr).
  - exists k, j. split; [exact Hin|]. split; [exact Hh0|].
    apply list_elem_of_In, in_concat in Hr as [rs [Hrs Hr]].
    apply list_elem_of_In in Hrs, Hr. apply mapM_Ok in Hreqs.
    apply list_elem_of_lookup in Hrs as [i Hi].
    destruct (Forall2_lookup_r _ _ _ _ _ Hreqs Hi) as [cxn [_ Hcxn]].
    exact (requests_of_connection_in _ _ _ _ Hcxn r Hr).
Qed.

Lemma link_junction_linked_by (cxns : list Connection) (done : list (string * Junction))
    (k : string) (j j' : Junction) (es es' : gmap string Edge) :
  linked_by done es -> link_junction cxns es j = Ok (j', es') ->
  linked_by (done ++ [(k, j')]) es'.
Proof.
  intros Hes H.
  assert (Hes0 : linked_by (done ++ [(k, j')]) es).
  { revert Hes. apply linked_by_mono. intros kj Hkj. apply elem_of_app. auto. }
  unfold link_junction in H.
  destruct (String.eqb (junction_type j) "internal"); [injection H as _ <-; exact Hes0|].
  apply bind_Ok in H as [inc [_ H]]. apply bind_Ok in H as [int [_ H]]. cbv zeta in H.
  apply bind_Ok in H as [es1 [H [= <- <-]]]. set (j' := Junction_set_lanes _ _ _) in *.
  eapply (foldM_invariant _ (linked_by (done ++ [(k, j')]))); [|exact Hes0|exact H].
  intros es2 h es3 Hh Hes2. apply (link_lane_linked_by cxns _ k j'); [|exact Hh|exact Hes2].
  apply elem_of_app. right. constructor.
Qed.

Lemma link_junctions_linked_by (cxns : list Connection) (js : list (string * Junction)) :
  forall (done js' : list (string * Junction)) (es es' : gmap string Edge),
    linked_by done es -> link_junctions cxns es js = Ok (js', es') ->
    linked_by (done ++ js') es'.
Proof.
  induction js as [|[k j] js IH]; intros done js' es es' Hes H; simpl in H.
  - injection H as <- <-. rewrite app_nil_r. exact Hes.
  - apply bind_Ok in H as [[j1 es1] [H1 H]]. apply bind_Ok in H as [[rest es2] [H2 H]].
    simpl in *. injection H as <- <-.
    pose proof (IH _ _ _ _ (link_junction_linked_by _ _ k _ _ _ _ Hes H1) H2) as Hes'.
    rewrite <- app_assoc in Hes'. exact Hes'.
Qed.

Lemma connections_where_positions (p : Connection -> bool) (cxns cxns' : list Connection) :
  (forall c, p (connection_unlinked c) = p c) ->
  connection_unlinked <$> cxns' = connection_unlinked <$> cxns ->
  (connections_where p cxns').*1 = (connections_where p cxns).*1.
Proof.
  intros Hp Heq.
  assert (Hfst : forall l : list Connection,
            (connections_where p (connection_unlinked <$> l)).*1
            = (connections_where p l).*1).
  { intros l. rewrite (connections_where_unlinked p l Hp), <- list_fmap_compose.
    apply list_fmap_ext. intros _ [i c] _. reflexivity. }
  rewrite <- (Hfst cxns'), <- (Hfst cxns), Heq. reflexivity.
Qed.

(** X17: in a net built from a file, a lane that some junction lists among
    its incLanes has as incoming and outgoing connections the connections
    that _get_connections_to_lane and _get_connections_from_lane find for
    its id; a lane that no junction lists has no connections and no
    requests; and every request of a lane is a request of a junction that
    lists the lane among its incLanes. *)
Theorem net_lane_links (root : list Element) (net : Net) :
  Net_init root = Ok net ->
  forall h l, Net_lane (edges net) h = Some l ->
    (forall k j, (k, j) ∈ junctions net -> h ∈ incLanes j ->
       incoming_connections l
       = (_get_connections_to_lane (connections net) (lane_id l)).*1
       /\ outgoing_connections l
          = (_get_connections_from_lane (connections net) (lane_id l)).*1)
    /\ ((forall k j, (k, j) ∈ junctions net -> h ∉ incLanes j) ->
        incoming_connections l = [] /\ outgoing_connections l = [] /\ requests l = [])
    /\ (forall r, r ∈ requests l ->
          exists k j, (k, j) ∈ junctions net /\ h ∈ incLanes j /\ r ∈ _requests j).
Proof.
  intros H h l Hl.
  apply Net_init_parts in H as [net0 [[Hes [_ [Hjs _]]] [Hlink Hmap]]].
  assert (Hlinked : linked_by (junctions net) (edges net)).
  { apply (link_junctions_linked_by _ _ [] _ _ _) in Hlink; [exact Hlink|].
    intros h0 l0 Hl0. unfold Net_lane in Hl0. rewrite lookup_fmap in Hl0.
    destruct (edges net0 !! h0.1) as [e0|] eqn:He0; [|discriminate]. simpl in Hl0.
    destruct (Hes _ _ He0) as [_ [_ [_ Hloaded]]].
    destruct (proj1 (Forall_forall _ _) Hloaded l0) as [_ [Hu _]];
      [apply list_elem_of_lookup; eauto|].
    split; [auto|]. apply lane_unlinked_fixed in Hu as [_ [_ ->]].
    intros r Hr. inversion Hr. }
  destruct (Hlinked h l Hl) as [Hlinks Hreqs].
  split; [|split; [|exact Hreqs]].
  - intros k j Hin Hh.
    pose proof (link_junctions_relinked _ _ _ _ _ Hlink) as Hrel.
    apply link_junctions_make_ready in Hlink as [Hready _].
    pose proof (proj1 (Forall_forall _ _) Hready (k, j) Hin) as Hj. simpl in Hj.
    assert (Hty : String.eqb (junction_type j) "internal" = false).
    { apply list_elem_of_lookup in Hin as [i Hi].
      destruct (Forall2_lookup_r _ _ _ _ _ Hrel Hi) as [[k0 j0] [Hi0 [_ Hr]]].
      simpl in Hr. unfold relinked in Hr.
      destruct (String.eqb (junction_type j0) "internal") eqn:Hty0.
      - subst j0. destruct (Hjs k0 j) as [_ [Hu _]];
          [apply list_elem_of_lookup; eauto|].
        apply junction_unlinked_fixed in Hu as [Hinc _]. rewrite Hinc in Hh.
        inversion Hh.
      - destruct Hr as [inc [int [_ [_ ->]]]]. exact Hty0. }
    destruct (Hj Hty) as [inc [int [_ [_ Hsettled]]]].
    destruct (Hsettled h) as [lane [reqs [Hlane [Hincoming [Houtgoing _]]]]];
      [apply elem_of_app; auto|].
    rewrite Hl in Hlane. injection Hlane as <-.
    apply link_connections_again in Hmap as [_ Hmap].
    rewrite Hincoming, Houtgoing.
    unfold _get_connections_to_lane, _get_connections_from_lane.
    split; symmetry; apply connections_where_positions; auto.
  - intros Hnone. destruct Hlinks as [Hu|[k [j [Hin Hh]]]].
    + apply lane_unlinked_fixed. exact Hu.
    + destruct (Hnone k j Hin Hh).
Qed.

(** ** Lane ids *)

Lemma digit_of_char (x : N) :
  (x < 10)%N -> Py.digit_of (pretty_N_char x) = Some (Z.of_N x).
Proof.
  intros Hx.
  assert (x = 0 \/ x = 1 \/ x = 2 \/ x = 3 \/ x = 4 \/ x = 5 \/ x = 6 \/ x = 7
          \/ x = 8 \/ x = 9)%N as H by lia.
  repeat (destruct H as [->|H]; [reflexivity|]). subst x. reflexivity.
Qed.

Lemma all_digits_go (x : N) (s : string) :
  all_digits s = true -> all_digits (pretty_N_go x s) = true.
Proof.
  revert s. induction (N.lt_wf_0 x) as [x _ IH]. intros s Hs.
  destruct (decide (x = 0)%N) as [->|Hx]; [rewrite pretty_N_go_0; exact Hs|].
  rewrite pretty_N_go_step by lia. apply IH; [apply N.div_lt; lia|].
  simpl. rewrite Hs, digit_of_char by (apply N.mod_lt; lia).
  rewrite bool_decide_eq_true_2 by eauto. reflexivity.
Qed.

Lemma int_digits_go (x : N) :
  (0 < x)%N ->
  exists m, forall s acc b,
    Py.int_digits (pretty_N_go x s) acc b = Py.int_digits s (acc * m + Z.of_N x) true.
Proof.
  induction (N.lt_wf_0 x) as [x _ IH]. intros Hx.
  assert (Hr : (x `mod` 10 < 10)%N) by (apply N.mod_lt; lia).
  assert (Hdm : Z.of_N x = 10 * Z.of_N (x `div` 10) + Z.of_N (x `mod` 10))
    by (rewrite (N.div_mod x 10) at 1 by lia; lia).
  destruct (decide (x `div` 10 = 0)%N) as [Hq|Hq].
  - exists 10. intros s acc b. rewrite pretty_N_go_step, Hq, pretty_N_go_0 by exact Hx.
    simpl. rewrite digit_of_char by exact Hr. f_equal. rewrite Hq in Hdm. lia.
  - destruct (IH (x `div` 10)%N) as [m Hm]; [apply N.div_lt; lia | lia |].
    exists (10 * m). intros s acc b. rewrite pretty_N_go_step, Hm by exact Hx.
    simpl. rewrite digit_of_char by exact Hr. f_equal. lia.
Qed.

Lemma digit_no_space (c : ascii) :
  is_Some (Py.digit_of c) -> Py.is_space c = false.
Proof.
  unfold Py.digit_of, Py.is_space. cbv zeta. intros [d Hd].
  destruct (48 <=? nat_of_ascii c)%nat eqn:H1; [|discriminate].
  destruct (nat_of_ascii c <=? 57)%nat eqn:H2; [|discriminate].
  apply Nat.leb_le in H1.
  destruct (Nat.leb_spec 9 (nat_of_ascii c)); destruct (Nat.leb_spec (nat_of_ascii c) 13);
    destruct (Nat.leb_spec 28 (nat_of_ascii c));
    destruct (Nat.leb_spec (nat_of_ascii c) 32); simpl; try reflexivity; lia.
Qed.

Lemma rstrip_digits (s : string) : all_digits s = true -> Py.rstrip s = s.
Proof.
  induction s as [|c rest IH]; [reflexivity|]. simpl. intros H.
  apply andb_true_iff in H as [Hc Hrest]. apply bool_decide_eq_true in Hc.
  rewrite (IH Hrest), (digit_no_space c Hc). destruct rest; reflexivity.
Qed.

Lemma strip_digits (s : string) : all_digits s = true -> Py.strip s = s.
Proof.
  intros H. unfold Py.strip.
  assert (Hl : Py.lstrip s = s).
  { destruct s as [|c rest]; [reflexivity|]. simpl in *.
    apply andb_true_iff in H as [Hc _]. apply bool_decide_eq_true in Hc.
    rewrite (digit_no_space c Hc). reflexivity. }
  rewrite Hl. apply rstrip_digits. exact H.
Qed.

Lemma int_of_digits (s : string) :
  all_digits s = true -> Py.int s = Py.int_digits s 0 false.
Proof.
  intros H. unfold Py.int. rewrite (strip_digits s H).
  destruct s as [|c rest]; [reflexivity|]. simpl in H.
  apply andb_true_iff in H as [Hc _]. apply bool_decide_eq_true in Hc as [d Hd].
  destruct c as [[] [] [] [] [] [] [] []]; try reflexivity; discriminate.
Qed.

Lemma int_of_minus_digits (s : string) :
  all_digits s = true -> Py.int (String "-" s) = Z.opp <$> Py.int_digits s 0 false.
Proof.
  intros H. unfold Py.int, Py.strip.
  change (Py.lstrip (String "-" s)) with (String "-" s).
  change (Py.rstrip (String "-" s))
    with (match Py.rstrip s with
          | EmptyString => String "-" EmptyString
          | r => String "-" r
          end).
  rewrite (rstrip_digits s H). destruct s; reflexivity.
Qed.

Lemma int_str (n : Z) : Py.int (Py.str n) = Some n.
Proof.
  unfold Py.str, pretty, pretty_Z. destruct n as [|p|p]; [reflexivity|..].
  - unfold pretty, pretty_positive, pretty, pretty_N.
    destruct (decide (N.pos p = 0)%N); [discriminate|].
    rewrite int_of_digits by (apply all_digits_go; reflexivity).
    destruct (int_digits_go (N.pos p)) as [m Hm]; [lia|]. rewrite Hm. reflexivity.
  - unfold pretty, pretty_positive, pretty, pretty_N.
    destruct (decide (N.pos p = 0)%N); [discriminate|].
    change ("-" +:+ pretty_N_go (N.pos p) "") with (String "-" (pretty_N_go (N.pos p) "")).
    rewrite int_of_minus_digits by (apply all_digits_go; reflexivity).
    destruct (int_digits_go (N.pos p)) as [m Hm]; [lia|]. rewrite Hm. reflexivity.
Qed.

Lemma split_nonempty (sep : ascii) (s : string) : Py.split sep s <> [].
Proof.
  destruct s as [|c rest]; simpl; [discriminate|].
  destruct (Ascii.eqb c sep); [discriminate|]. destruct (Py.split sep rest); discriminate.
Qed.

Lemma split_app (sep : ascii) (a b : string) :
  Py.split sep (a +:+ String sep b) = (Py.split sep a ++ Py.split sep b)%list.
Proof.
  induction a as [|c a IH]; simpl.
  - rewrite Ascii.eqb_refl. reflexivity.
  - destruct (Ascii.eqb c sep); [rewrite IH; reflexivity|]. rewrite IH.
    pose proof (split_nonempty sep a) as Hne.
    destruct (Py.split sep a); [contradiction|reflexivity].
Qed.

Lemma split_none (sep : ascii) (s : string) :
  Py.contains sep s = false -> Py.split sep s = [s].
Proof.
  induction s as [|c rest IH]; simpl; [reflexivity|]. intros H.
  apply orb_false_iff in H as [Hc Hrest]. rewrite Ascii.eqb_sym, Hc, (IH Hrest).
  reflexivity.
Qed.

Lemma join_split (sep : ascii) (s : string) :
  Py.join (String sep EmptyString) (Py.split sep s) = s.
Proof.
  induction s as [|c rest IH]; [reflexivity|]. simpl.
  pose proof (split_nonempty sep rest) as Hne.
  destruct (Ascii.eqb_spec c sep) as [->|_].
  - destruct (Py.split sep rest) as [|w ws]; [contradiction|].
    rewrite <- IH. reflexivity.
  - destruct (Py.split sep rest) as [|w ws]; [contradiction|].
    rewrite <- IH. destruct ws; reflexivity.
Qed.

Lemma digits_no_underscore (s : string) :
  all_digits s = true -> Py.contains "_" s = false.
Proof.
  induction s as [|c rest IH]; [reflexivity|]. simpl. intros H.
  apply andb_true_iff in H as [Hc Hrest]. rewrite (IH Hrest).
  apply bool_decide_eq_true in Hc as [d Hd].
  destruct c as [[] [] [] [] [] [] [] []]; try reflexivity; discriminate.
Qed.

Lemma str_no_underscore (n : Z) : Py.contains "_" (Py.str n) = false.
Proof.
  unfold Py.str, pretty, pretty_Z. destruct n as [|p|p]; [reflexivity|..];
    unfold pretty, pretty_positive, pretty, pretty_N;
    (destruct (decide (N.pos p = 0)%N); [discriminate|]).
  - apply digits_no_underscore, all_digits_go. reflexivity.
  - change ("-" +:+ pretty_N_go (N.pos p) "") with (String "-" (pretty_N_go (N.pos p) "")).
    simpl. apply digits_no_underscore, all_digits_go. reflexivity.
Qed.

(** X18: the lane id that the net builds from an edge id and a lane index
    (the edge id, an underscore and str of the index) is taken apart again
    by _get_lane: its edge part is the edge id, whatever underscores that
    has, and its index part the index.  So _get_lane finds for it the lane
    that get_lane of that edge returns for that index, and None without
    the edge. *)
Theorem built_lane_id_resolves (es : gmap string Edge) (k : string) (n : Z) :
  edge_part (k +:+ "_" +:+ Py.str n) = k
  /\ index_part (k +:+ "_" +:+ Py.str n) = Some n
  /\ _get_lane es (k +:+ "_" +:+ Py.str n) = end_lane es k n None.
Proof.
  assert (Hsplit : Py.split "_" (k +:+ "_" +:+ Py.str n)
                   = (Py.split "_" k ++ [Py.str n])%list).
  { change ("_" +:+ Py.str n) with (String "_" (Py.str n)).
    rewrite split_app, (split_none _ _ (str_no_underscore n)). reflexivity. }
  assert (Hedge : edge_part (k +:+ "_" +:+ Py.str n) = k).
  { unfold edge_part, Py.but_last. rewrite Hsplit, removelast_last. apply join_split. }
  assert (Hindex : index_part (k +:+ "_" +:+ Py.str n) = Some n).
  { unfold index_part. rewrite Hsplit, last_snoc. simpl. apply int_str. }
  split; [exact Hedge|]. split; [exact Hindex|].
  rewrite get_lane_parts, Hindex, Hedge. unfold end_lane, Edge_get_lane.
  destruct (es !! k) as [e|]; [|reflexivity].
  destruct (find_lane (lanes e) n); reflexivity.
Qed.

(** ** Markings of the lanes of a net *)

Lemma net_lane_parent (root : list Element) (net : Net) (k : string) (e : Edge)
    (l : Lane) :
  Net_init root = Ok net -> edges net !! k = Some e -> l ∈ lanes e ->
  Lane_parentEdge net l = Some e
  /\ Edge_to_junction net e = to_junction_id e ≫= dict_get (junctions net).
Proof.
  intros H Hk Hl. apply Net_init_parts in H as [net0 [[Hes _] [Hjs _]]].
  destruct (linked_edge _ _ _ _ _ Hjs Hk) as [e0 [Hk0 [_ [_ [_ [Hti [_ [Ht Hls]]]]]]]].
  destruct (Hes k e0 Hk0) as [_ [_ [_ Hloaded]]]. split.
  - assert (Hin : lane_unlinked l ∈ lane_unlinked <$> lanes e)
      by (apply list_elem_of_fmap; eauto).
    rewrite Hls in Hin. apply list_elem_of_fmap in Hin as [l0 [Heq Hl0]].
    destruct (proj1 (Forall_forall _ _) Hloaded l0 Hl0) as [Hp _].
    apply (f_equal parentEdge) in Heq. simpl in Heq.
    unfold Lane_parentEdge. rewrite Heq, Hp. exact Hk.
  - unfold Edge_to_junction. rewrite Ht, Hti. unfold junction_ref.
    destruct (to_junction_id e0) as [t|]; simpl; [|reflexivity].
    destruct (dict_get (junctions net) t) eqn:Hget; simpl; [exact Hget | reflexivity].
Qed.

(** X19: for a lane of a net built from a file, _requires_stop_line
    returns a value when the net has the junction that the lane's edge
    names as its "to" junction, and raises AttributeError when the edge
    names none or one that the net does not have.  In that case
    _guess_lane_markings, with stop lines switched on, returns no markings
    for a lane of a normal edge that is not for pedestrians, ships or rail
    only: it raises. *)
Theorem stop_lines_need_to_junction (root : list Element) (net : Net) (k : string)
    (e : Edge) (l : Lane) :
  Net_init root = Ok net -> edges net !! k = Some e -> l ∈ lanes e ->
  match to_junction_id e ≫= dict_get (junctions net) with
  | Some j => exists b, _requires_stop_line net l = Ok b
  | None =>
      _requires_stop_line net l = Raise AttributeError
      /\ forall g,
           PLOT_STOP_LINES g = true ->
           function e <> "internal" -> function e <> "crossing" ->
           Allowance_eq (allows l) "ship" = false ->
           Allowance_eq (allows l) "rail" = false ->
           Allowance_eq (allows l) "pedestrian" = false ->
           exists err, _guess_lane_markings g net l = Raise err
  end.
Proof.
  intros H Hk Hl. destruct (net_lane_parent _ _ _ _ _ H Hk Hl) as [Hp Ht].
  rewrite <- Ht.
  assert (Hreq : _requires_stop_line net l
                 = match Edge_to_junction net e with
                   | Some j =>
                       if bool_decide (junction_type j ∈ ["internal"; "zipper"])
                       then Ok false
                       else if String.eqb (junction_type j) "always_stop" then Ok true
                       else Ok (existsb (fun request => Py.contains "1" (response request))
                                        (requests l))
                   | None => Raise AttributeError
                   end).
  { unfold _requires_stop_line. rewrite Hp. simpl.
    destruct (Edge_to_junction net e); reflexivity. }
  destruct (Edge_to_junction net e) as [j|].
  - rewrite Hreq. destruct (bool_decide _); [eauto|].
    destruct (String.eqb _ _); eauto.
  - split; [exact Hreq|].
    intros g Hplot Hinternal Hcrossing Hship Hrail Hped.
    unfold _guess_lane_markings. rewrite Hp. simpl.
    apply String.eqb_neq in Hinternal, Hcrossing.
    rewrite Hinternal, Hcrossing, Hship, Hrail, Hplot. simpl.
    unfold Allowance_not_in. simpl. rewrite Hped, Hship, Hreq. simpl.
    match goal with
    | |- context [mbind _ ?m] => destruct m as [markings|err]; simpl; eauto
    end.
Qed.

Lemma numbered_lane_index (ls : list Lane) (i : nat) (l : Lane) :
  lane_index <$> ls = Z.of_nat <$> seq 0 (length ls) ->
  ls !! i = Some l -> lane_index l = Z.of_nat i.
Proof.
  intros Hnum Hi. apply (f_equal (fun x => x !! i)) in Hnum.
  rewrite !list_lookup_fmap, Hi in Hnum. simpl in Hnum.
  rewrite lookup_seq_lt in Hnum by (apply lookup_lt_Some in Hi; exact Hi).
  simpl in Hnum. congruence.
Qed.

(** The markings of one style on a lane of an edge whose lanes are numbered
    from 0 in the order of the list. *)
Lemma style_markings_numbered (g : Settings) (net : Net) (e : Edge) (l : Lane)
    (offset : float -> float) (colour : string) :
  Lane_parentEdge net l = Some e ->
  l ∈ lanes e ->
  lane_index <$> lanes e = Z.of_nat <$> seq 0 (length (lanes e)) ->
  exists ms,
    style_markings g net l offset colour = Ok ms
    /\ (forall m, m ∈ ms ->
          (purpose m = "center" /\ lane_index l = Z.of_nat (length (lanes e)) - 1)
          \/ (purpose m = "lane"
              /\ exists adj, adj ∈ lanes e /\ lane_index adj = lane_index l + 1
                             /\ dashes m = boundary_dashes l adj)
          \/ (purpose m = "outer" /\ lane_index l = 0)).
Proof.
  intros Hp Hl Hnum. apply list_elem_of_lookup in Hl as [i Hi].
  pose proof (numbered_lane_index _ _ _ Hnum Hi) as Hidx.
  pose proof (lookup_lt_Some _ _ _ Hi) as Hlt.
  unfold style_markings, inverse_lane_index, Edge_lane_count. rewrite Hp. simpl.
  set (outer := if (lane_index l =? 0) && _ then _ else _).
  assert (Houter : forall m, m ∈ outer -> purpose m = "outer" /\ lane_index l = 0).
  { intros m Hm. subst outer. destruct (Z.eqb_spec (lane_index l) 0) as [H0|_];
      simpl in Hm; [|inversion Hm].
    destruct (negb _); [|inversion Hm].
    apply list_elem_of_singleton in Hm as ->. auto. }
  destruct (Z.eqb_spec (Z.of_nat (length (lanes e)) - lane_index l - 1) 0) as [Hlast|Hmore];
    simpl.
  - eexists. split; [reflexivity|]. intros m Hm.
    apply elem_of_cons in Hm as [->|Hm]; [left; split; [reflexivity | lia]|].
    right. right. auto.
  - destruct (lookup_lt_is_Some_2 (lanes e) (S i)) as [adj Hadj]; [lia|].
    pose proof (numbered_lane_index _ _ _ Hnum Hadj) as Hadjidx.
    unfold Edge_get_lane.
    destruct (find_lane (lanes e) (lane_index l + 1)) as [[i' adj']|] eqn:Hfind.
    + apply find_lane_Some in Hfind as [Hi' [Hidx' _]]. simpl.
      eexists. split; [reflexivity|]. intros m Hm.
      apply elem_of_cons in Hm as [->|Hm]; [|right; right; auto].
      right. left. split; [reflexivity|]. exists adj'.
      split; [apply list_elem_of_lookup; eauto|]. auto.
    + exfalso. apply (proj1 (find_lane_None _ _) Hfind adj).
      * apply list_elem_of_lookup. eauto.
      * lia.
Qed.

(** X20: on an edge whose lanes carry the indices 0, 1, 2, ... in the
    order of its lane list, _guess_lane_markings with stop lines switched
    off raises nothing for any of the lanes.  A "center" marking is only
    given to the lane of the highest index, an "outer" marking only to the
    lane of index 0, and a "lane" marking has the dash pattern that the
    lane and the lane of the next index determine. *)
Theorem numbered_lanes_markings (g : Settings) (net : Net) (e : Edge) (l : Lane) :
  Lane_parentEdge net l = Some e ->
  l ∈ lanes e ->
  lane_index <$> lanes e = Z.of_nat <$> seq 0 (length (lanes e)) ->
  PLOT_STOP_LINES g = false ->
  exists ms,
    _guess_lane_markings g net l = Ok ms
    /\ (forall m, m ∈ ms ->
          (purpose m = "crossing" /\ function e = "crossing")
          \/ (purpose m = "center" /\ lane_index l = Z.of_nat (length (lanes e)) - 1)
          \/ (purpose m = "lane"
              /\ exists adj, adj ∈ lanes e /\ lane_index adj = lane_index l + 1
                             /\ dashes m = boundary_dashes l adj)
          \/ (purpose m = "outer" /\ lane_index l = 0)).
Proof.
  intros Hp Hl Hnum Hplot. unfold _guess_lane_markings. rewrite Hp, Hplot. simpl.
  destruct (String.eqb (function e) "internal"
            || Allowance_eq (allows l) "ship" || Allowance_eq (allows l) "rail").
  { exists []. split; [reflexivity|]. intros m Hm. inversion Hm. }
  destruct (String.eqb_spec (function e) "crossing") as [Hcrossing|_].
  { eexists. split; [reflexivity|]. intros m Hm.
    apply list_elem_of_singleton in Hm as ->. left. auto. }
  assert (Hstyle : exists ms,
            (if String.eqb (LANE_MARKINGS_STYLE g) USA_STYLE
             then style_markings g net l (fun lw => (width l / 2 - lw)%float) "y"
             else if String.eqb (LANE_MARKINGS_STYLE g) EUR_STYLE
             then style_markings g net l (fun _ => (width l / 2)%float) "w"
             else Ok []) = Ok ms
            /\ forall m, m ∈ ms ->
                 (purpose m = "center" /\ lane_index l = Z.of_nat (length (lanes e)) - 1)
                 \/ (purpose m = "lane"
                     /\ exists adj, adj ∈ lanes e /\ lane_index adj = lane_index l + 1
                                    /\ dashes m = boundary_dashes l adj)
                 \/ (purpose m = "outer" /\ lane_index l = 0)).
  { destruct (String.eqb (LANE_MARKINGS_STYLE g) USA_STYLE);
      [apply (style_markings_numbered g net e); assumption|].
    destruct (String.eqb (LANE_MARKINGS_STYLE g) EUR_STYLE);
      [apply (style_markings_numbered g net e); assumption|].
    exists []. split; [reflexivity|]. intros m Hm. inversion Hm. }
  destruct Hstyle as [ms [-> Hms]]. simpl. exists (ms ++ [])%list.
  split; [reflexivity|]. rewrite app_nil_r. intros m Hm. right. auto.
Qed.

(** ** Drawing and colouring what was read *)

Lemma plot_aligned (t : Trajectory) (start_time end_time : float) :
  aligned t ->
  exists segs,
    Trajectory_plot t start_time end_time = (segs, None)
    /\ Forall (fun sg => length (segment_x sg) = 2%nat
                         /\ length (segment_y sg) = 2%nat) segs.
Proof.
  intros [Htime [Hy [_ [_ [_ Hcolors]]]]].
  pose proof (plot_returns t start_time end_time Htime Hcolors) as Hnone.
  destruct (plot_segments t start_time end_time) as [Hdrawn _].
  destruct (Trajectory_plot t start_time end_time) as [segs err]. simpl in *. subst err.
  exists segs. split; [reflexivity|]. eapply Forall_impl; [exact Hdrawn|].
  intros sg [k [Hk [tk [tk1 [c [_ [_ [_ [_ [_ ->]]]]]]]]]]. simpl.
  unfold slice2. rewrite !length_take, !length_drop. lia.
Qed.

Lemma plot_all_aligned (ts : list Trajectory) (start_time end_time : float) :
  Forall aligned ts ->
  exists segs,
    Trajectories_plot ts start_time end_time = (segs, None)
    /\ Forall (fun sg => length (segment_x sg) = 2%nat
                         /\ length (segment_y sg) = 2%nat) segs.
Proof.
  induction 1 as [|t ts Ht _ IH].
  - exists []. split; [reflexivity|constructor].
  - destruct (plot_aligned t start_time end_time Ht) as [segs [Hsegs Hall]].
    destruct IH as [rest [Hrest Hall']].
    exists (segs ++ rest)%list. simpl. rewrite Hsegs. simpl. rewrite Hrest. simpl.
    split; [reflexivity|]. apply Forall_app. auto.
Qed.

(** X21: the Trajectories object that is built from a file is drawn
    without an exception, whatever the time window, since every trajectory
    read has a time and a colour for each of its points; every segment
    drawn joins two points. *)
Theorem fcd_trajectories_plot (file : option string) (root : list Element)
    (ts : list Trajectory) (start_time end_time : float) :
  Trajectories_init file root = Ok ts ->
  exists segs,
    Trajectories_plot ts start_time end_time = (segs, None)
    /\ Forall (fun sg => length (segment_x sg) = 2%nat
                         /\ length (segment_y sg) = 2%nat) segs.
Proof.
  intros H. apply plot_all_aligned.
  destruct file as [name|]; simpl in H; [|injection H as <-; constructor].
  destruct (ends_with name "fcd-output.xml"); [|discriminate].
  unfold read_from_fcd in H. apply bind_Ok in H as [d [Hd [= <-]]].
  rewrite fold_append. simpl. apply read_timesteps_read in Hd as [_ [Hentries _]].
  apply Forall_forall. intros t Ht. apply list_elem_of_fmap in Ht as [[k t'] [-> Ht]].
  apply (Hentries k t' Ht).
Qed.

Lemma run_loop_foldM {A S} (body : S -> A -> result S) (l : list A) (s s' : S) :
  foldM body s l = Ok s' -> run_loop body s l = (s', None).
Proof.
  revert s. induction l as [|x l IH]; intros s H; simpl in *.
  - injection H as <-. reflexivity.
  - apply bind_Ok in H as [s1 [H1 H]]. rewrite H1. apply IH. exact H.
Qed.

Lemma assign_colors_lane_loop (t : Trajectory) (color_dict : list (option string * Color))
    (n : nat) :
  forall colors,
    (n <= length (traj_lane t))%nat -> (n <= length colors)%nat ->
    (forall lane, lane ∈ traj_lane t -> is_Some (color_of color_dict lane)) ->
    exists colors',
      foldM (assign_color_lane t color_dict) colors (seq 0 n) = Ok colors'
      /\ length colors' = length colors
      /\ (forall i, (i < n)%nat ->
            exists lane, traj_lane t !! i = Some lane
                         /\ colors' !! i = color_of color_dict lane)
      /\ (forall i, (n <= i)%nat -> colors' !! i = colors !! i).
Proof.
  induction n as [|n IH]; intros colors Hlanes Hcolors Hkeys.
  - exists colors. split; [reflexivity|]. split; [reflexivity|].
    split; [intros i Hi; lia | reflexivity].
  - destruct (IH colors) as [colors1 [Hfold [Hlen [Hset Hkept]]]]; [lia | lia | exact Hkeys|].
    destruct (lookup_lt_is_Some_2 (traj_lane t) n) as [lane Hlane]; [lia|].
    destruct (Hkeys lane) as [c Hc]; [apply list_elem_of_lookup; eauto|].
    exists (<[n := c]> colors1).
    assert (Hstep : assign_color_lane t color_dict colors1 n = Ok (<[n := c]> colors1)).
    { unfold assign_color_lane. rewrite Hlane. simpl. rewrite Hc. simpl.
      destruct (Nat.ltb_spec n (length colors1)); [reflexivity | lia]. }
    split; [|split; [|split]].
    + rewrite seq_S. simpl.
      assert (Happ : forall l1 l2 s s1,
                foldM (assign_color_lane t color_dict) s l1 = Ok s1 ->
                foldM (assign_color_lane t color_dict) s (l1 ++ l2)
                = foldM (assign_color_lane t color_dict) s1 l2).
      { clear. induction l1 as [|x l1 IHl]; intros l2 s s1 H; simpl in *.
        - injection H as <-. reflexivity.
        - apply bind_Ok in H as [s' [Hs' H]]. rewrite Hs'. simpl. apply IHl. exact H. }
      rewrite (Happ _ _ _ _ Hfold). simpl. rewrite Hstep. reflexivity.
    + rewrite length_insert. exact Hlen.
    + intros i Hi. destruct (decide (i = n)) as [->|Hne].
      * exists lane. split; [exact Hlane|]. rewrite list_lookup_insert_eq by lia.
        symmetry. exact Hc.
      * destruct (Hset i) as [lane' [Hlane' Hi']]; [lia|]. exists lane'.
        split; [exact Hlane'|]. rewrite list_lookup_insert_ne by congruence. exact Hi'.
    + intros i Hi. rewrite list_lookup_insert_ne by lia. apply Hkept. lia.
Qed.

(** X22: a call of assign_colors_lane with a colour dictionary first
    fetches the colour map; an exception of plt.cm.get_cmap or of
    cmap.colors ends the call and leaves the trajectory as it is.
    Otherwise, when the dictionary has every lane of the trajectory as a
    key and the trajectory has a lane and a colour for each point, the
    call raises nothing and gives each point the colour that the
    dictionary has for its lane; nothing else of the trajectory changes. *)
Theorem assign_colors_lane_by_dict (Cmap : Type) (get_cmap : string -> result Cmap)
    (cmap_colors : Cmap -> result (list Color))
    (t : Trajectory) (cmap : option (CmapArg Cmap))
    (color_dict : list (option string * Color)) :
  length (traj_lane t) = length (traj_x t) ->
  length (traj_colors t) = length (traj_x t) ->
  (forall lane, lane ∈ traj_lane t -> is_Some (color_of color_dict lane)) ->
  match cmap_list Cmap get_cmap cmap_colors "tab10" cmap with
  | Raise e => assign_colors_lane Cmap get_cmap cmap_colors t cmap color_dict = (t, Some e)
  | Ok _ =>
      exists colors,
        assign_colors_lane Cmap get_cmap cmap_colors t cmap color_dict
        = (mkTrajectory (traj_id t) (traj_time t) (traj_x t) (traj_y t) (traj_speed t)
                        (traj_angle t) (traj_lane t) colors,
           None)
        /\ Some <$> colors = color_of color_dict <$> traj_lane t
  end.
Proof.
  intros Hlanes Hcolors Hkeys. unfold assign_colors_lane.
  destruct (cmap_list Cmap get_cmap cmap_colors "tab10" cmap) as [cmapList|e];
    [|reflexivity].
  destruct (assign_colors_lane_loop t color_dict (length (traj_x t)) (traj_colors t))
    as [colors [Hfold [Hlen [Hset _]]]]; [lia | lia | exact Hkeys|].
  exists colors. rewrite (run_loop_foldM _ _ _ _ Hfold). split; [reflexivity|].
  apply list_eq. intros i. rewrite !list_lookup_fmap.
  destruct (decide (i < length (traj_x t))%nat) as [Hi|Hi].
  - destruct (Hset i Hi) as [lane [Hlane ->]]. rewrite Hlane. simpl.
    destruct (Hkeys lane) as [c ->]; [apply list_elem_of_lookup; eauto|]. reflexivity.
  - rewrite !lookup_ge_None_2 by lia. reflexivity.
Qed.

(** ** The requests of a lane *)

Lemma foldM_app {A S} (body : S -> A -> result S) (l1 l2 : list A) (s s' : S) :
  foldM body s (l1 ++ l2) = Ok s'
  <-> exists s1, foldM body s l1 = Ok s1 /\ foldM body s1 l2 = Ok s'.
Proof.
  revert s. induction l1 as [|x l1 IH]; intros s; simpl.
  - split; [eauto | intros [s1 [[= <-] H]]; exact H].
  - rewrite bind_Ok. split.
    + intros [s0 [Hx H]]. apply IH in H as [s1 [H1 H2]]. exists s1.
      split; [|exact H2]. apply bind_Ok. eauto.
    + intros [s1 [H1 H2]]. apply bind_Ok in H1 as [s0 [Hx H1]]. exists s0.
      split; [exact Hx|]. apply IH. eauto.
Qed.

Lemma link_lane_other (cxns : list Connection) (j : Junction) (es es' : gmap string Edge)
    (h0 h : LaneRef) :
  link_lane cxns j es h0 = Ok es' -> h0 <> h -> Net_lane es' h = Net_lane es h.
Proof.
  intros H Hne. apply link_lane_Ok in H as [lane [reqs [_ [_ ->]]]].
  rewrite Net_lane_update_lane. destruct (decide (h0 = h)); [contradiction|reflexivity].
Qed.

Lemma link_lanes_other (cxns : list Connection) (j : Junction) (L : list LaneRef)
    (h : LaneRef) :
  forall es es', foldM (link_lane cxns j) es L = Ok es' -> h ∉ L ->
                 Net_lane es' h = Net_lane es h.
Proof.
  induction L as [|h0 L IH]; intros es es' H Hh; simpl in H.
  - injection H as <-. reflexivity.
  - apply bind_Ok in H as [es1 [H1 H]]. apply not_elem_of_cons in Hh as [Hne Hh].
    rewrite (IH _ _ H Hh). apply (link_lane_other _ _ _ _ _ _ H1). congruence.
Qed.

Lemma link_junction_other (cxns : list Connection) (es es' : gmap string Edge)
    (j j' : Junction) (h : LaneRef) :
  link_junction cxns es j = Ok (j', es') -> h ∉ incLanes j' ->
  Net_lane es' h = Net_lane es h.
Proof.
  unfold link_junction.
  destruct (String.eqb (junction_type j) "internal"); [intros [= _ <-]; reflexivity|].
  intros H. apply bind_Ok in H as [inc [_ H]]. apply bind_Ok in H as [int [_ H]].
  cbv zeta in H. apply bind_Ok in H as [es1 [H [= <- <-]]].
  apply (link_lanes_other _ _ _ _ _ _ H).
Qed.

Lemma link_junctions_other (cxns : list Connection) (js : list (string * Junction))
    (h : LaneRef) :
  forall js' es es',
    link_junctions cxns es js = Ok (js', es') ->
    (forall kj, kj ∈ js' -> h ∉ incLanes kj.2) ->
    Net_lane es' h = Net_lane es h.
Proof.
  induction js as [|[k j] js IH]; intros js' es es' H Hh; simpl in H.
  - injection H as _ <-. reflexivity.
  - apply bind_Ok in H as [[j1 es1] [H1 H]]. apply bind_Ok in H as [[rest es2] [H2 H]].
    simpl in *. injection H as <- <-.
    rewrite (IH _ _ _ H2); [|intros kj Hkj; apply Hh; constructor; exact Hkj].
    apply (link_junction_other _ _ _ _ _ _ H1). apply (Hh (k, j1)). constructor.
Qed.

Lemma link_junctions_app (cxns : list Connection) (pre post : list (string * Junction)) :
  forall js' es es',
    link_junctions cxns es (pre ++ post) = Ok (js', es') ->
    exists pre' post' es1,
      link_junctions cxns es pre = Ok (pre', es1)
      /\ link_junctions cxns es1 post = Ok (post', es')
      /\ js' = (pre' ++ post')%list /\ length pre' = length pre.
Proof.
  induction pre as [|[k j] pre IH]; intros js' es es' H; simpl in H.
  - exists [], js', es. auto.
  - apply bind_Ok in H as [[j1 es1] [H1 H]]. apply bind_Ok in H as [[rest es2] [H2 H]].
    simpl in *. injection H as <- <-.
    destruct (IH _ _ _ H2) as [pre' [post' [es3 [Hpre [Hpost [-> Hlen]]]]]].
    exists ((k, j1) :: pre'), post', es3. simpl. rewrite H1. simpl. rewrite Hpre. simpl.
    auto.
Qed.

Lemma link_lanes_once (cxns : list Connection) (j : Junction) (L1 L2 : list LaneRef)
    (es es' : gmap string Edge) (h : LaneRef) :
  foldM (link_lane cxns j) es (L1 ++ h :: L2) = Ok es' -> h ∉ L1 -> h ∉ L2 ->
  exists l0 reqs,
    Net_lane es h = Some l0
    /\ mapM (fun cxn => requests_of_connection cxns j cxn.2)
            (_get_connections_from_lane cxns (lane_id l0)) = Ok reqs
    /\ Net_lane es' h
       = Some (Lane_set_links l0 (_get_connections_to_lane cxns (lane_id l0)).*1
                              (_get_connections_from_lane cxns (lane_id l0)).*1
                              (requests l0 ++ concat reqs)).
Proof.
  intros H H1 H2. apply foldM_app in H as [es1 [Hpre H]]. simpl in H.
  apply bind_Ok in H as [es2 [Hh Hpost]].
  pose proof (link_lanes_other _ _ _ _ _ _ Hpre H1) as Hes1.
  pose proof (link_lanes_other _ _ _ _ _ _ Hpost H2) as Hes2.
  apply link_lane_Ok in Hh as [l0 [reqs [Hl0 [Hreqs ->]]]].
  exists l0, reqs. split; [congruence|]. split; [exact Hreqs|].
  rewrite Hes2, Net_lane_update_lane, Hl0.
  destruct (decide (h = h)); [reflexivity|contradiction].
Qed.

Lemma requests_of_connections_positions (cxns cxns' : list Connection) (j : Junction)
    (lane_id : string) :
  connection_unlinked <$> cxns' = connection_unlinked <$> cxns ->
  mapM (fun cxn => requests_of_connection cxns' j cxn.2)
       (_get_connections_from_lane cxns' lane_id)
  = mapM (fun cxn => requests_of_connection cxns j cxn.2)
         (_get_connections_from_lane cxns lane_id).
Proof.
  intros Heq.
  assert (Hunl : forall l : list Connection,
            mapM (fun cxn => requests_of_connection (connection_unlinked <$> l) j cxn.2)
                 (_get_connections_from_lane (connection_unlinked <$> l) lane_id)
            = mapM (fun cxn => requests_of_connection l j cxn.2)
                   (_get_connections_from_lane l lane_id)).
  { intros l. unfold _get_connections_from_lane.
    rewrite connections_where_unlinked by reflexivity. rewrite mapM_fmap.
    apply mapM_ext. intros cxn _. apply requests_of_connection_unlinked. }
  rewrite <- (Hunl cxns'), <- (Hunl cxns), Heq. reflexivity.
Qed.

(** X23: in a net built from a file, the requests of a lane that is listed
    once, by one junction, among the incLanes are, for the lane's outgoing
    connections in order: the junction's request for the connection's via
    lane or, where the junction has none for it, the junction's requests
    for the via lanes of the connections that leave that via lane; a
    connection without via adds none. *)
Theorem net_lane_requests (root : list Element) (net : Net) (i p : nat) (k : string)
    (j : Junction) (h : LaneRef) (l : Lane) :
  Net_init root = Ok net ->
  junctions net !! i = Some (k, j) ->
  incLanes j !! p = Some h ->
  (forall i' p' k' j', junctions net !! i' = Some (k', j') ->
                       incLanes j' !! p' = Some h -> i' = i /\ p' = p) ->
  Net_lane (edges net) h = Some l ->
  exists reqs,
    mapM (fun cxn => requests_of_connection (connections net) j cxn.2)
         (_get_connections_from_lane (connections net) (lane_id l)) = Ok reqs
    /\ requests l = concat reqs.
Proof.
  intros H Hi Hp Honce Hl.
  apply Net_init_parts in H as [net0 [[Hes [_ [Hjs _]]] [Hlink Hmap]]].
  apply link_connections_again in Hmap as [_ Hmap].
  rewrite (requests_of_connections_positions _ _ j (lane_id l) Hmap).
  pose proof (link_junctions_relinked _ _ _ _ _ Hlink) as Hrel.
  destruct (Forall2_lookup_r _ _ _ _ _ Hrel Hi) as [[k0 j0] [Hi0 _]].
  remember (link_edge (junctions net0) <$> edges net0) as es0 eqn:Hes0.
  rewrite <- (take_drop_middle _ _ _ Hi0) in Hlink.
  apply link_junctions_app in Hlink as [pre' [post' [es1 [Hpre [Hpost [Hjs' Hlen]]]]]].
  simpl in Hpost. apply bind_Ok in Hpost as [[j1 es2] [Hj Hpost]].
  apply bind_Ok in Hpost as [[rest es3] [Hrest Hpost]]. simpl in *.
  injection Hpost as Hpost' Hes3. subst post'. rewrite Hes3 in Hrest.
  assert (Hleni : length pre' = i).
  { rewrite Hlen, length_take. apply lookup_lt_Some in Hi0. lia. }
  assert (Hj1 : j1 = j).
  { rewrite Hjs' in Hi. rewrite lookup_app_r, Hleni, Nat.sub_diag in Hi by lia.
    simpl in Hi. congruence. }
  subst j1.
  assert (Hbefore : Net_lane es1 h = Net_lane es0 h).
  { apply (link_junctions_other _ _ _ _ _ _ Hpre). intros [k' j'] Hin Hh.
    apply list_elem_of_lookup in Hin as [i' Hi'], Hh as [p' Hp'].
    destruct (Honce i' p' k' j') as [Heq _]; [|exact Hp'|].
    - rewrite Hjs'. apply lookup_app_l_Some. exact Hi'.
    - apply lookup_lt_Some in Hi'. lia. }
  assert (Hafter : Net_lane (edges net) h = Net_lane es2 h).
  { apply (link_junctions_other _ _ _ _ _ _ Hrest). intros [k' j'] Hin Hh.
    apply list_elem_of_lookup in Hin as [i' Hi'], Hh as [p' Hp'].
    destruct (Honce (length pre' + S i')%nat p' k' j') as [Heq _]; [|exact Hp'|lia].
    rewrite Hjs'. rewrite lookup_app_r by lia.
    replace (length pre' + S i' - length pre')%nat with (S i') by lia. exact Hi'. }
  unfold link_junction in Hj.
  destruct (String.eqb (junction_type j0) "internal").
  { injection Hj as <- _. destruct (Hjs k0 j0) as [_ [Hu _]];
      [apply list_elem_of_lookup; eauto|].
    apply junction_unlinked_fixed in Hu as [Hinc _]. rewrite Hinc in Hp. discriminate. }
  apply bind_Ok in Hj as [inc [_ Hj]]. apply bind_Ok in Hj as [int [_ Hj]].
  cbv zeta in Hj. apply bind_Ok in Hj as [es2' [Hfold [= Hj0 <-]]]. rewrite Hj0 in Hfold.
  rewrite <- (take_drop_middle _ _ _ Hp) in Hfold.
  apply link_lanes_once in Hfold as [l0 [reqs [Hl0 [Hreqs Hl2]]]].
  - rewrite Hafter, Hl2 in Hl. injection Hl as <-. simpl. exists reqs.
    split; [exact Hreqs|].
    rewrite Hbefore, Hes0 in Hl0. unfold Net_lane in Hl0. rewrite lookup_fmap in Hl0.
    destruct (edges net0 !! h.1) as [e0|] eqn:He0; [|discriminate]. simpl in Hl0.
    destruct (Hes _ _ He0) as [_ [_ [_ Hloaded]]].
    destruct (proj1 (Forall_forall _ _) Hloaded l0) as [_ [Hu _]];
      [apply list_elem_of_lookup; eauto|].
    apply lane_unlinked_fixed in Hu as [_ [_ ->]]. reflexivity.
  - intros Hin. apply list_elem_of_lookup in Hin as [p' Hp'].
    pose proof (lookup_lt_Some _ _ _ Hp') as Hlt. rewrite length_take in Hlt.
    rewrite lookup_take_lt in Hp' by lia.
    destruct (Honce i p' k j Hi Hp') as [_ Heq]. lia.
  - intros Hin. apply list_elem_of_lookup in Hin as [p' Hp'].
    rewrite lookup_drop in Hp'.
    destruct (Honce i (S p + p')%nat k j Hi Hp') as [_ Heq]. lia.
Qed.

(** ** When the linking pass returns *)

Lemma get_lane_Ok (es : gmap string Edge) (lane_id : string) (r : option LaneRef) :
  _get_lane es lane_id = Ok r
  <-> lane_id_tolerated es lane_id /\ r = lane_of_id es lane_id.
Proof.
  rewrite get_lane_parts. unfold lane_id_tolerated, index_tolerated, lane_of_id.
  destruct (index_part lane_id) as [n|]; simpl.
  2: { split; [discriminate | intros [[n [[=] _]] _]]. }
  destruct (es !! edge_part lane_id) as [e|]; simpl.
  - destruct (find_lane (lanes e) n) as [il|] eqn:Hfind; simpl.
    + split.
      * intros [= <-]. split; [|reflexivity]. exists n. split; [reflexivity|].
        intros e' [= <-]. rewrite Hfind. eauto.
      * intros [_ ->]. reflexivity.
    + split; [discriminate|]. intros [[n' [[= <-] He]] _].
      destruct (He e eq_refl) as [il Hil]. congruence.
  - split.
    + intros [= <-]. split; [|reflexivity]. exists n. split; [reflexivity|].
      intros e' [=].
    + intros [_ ->]. reflexivity.
Qed.

Lemma get_lane_Raise (es : gmap string Edge) (lane_id : string) (e : exn) :
  _get_lane es lane_id = Raise e -> e = ValueError \/ e = IndexError.
Proof.
  rewrite get_lane_parts. destruct (index_part lane_id); [|intros [= <-]; auto].
  destruct (es !! edge_part lane_id) as [edge|]; [|discriminate].
  destruct (find_lane (lanes edge) z); [discriminate | intros [= <-]; auto].
Qed.

Lemma end_lane_Ok (es : gmap string Edge) (k : string) (n : Z) (r : option LaneRef) :
  end_lane es k n None = Ok r <-> index_tolerated es k n /\ r = lane_of_index es k n.
Proof.
  unfold end_lane, index_tolerated, lane_of_index, Edge_get_lane.
  destruct (es !! k) as [e|]; simpl.
  - destruct (find_lane (lanes e) n) as [il|] eqn:Hfind; simpl.
    + split.
      * intros [= <-]. split; [|reflexivity]. intros e' [= <-]. rewrite Hfind. eauto.
      * intros [_ ->]. reflexivity.
    + split; [discriminate|]. intros [He _].
      destruct (He e eq_refl) as [il Hil]. congruence.
  - split.
    + intros [= <-]. split; [|reflexivity]. intros e' [=].
    + intros [_ ->]. reflexivity.
Qed.

Lemma lane_of_id_resolves (es : gmap string Edge) (lane_id : string) (h : LaneRef) :
  lane_of_id es lane_id = Some h -> is_Some (Net_lane es h).
Proof.
  unfold lane_of_id, Net_lane.
  destruct (index_part lane_id) as [n|]; simpl; [|discriminate].
  destruct (es !! edge_part lane_id) as [e|] eqn:He; simpl; [|discriminate].
  destruct (find_lane (lanes e) n) as [[i l]|] eqn:Hfind; simpl; [|discriminate].
  intros [= <-]. simpl. rewrite He. simpl.
  apply find_lane_Some in Hfind as [Hi _]. eauto.
Qed.

Lemma mapM_is_Ok {A B} (f : A -> result B) (l : list A) :
  (exists r, mapM f l = Ok r) <-> forall x, x ∈ l -> exists y, f x = Ok y.
Proof.
  induction l as [|x l IH]; simpl.
  - split; [intros _ x Hx; inversion Hx | eauto].
  - split.
    + intros [r H]. apply bind_Ok in H as [y [Hy H]]. apply bind_Ok in H as [r' [Hr' _]].
      intros x' Hx'. apply elem_of_cons in Hx' as [->|Hx']; [eauto|].
      apply (proj1 IH); eauto.
    + intros H. destruct (H x) as [y Hy]; [constructor|].
      destruct (proj2 IH) as [r Hr]; [intros x' Hx'; apply H; constructor; exact Hx'|].
      rewrite Hy. simpl. rewrite Hr. simpl. eauto.
Qed.

Lemma mapM_Raise {A B} (f : A -> result B) (P : exn -> Prop) (l : list A) (e : exn) :
  (forall x e, f x = Raise e -> P e) -> mapM f l = Raise e -> P e.
Proof.
  intros Hf. induction l as [|x l IH]; simpl; [discriminate|].
  intros H. apply bind_Raise in H as [H|[y [_ H]]]; [eauto|].
  apply bind_Raise in H as [H|[r [_ H]]]; [auto | discriminate].
Qed.

Lemma mapM_get_lane (es : gmap string Edge) (ids : list string)
    (rs : list (option LaneRef)) :
  mapM (_get_lane es) ids = Ok rs
  <-> (forall lid, lid ∈ ids -> lane_id_tolerated es lid)
      /\ rs = lane_of_id es <$> ids.
Proof.
  rewrite mapM_Ok. split.
  - induction 1 as [|lid r ids rs Hr _ IH].
    + split; [intros lid Hlid; inversion Hlid | reflexivity].
    + apply get_lane_Ok in Hr as [Htol ->]. destruct IH as [Hids ->]. split.
      * intros lid' Hlid'. apply elem_of_cons in Hlid' as [->|Hlid']; auto.
      * reflexivity.
  - intros [Hids ->]. induction ids as [|lid ids IH]; [constructor|].
    rewrite fmap_cons. constructor.
    + apply get_lane_Ok. split; [apply Hids; constructor | reflexivity].
    + apply IH. intros lid' Hlid'. apply Hids. constructor. exact Hlid'.
Qed.

Lemma omap_id_fmap {A B} (f : A -> option B) (l : list A) :
  omap id (f <$> l) = omap f l.
Proof.
  induction l as [|x l IH]; [reflexivity|]. simpl.
  destruct (f x); simpl; [f_equal|]; exact IH.
Qed.

Lemma resolve_lanes_Ok (es : gmap string Edge) (ids : list string) (hs : list LaneRef) :
  resolve_lanes es ids = Ok hs
  <-> (forall lid, lid ∈ ids -> lane_id_tolerated es lid)
      /\ hs = omap (lane_of_id es) ids.
Proof.
  unfold resolve_lanes. destruct (mapM (_get_lane es) ids) as [rs|e] eqn:Hrs; simpl.
  - apply mapM_get_lane in Hrs as [Hids ->]. rewrite omap_id_fmap. split.
    + intros [= <-]. auto.
    + intros [_ ->]. reflexivity.
  - split; [discriminate|]. intros [Hids _].
    pose proof (proj2 (mapM_get_lane es ids _) (conj Hids eq_refl)) as Hok.
    congruence.
Qed.

Lemma get_request_by_int_lane_Raise (j : Junction) (lid : string) (e : exn) :
  get_request_by_int_lane j (Some lid) = Raise e -> e = IndexError.
Proof.
  unfold get_request_by_int_lane, get_request_by_index.
  destruct (Py.index lid (intLane_ids j)); [|intros [= <-]; reflexivity].
  destruct (List.find _ _); simpl; [discriminate | intros [= <-]; reflexivity].
Qed.

Lemma requests_of_connection_returns (cxns : list Connection) (j : Junction)
    (c : Connection) :
  (exists rs, requests_of_connection cxns j c = Ok rs) <-> requests_found cxns j c.
Proof.
  unfold requests_of_connection, requests_found, has_request.
  destruct (via_id c) as [via|]; [|split; [intros _ via [=] | eauto]].
  destruct (get_request_by_int_lane j (Some via)) as [req|e] eqn:Hreq; simpl.
  - split; [|eauto]. intros _ via' [= <-]. left. eauto.
  - pose proof (get_request_by_int_lane_Raise _ _ _ Hreq) as He. subst e.
    destruct (decide (IndexError = IndexError)) as [_|Hne]; [|contradiction].
    rewrite mapM_is_Ok. split.
    + intros H via' [= <-]. right. intros i cxni Hin. exact (H (i, cxni) Hin).
    + intros H [i cxni] Hin. destruct (H via eq_refl) as [[r Hr]|Hall].
      { change (get_request_by_int_lane j (Some via) = Ok r) in Hr. congruence. }
      exact (Hall i cxni Hin).
Qed.

Lemma requests_found_junction (cxns : list Connection) (j j' : Junction)
    (c : Connection) :
  junction_unlinked j = junction_unlinked j' ->
  requests_found cxns j c -> requests_found cxns j' c.
Proof.
  intros H.
  change (requests_found cxns j c) with (requests_found cxns (junction_unlinked j) c).
  rewrite H. exact (fun x => x).
Qed.

Lemma lane_linkable_junction (cxns : list Connection) (es : gmap string Edge)
    (j j' : Junction) (h : LaneRef) :
  junction_unlinked j = junction_unlinked j' ->
  lane_linkable cxns es j h -> lane_linkable cxns es j' h.
Proof.
  intros H [lid [Hlid Hall]]. exists lid. split; [exact Hlid|].
  intros i c Hin. apply (requests_found_junction cxns j j'); [exact H|].
  exact (Hall i c Hin).
Qed.

Lemma unlinked_lane_ids (es es' : gmap string Edge) (h : LaneRef) :
  map_lanes lane_unlinked es = map_lanes lane_unlinked es' ->
  lane_id <$> Net_lane es h = lane_id <$> Net_lane es' h.
Proof.
  intros H. apply (f_equal (fun m => lane_id <$> Net_lane m h)) in H.
  rewrite !Net_lane_map_lanes in H.
  destruct (Net_lane es h), (Net_lane es' h); exact H.
Qed.

Lemma lane_linkable_unlinked (cxns : list Connection) (es es' : gmap string Edge)
    (j : Junction) (h : LaneRef) :
  map_lanes lane_unlinked es = map_lanes lane_unlinked es' ->
  lane_linkable cxns es j h -> lane_linkable cxns es' j h.
Proof.
  intros H. unfold lane_linkable. rewrite (unlinked_lane_ids es es' h H).
  exact (fun x => x).
Qed.

Lemma linkable_unlinked (cxns : list Connection) (es es' : gmap string Edge)
    (j : Junction) :
  map_lanes lane_unlinked es = map_lanes lane_unlinked es' ->
  linkable cxns es j -> linkable cxns es' j.
Proof.
  intros H Hl Hty. destruct (Hl Hty) as (inc & int & Hinc & Hint & Hall).
  exists inc, int. rewrite <- !(resolve_lanes_unlinked es es') by exact H.
  split; [exact Hinc|]. split; [exact Hint|].
  intros h Hh. apply (lane_linkable_unlinked cxns es es'); auto.
Qed.

Lemma link_lane_returns (cxns : list Connection) (j : Junction) (es : gmap string Edge)
    (h : LaneRef) :
  (exists es', link_lane cxns j es h = Ok es') <-> lane_linkable cxns es j h.
Proof.
  unfold lane_linkable. split.
  - intros [es' H]. apply link_lane_Ok in H as [lane [reqs [Hl [Hreqs _]]]].
    exists (lane_id lane). rewrite Hl. split; [reflexivity|].
    intros i c Hin. apply requests_of_connection_returns.
    exact (proj1 (mapM_is_Ok _ _) (ex_intro _ reqs Hreqs) (i, c) Hin).
  - intros [lid [Hl Hall]].
    destruct (Net_lane es h) as [lane|] eqn:Hlane; [|discriminate].
    simpl in Hl. injection Hl as <-.
    destruct (proj2 (mapM_is_Ok (fun cxn => requests_of_connection cxns j cxn.2)
                       (_get_connections_from_lane cxns (lane_id lane)))) as [reqs Hreqs].
    { intros [i c] Hin. apply requests_of_connection_returns. exact (Hall i c Hin). }
    eexists. apply link_lane_Ok. exists lane, reqs. eauto.
Qed.

Lemma link_lanes_returns (cxns : list Connection) (j : Junction) (hs : list LaneRef) :
  forall es,
    (exists es', foldM (link_lane cxns j) es hs = Ok es')
    <-> forall h, h ∈ hs -> lane_linkable cxns es j h.
Proof.
  induction hs as [|h hs IH]; intros es; simpl.
  - split; [intros _ h Hh; inversion Hh | eauto].
  - split.
    + intros [es' H]. apply bind_Ok in H as [es1 [H1 H]].
      pose proof (link_lane_unlinked _ _ _ _ _ H1) as Hu.
      intros h' Hh'. apply elem_of_cons in Hh' as [->|Hh'].
      * apply link_lane_returns. eauto.
      * apply (lane_linkable_unlinked cxns es1 es); [exact Hu|].
        apply (proj1 (IH es1)); eauto.
    + intros Hall.
      destruct (proj2 (link_lane_returns cxns j es h)) as [es1 H1];
        [apply Hall; constructor|].
      pose proof (link_lane_unlinked _ _ _ _ _ H1) as Hu.
      destruct (proj2 (IH es1)) as [es' H'].
      { intros h' Hh'. apply (lane_linkable_unlinked cxns es es1); [symmetry; exact Hu|].
        apply Hall. constructor. exact Hh'. }
      rewrite H1. simpl. eauto.
Qed.

Lemma link_junction_returns (cxns : list Connection) (es : gmap string Edge)
    (j : Junction) :
  (exists r, link_junction cxns es j = Ok r) <-> linkable cxns es j.
Proof.
  unfold link_junction, linkable.
  destruct (String.eqb (junction_type j) "internal");
    [split; [intros _ [=] | eauto]|].
  split.
  - intros [r H] _. apply bind_Ok in H as [inc [Hinc H]].
    apply bind_Ok in H as [int [Hint H]]. apply bind_Ok in H as [es' [H _]].
    exists inc, int. split; [exact Hinc|]. split; [exact Hint|]. simpl in H.
    intros h Hh.
    apply (lane_linkable_junction cxns es
             (Junction_set_lanes j (incLanes j ++ inc) (intLanes j ++ int)) j);
      [reflexivity|].
    apply (proj1 (link_lanes_returns _ _ _ es) (ex_intro _ es' H)). exact Hh.
  - intros H. destruct (H eq_refl) as (inc & int & Hinc & Hint & Hall).
    rewrite Hinc, Hint. simpl.
    destruct (proj2 (link_lanes_returns cxns
                       (Junction_set_lanes j (incLanes j ++ inc) (intLanes j ++ int))
                       (incLanes j ++ inc) es)) as [es' H'].
    { intros h Hh. apply (lane_linkable_junction cxns es j); [reflexivity | auto]. }
    rewrite H'. simpl. eauto.
Qed.

Lemma link_junctions_returns (cxns : list Connection) (js : list (string * Junction)) :
  forall es,
    (exists r, link_junctions cxns es js = Ok r)
    <-> forall k j, (k, j) ∈ js -> linkable cxns es j.
Proof.
  induction js as [|[k j] js IH]; intros es; simpl.
  - split; [intros _ k j Hkj; inversion Hkj | eauto].
  - split.
    + intros [r H]. apply bind_Ok in H as [[j1 es1] [H1 H]].
      apply bind_Ok in H as [rest [H2 _]]. simpl in H2.
      pose proof (link_junction_unlinked _ _ _ _ _ H1) as [Hu _].
      intros k' j' Hkj. apply elem_of_cons in Hkj as [[= -> ->]|Hkj].
      * apply link_junction_returns. eauto.
      * apply (linkable_unlinked cxns es1 es); [exact Hu|].
        apply (proj1 (IH es1)) with k'; eauto.
    + intros Hall.
      destruct (proj2 (link_junction_returns cxns es j)) as [[j1 es1] H1];
        [apply (Hall k); constructor|].
      pose proof (link_junction_unlinked _ _ _ _ _ H1) as [Hu _].
      destruct (proj2 (IH es1)) as [rest H2].
      { intros k' j' Hkj. apply (linkable_unlinked cxns es es1); [symmetry; exact Hu|].
        apply (Hall k'). constructor. exact Hkj. }
      rewrite H1. simpl. rewrite H2. simpl. eauto.
Qed.

Lemma Net_lane_link_edge (js : list (string * Junction)) (es : gmap string Edge)
    (h : LaneRef) :
  Net_lane (link_edge js <$> es) h = Net_lane es h.
Proof. unfold Net_lane. rewrite lookup_fmap. destruct (es !! h.1); reflexivity. Qed.

Lemma get_lane_link_edge (js : list (string * Junction)) (es : gmap string Edge)
    (lane_id : string) :
  _get_lane (link_edge js <$> es) lane_id = _get_lane es lane_id.
Proof.
  rewrite !get_lane_parts. destruct (index_part lane_id); [|reflexivity].
  rewrite lookup_fmap. destruct (es !! edge_part lane_id); reflexivity.
Qed.

Lemma resolve_lanes_link_edge (js : list (string * Junction)) (es : gmap string Edge)
    (ids : list string) :
  resolve_lanes (link_edge js <$> es) ids = resolve_lanes es ids.
Proof.
  unfold resolve_lanes. f_equal. apply mapM_ext. intros lid _.
  apply get_lane_link_edge.
Qed.

Lemma link_connection_link_edge (js : list (string * Junction)) (es : gmap string Edge)
    (c : Connection) :
  link_connection (link_edge js <$> es) c = link_connection es c.
Proof.
  unfold link_connection, end_lane, edge_ref. rewrite !lookup_fmap.
  destruct (via_id c) as [v|]; [rewrite get_lane_link_edge|];
    destruct (es !! from_edge_id c), (es !! to_edge_id c); reflexivity.
Qed.

Lemma linkable_link_edge (cxns : list Connection) (js : list (string * Junction))
    (es : gmap string Edge) (j : Junction) :
  linkable cxns (link_edge js <$> es) j <-> linkable cxns es j.
Proof.
  unfold linkable, lane_linkable. rewrite !resolve_lanes_link_edge.
  setoid_rewrite Net_lane_link_edge. reflexivity.
Qed.

Lemma linkable_loaded (cxns : list Connection) (es : gmap string Edge) (j : Junction) :
  incLanes j = [] ->
  linkable cxns es j
  <-> (junction_type j <> "internal" -> junction_tolerated cxns es j).
Proof.
  intros Hnil. unfold linkable, junction_tolerated. rewrite Hnil. simpl.
  rewrite <- String.eqb_neq. split.
  - intros H Hty. destruct (H Hty) as (inc & int & Hinc & Hint & Hall).
    apply resolve_lanes_Ok in Hinc as [Hinc ->].
    apply resolve_lanes_Ok in Hint as [Hint _]. split.
    + intros lid Hlid. apply elem_of_app in Hlid as [Hlid|Hlid]; auto.
    + intros lid h Hlid Hh. apply Hall. apply list_elem_of_omap. eauto.
  - intros H Hty. destruct (H Hty) as [Htol Hall].
    exists (omap (lane_of_id es) (incLane_ids j)), (omap (lane_of_id es) (intLane_ids j)).
    split; [|split].
    + apply resolve_lanes_Ok. split; [|reflexivity].
      intros lid Hlid. apply Htol, elem_of_app. auto.
    + apply resolve_lanes_Ok. split; [|reflexivity].
      intros lid Hlid. apply Htol, elem_of_app. auto.
    + intros h Hh. apply list_elem_of_omap in Hh as [lid [Hlid Hh]]. eauto.
Qed.

Lemma link_connection_returns (es : gmap string Edge) (c c' : Connection) :
  from_lane c = None -> to_lane c = None -> via_lane c = None ->
  link_connection es c = Ok c'
  <-> connection_tolerated es c
      /\ c' = Connection_set_links c
                (edge_ref es (from_edge_id c)) (edge_ref es (to_edge_id c))
                (lane_of_index es (from_edge_id c) (from_lane_index c))
                (lane_of_index es (to_edge_id c) (to_lane_index c))
                (via_id c ≫= lane_of_id es).
Proof.
  intros Hf Ht Hv. unfold link_connection, connection_tolerated. rewrite Hf, Ht, Hv.
  split.
  - intros H. apply bind_Ok in H as [via [Hvia H]]. apply bind_Ok in H as [fl [Hfl H]].
    apply bind_Ok in H as [tl [Htl [= <-]]].
    apply end_lane_Ok in Hfl as [Hfl ->]. apply end_lane_Ok in Htl as [Htl ->].
    destruct (via_id c) as [v|]; simpl.
    + apply get_lane_Ok in Hvia as [Hvia ->].
      split; [|reflexivity]. split; [|auto]. intros via' [= <-]. exact Hvia.
    + injection Hvia as <-. split; [|reflexivity]. split; [|auto]. intros via' [=].
  - intros [[Hvia [Hfl Htl]] ->].
    rewrite (proj2 (end_lane_Ok es _ _ _) (conj Hfl eq_refl)).
    rewrite (proj2 (end_lane_Ok es _ _ _) (conj Htl eq_refl)).
    destruct (via_id c) as [v|]; simpl; [|reflexivity].
    rewrite (proj2 (get_lane_Ok es v _) (conj (Hvia v eq_refl) eq_refl)). reflexivity.
Qed.

Lemma link_objects_returns (net : Net) :
  net_loaded net ->
  (exists net', _link_objects net = Ok net')
  <-> (forall k j, (k, j) ∈ junctions net -> junction_type j <> "internal" ->
         junction_tolerated (connections net) (edges net) j)
      /\ (forall c, c ∈ connections net -> connection_tolerated (edges net) c).
Proof.
  intros (Hes & Hnd & Hjs & Hcs). unfold _link_objects. cbv zeta.
  rewrite Forall_forall in Hcs.
  assert (Hnil : forall k j, (k, j) ∈ junctions net -> incLanes j = []).
  { intros k j Hkj. destruct (Hjs k j Hkj) as (_ & Hfix & _).
    apply junction_unlinked_fixed in Hfix. tauto. }
  split.
  - intros [net' H]. apply bind_Ok in H as [[js' es'] [Hj H]].
    apply bind_Ok in H as [cxns' [Hc _]]. simpl in Hc.
    pose proof (link_junctions_unlinked _ _ _ _ _ Hj) as [Hu _]. split.
    + intros k j Hkj Hty.
      pose proof (proj1 (link_junctions_returns _ _ _) (ex_intro _ _ Hj) k j Hkj) as Hl.
      apply linkable_link_edge in Hl.
      exact (proj1 (linkable_loaded _ _ _ (Hnil k j Hkj)) Hl Hty).
    + intros c Hin.
      destruct (connection_unlinked_fixed c (Hcs c Hin)) as (_ & _ & Hfl & Htl & Hvl).
      destruct (proj1 (mapM_is_Ok _ _) (ex_intro _ _ Hc) c Hin) as [c' Hc'].
      rewrite (link_connection_unlinked _ _ c Hu), link_connection_link_edge in Hc'.
      apply (link_connection_returns _ _ _ Hfl Htl Hvl) in Hc'. tauto.
  - intros [HJ HC].
    destruct (proj2 (link_junctions_returns (connections net) (junctions net)
                       (link_edge (junctions net) <$> edges net))) as [[js' es'] Hj].
    { intros k j Hkj. apply linkable_link_edge.
      apply (linkable_loaded _ _ _ (Hnil k j Hkj)). intros Hty. exact (HJ k j Hkj Hty). }
    rewrite Hj. simpl.
    pose proof (link_junctions_unlinked _ _ _ _ _ Hj) as [Hu _].
    destruct (proj2 (mapM_is_Ok (link_connection es') (connections net))) as [cxns' Hc].
    { intros c Hin.
      destruct (connection_unlinked_fixed c (Hcs c Hin)) as (_ & _ & Hfl & Htl & Hvl).
      rewrite (link_connection_unlinked _ _ c Hu), link_connection_link_edge.
      eexists. apply (link_connection_returns _ _ _ Hfl Htl Hvl).
      split; [exact (HC c Hin) | reflexivity]. }
    rewrite Hc. simpl. eauto.
Qed.

Lemma link_objects_result (net net' : Net) :
  net_loaded net ->
  _link_objects net = Ok net' ->
  (forall k e, edges net' !! k = Some e ->
     from_junction e = junction_ref (junctions net) (from_junction_id e)
     /\ to_junction e = junction_ref (junctions net) (to_junction_id e))
  /\ (forall k j, (k, j) ∈ junctions net' -> junction_type j <> "internal" ->
        incLanes j = omap (lane_of_id (edges net)) (incLane_ids j)
        /\ intLanes j = omap (lane_of_id (edges net)) (intLane_ids j))
  /\ (forall c, c ∈ connections net' ->
        from_edge c = edge_ref (edges net) (from_edge_id c)
        /\ to_edge c = edge_ref (edges net) (to_edge_id c)
        /\ from_lane c = lane_of_index (edges net) (from_edge_id c) (from_lane_index c)
        /\ to_lane c = lane_of_index (edges net) (to_edge_id c) (to_lane_index c)
        /\ via_lane c = via_id c ≫= lane_of_id (edges net)).
Proof.
  intros (Hes & Hnd & Hjs & Hcs) H. unfold _link_objects in H. cbv zeta in H.
  rewrite Forall_forall in Hcs.
  apply bind_Ok in H as [[js' es'] [Hj H]]. apply bind_Ok in H as [cxns' [Hc [= <-]]].
  simpl in *.
  pose proof (link_junctions_unlinked _ _ _ _ _ Hj) as [Hu Hkeys].
  split; [|split].
  - intros k e Hk. destruct (linked_edge _ _ _ _ _ Hj Hk)
      as (e0 & _ & _ & _ & Hfi & Hti & Hf & Ht & _).
    rewrite Hf, Ht, Hfi, Hti, !(junction_ref_keys _ _ _ Hkeys). auto.
  - intros k j' Hkj Hty. apply list_elem_of_lookup in Hkj as [i Hi].
    pose proof (link_junctions_relinked _ _ _ _ _ Hj) as Hrel.
    destruct (Forall2_lookup_r _ _ _ _ _ Hrel Hi) as ([k0 j] & Hi0 & Hk0 & Hr).
    simpl in *. subst k0.
    assert (Hin : (k, j) ∈ junctions net) by (apply list_elem_of_lookup; eauto).
    destruct (Hjs k j Hin) as (_ & Hfix & _).
    apply junction_unlinked_fixed in Hfix as [Hinc0 Hint0].
    unfold relinked in Hr.
    destruct (String.eqb (junction_type j) "internal") eqn:Hj0.
    + subst j'. apply String.eqb_eq in Hj0. contradiction.
    + destruct Hr as (inc & int & Hinc & Hint & ->). simpl.
      rewrite Hinc0, Hint0. simpl.
      rewrite (resolve_lanes_unlinked _ _ _ Hu), resolve_lanes_link_edge in Hinc.
      rewrite (resolve_lanes_unlinked _ _ _ Hu), resolve_lanes_link_edge in Hint.
      apply resolve_lanes_Ok in Hinc as [_ ->].
      apply resolve_lanes_Ok in Hint as [_ ->]. auto.
  - intros c' Hin. apply list_elem_of_lookup in Hin as [i Hi].
    apply mapM_Ok in Hc.
    destruct (Forall2_lookup_r _ _ _ _ _ Hc Hi) as (c & Hi0 & Hc').
    assert (Hin : c ∈ connections net) by (apply list_elem_of_lookup; eauto).
    destruct (connection_unlinked_fixed c (Hcs c Hin)) as (_ & _ & Hfl & Htl & Hvl).
    rewrite (link_connection_unlinked _ _ c Hu), link_connection_link_edge in Hc'.
    apply (link_connection_returns _ _ _ Hfl Htl Hvl) in Hc' as [_ ->]. simpl. auto.
Qed.

Lemma requests_of_connection_Raise (cxns : list Connection) (j : Junction)
    (c : Connection) (e : exn) :
  requests_of_connection cxns j c = Raise e -> e = IndexError \/ e = TypeError.
Proof.
  unfold requests_of_connection. destruct (via_id c) as [via|]; [|discriminate].
  destruct (get_request_by_int_lane j (Some via)) as [req|e0] eqn:Hreq; simpl;
    [discriminate|].
  pose proof (get_request_by_int_lane_Raise _ _ _ Hreq) as He. subst e0.
  destruct (decide (IndexError = IndexError)) as [_|Hne]; [|contradiction].
  apply (mapM_Raise _ (fun e => e = IndexError \/ e = TypeError)).
  intros [i cxni] e' He'. simpl in He'.
  destruct (via_id cxni) as [v|].
  - apply get_request_by_int_lane_Raise in He'. auto.
  - injection He' as <-. auto.
Qed.

Lemma link_lane_Raise (cxns : list Connection) (j : Junction) (es : gmap string Edge)
    (h : LaneRef) (e : exn) :
  is_Some (Net_lane es h) ->
  link_lane cxns j es h = Raise e -> e = IndexError \/ e = TypeError.
Proof.
  unfold link_lane. intros [lane Hl]. rewrite Hl. simpl. intros H.
  apply bind_Raise in H as [H|[reqs [_ [=]]]].
  revert H. apply (mapM_Raise _ (fun e => e = IndexError \/ e = TypeError)).
  intros [i c] e'. apply requests_of_connection_Raise.
Qed.

Lemma link_lanes_Raise (cxns : list Connection) (j : Junction) (hs : list LaneRef) :
  forall es e,
    (forall h, h ∈ hs -> is_Some (Net_lane es h)) ->
    foldM (link_lane cxns j) es hs = Raise e -> e = IndexError \/ e = TypeError.
Proof.
  induction hs as [|h hs IH]; intros es e Hhs H; simpl in H; [discriminate|].
  apply bind_Raise in H as [H|[es1 [H1 H]]].
  - apply (link_lane_Raise cxns j es h); [apply Hhs; constructor | exact H].
  - apply (IH es1); [|exact H]. intros h' Hh'.
    pose proof (unlinked_lane_ids _ _ h' (link_lane_unlinked _ _ _ _ _ H1)) as Hu.
    destruct (Hhs h') as [l Hl]; [constructor; exact Hh'|]. rewrite Hl in Hu.
    destruct (Net_lane es1 h'); [eauto | discriminate].
Qed.

Lemma resolve_lanes_Raise (es : gmap string Edge) (ids : list string) (e : exn) :
  resolve_lanes es ids = Raise e -> e = ValueError \/ e = IndexError.
Proof.
  unfold resolve_lanes. destruct (mapM (_get_lane es) ids) as [rs|e0] eqn:H; simpl;
    [discriminate|].
  intros [= <-]. revert H.
  apply (mapM_Raise _ (fun e => e = ValueError \/ e = IndexError)).
  intros lid e. apply get_lane_Raise.
Qed.

Lemma link_junction_Raise (cxns : list Connection) (es : gmap string Edge)
    (j : Junction) (e : exn) :
  incLanes j = [] -> link_junction cxns es j = Raise e -> link_error e.
Proof.
  unfold link_junction, link_error. intros Hnil.
  destruct (String.eqb (junction_type j) "internal"); [discriminate|].
  rewrite Hnil. simpl. intros H.
  apply bind_Raise in H as [H|[inc [Hinc H]]];
    [apply resolve_lanes_Raise in H; tauto|].
  apply bind_Raise in H as [H|[int [Hint H]]];
    [apply resolve_lanes_Raise in H; tauto|].
  apply bind_Raise in H as [H|[es' [_ [=]]]]. simpl in H.
  apply link_lanes_Raise in H; [tauto|].
  apply resolve_lanes_Ok in Hinc as [_ ->].
  intros h Hh. apply list_elem_of_omap in Hh as [lid [_ Hh]].
  exact (lane_of_id_resolves _ _ _ Hh).
Qed.

Lemma link_junctions_Raise (cxns : list Connection) (js : list (string * Junction)) :
  forall es e,
    (forall k j, (k, j) ∈ js -> incLanes j = []) ->
    link_junctions cxns es js = Raise e -> link_error e.
Proof.
  induction js as [|[k j] js IH]; intros es e Hnil H; simpl in H; [discriminate|].
  apply bind_Raise in H as [H|[r [_ H]]].
  - apply (link_junction_Raise cxns es j); [apply (Hnil k); constructor | exact H].
  - apply bind_Raise in H as [H|[rest [_ [=]]]].
    apply (IH r.2); [|exact H]. intros k' j' Hkj. apply (Hnil k'). constructor. exact Hkj.
Qed.

Lemma end_lane_Raise (es : gmap string Edge) (k : string) (n : Z)
    (old : option LaneRef) (e : exn) :
  end_lane es k n old = Raise e -> e = IndexError.
Proof.
  unfold end_lane, Edge_get_lane. destruct (es !! k) as [edge|]; [|discriminate].
  destruct (find_lane (lanes edge) n); simpl; [discriminate | intros [= <-]; reflexivity].
Qed.

Lemma link_connection_Raise (es : gmap string Edge) (c : Connection) (e : exn) :
  link_connection es c = Raise e -> e = ValueError \/ e = IndexError.
Proof.
  unfold link_connection. intros H. apply bind_Raise in H as [H|[via [_ H]]].
  { destruct (via_id c); [exact (get_lane_Raise _ _ _ H) | discriminate]. }
  apply bind_Raise in H as [H|[fl [_ H]]]; [apply end_lane_Raise in H; auto|].
  apply bind_Raise in H as [H|[tl [_ [=]]]]. apply end_lane_Raise in H. auto.
Qed.

Lemma link_objects_Raise (net : Net) (e : exn) :
  net_loaded net -> _link_objects net = Raise e -> link_error e.
Proof.
  intros (_ & _ & Hjs & _) H. unfold _link_objects in H. cbv zeta in H.
  apply bind_Raise in H as [H|[r [_ H]]].
  - apply link_junctions_Raise in H; [exact H|].
    intros k j Hkj. destruct (Hjs k j Hkj) as (_ & Hfix & _).
    apply junction_unlinked_fixed in Hfix. tauto.
  - apply bind_Raise in H as [H|[cxns [_ [=]]]].
    apply (mapM_Raise _ (fun e => e = ValueError \/ e = IndexError)) in H;
      [unfold link_error; tauto|].
    intros c e'. apply link_connection_Raise.
Qed.

(** C3, amended: on a net whose objects are read, the linking pass returns
    exactly when every lookup that can fail hard succeeds: every incoming
    and internal lane id of a junction that is not internal and every via
    id of a connection has an integer index part and names a missing edge
    or a lane that its edge has; both lane indices of every connection name
    a missing edge or a lane that the edge has; and for every connection
    with a via id that leaves a resolved incoming lane of such a junction,
    the junction has a request for the via lane or, failing that, for the
    via lane of every connection that leaves the via lane.  When the pass
    returns, what did not resolve is absent: an edge's junction and a
    connection's edge of an unknown id are None, a lane id whose edge is
    missing is skipped in the junction's lane lists and leaves a
    connection's lane None.  When it does not return it raises ValueError,
    IndexError or TypeError. *)
Theorem linking_pass_lookups (root : list Element) (net : Net) :
  load_objects root = Ok net ->
  ((exists net', _link_objects net = Ok net')
   <-> (forall k j, (k, j) ∈ junctions net -> junction_type j <> "internal" ->
          junction_tolerated (connections net) (edges net) j)
       /\ (forall c, c ∈ connections net -> connection_tolerated (edges net) c))
  /\ (forall net', _link_objects net = Ok net' ->
        (forall k e, edges net' !! k = Some e ->
           from_junction e = junction_ref (junctions net) (from_junction_id e)
           /\ to_junction e = junction_ref (junctions net) (to_junction_id e))
        /\ (forall k j, (k, j) ∈ junctions net' -> junction_type j <> "internal" ->
              incLanes j = omap (lane_of_id (edges net)) (incLane_ids j)
              /\ intLanes j = omap (lane_of_id (edges net)) (intLane_ids j))
        /\ (forall c, c ∈ connections net' ->
              from_edge c = edge_ref (edges net) (from_edge_id c)
              /\ to_edge c = edge_ref (edges net) (to_edge_id c)
              /\ from_lane c
                 = lane_of_index (edges net) (from_edge_id c) (from_lane_index c)
              /\ to_lane c = lane_of_index (edges net) (to_edge_id c) (to_lane_index c)
              /\ via_lane c = via_id c ≫= lane_of_id (edges net)))
  /\ (forall e, _link_objects net = Raise e -> link_error e).
Proof.
  intros Hload. apply load_objects_loaded in Hload. split; [|split].
  - apply link_objects_returns. exact Hload.
  - intros net'. apply link_objects_result. exact Hload.
  - intros e. apply link_objects_Raise. exact Hload.
Qed.

End Model.

(** * The properties on the example network *)

(** C1 on the road lane that reaches the always-stop junction "S". *)
Lemma requires_stop_line_rule_witness :
  exists net l e j,
    Net_init example_float example_buffer_flat example_root = Ok net
    /\ Net_lane (edges net) ("road", 0%nat) = Some l
    /\ Lane_parentEdge net l = Some e
    /\ Edge_to_junction net e = Some j
    /\ junction_type j = "always_stop"
    /\ _requires_stop_line net l = Ok true.
Proof.
  do 4 eexists.
  split; [vm_compute; reflexivity|]. split; [vm_compute; reflexivity|].
  split; [vm_compute; reflexivity|]. split; [vm_compute; reflexivity|].
  split; [reflexivity|].
  refine (proj1 (proj2 (requires_stop_line_rule _ _ _ _ _ _)) _);
    vm_compute; reflexivity.
Defined.

(** C1 as stated fails: lane "in_0" is the movement of request 0 at
    junction "J"; it requires a stop line when the response bitstring of
    that request is "10" and when it is "01", and no position, counted from
    either end, has a '1' in both bitstrings. *)
Lemma requires_stop_line_not_positional :
  ~ exists p : nat, forall response0 net l,
      response0 ∈ ["10"; "01"] ->
      Net_init example_float example_buffer_flat (example_root_with response0 "00")
      = Ok net ->
      Net_lane (edges net) ("in", 0%nat) = Some l ->
      _requires_stop_line net l = Ok (existsb (one_at p) (requests l)).
Proof.
  intros [p H].
  assert (H10 := H "10"). assert (H01 := H "01"). clear H.
  destruct (Net_init example_float example_buffer_flat (example_root_with "10" "00"))
    as [net10|] eqn:Hn10; [|vm_compute in Hn10; discriminate].
  destruct (Net_init example_float example_buffer_flat (example_root_with "01" "00"))
    as [net01|] eqn:Hn01; [|vm_compute in Hn01; discriminate].
  vm_compute in Hn10, Hn01. injection Hn10 as <-. injection Hn01 as <-.
  destruct p as [|p].
  - specialize (H01 _ _ ltac:(repeat constructor) eq_refl eq_refl).
    vm_compute in H01. discriminate.
  - specialize (H10 _ _ ltac:(repeat constructor) eq_refl eq_refl).
    destruct p; vm_compute in H10; discriminate.
Qed.

(** C4 on the connection of the example that leaves the internal lane
    ":J_0_0": it has no via lane. *)
Lemma generate_shape_needs_lanes_witness :
  exists net c,
    Net_init example_float example_buffer_flat example_root = Ok net
    /\ connections net !! 2%nat = Some c
    /\ via_lane c = None
    /\ _generate_shape example_parallel_offset net c = Raise ReferenceError.
Proof.
  do 2 eexists.
  split; [vm_compute; reflexivity|]. split; [vm_compute; reflexivity|].
  split; [reflexivity|].
  apply (generate_shape_needs_lanes example_parallel_offset).
  right. right. reflexivity.
Defined.

(** C7 on the road lane that reaches the always-stop junction "S": one
    stop line, at the lane's end. *)
Lemma stopline_markings_rule_witness :
  exists net l e ms,
    Net_init example_float example_buffer_flat example_root = Ok net
    /\ Net_lane (edges net) ("road", 0%nat) = Some l
    /\ Lane_parentEdge net l = Some e
    /\ _guess_lane_markings example_vocabulary example_parallel_offset
         example_substring example_length true default_settings net l = Ok ms
    /\ length (stoplines ms) = 1%nat.
Proof.
  do 4 eexists.
  split; [vm_compute; reflexivity|]. split; [vm_compute; reflexivity|].
  split; [vm_compute; reflexivity|].
  lazymatch goal with
  | |- _guess_lane_markings _ _ _ _ _ _ ?n ?l = _ /\ _ =>
      split; [vm_compute; reflexivity|];
      etransitivity;
      [ refine (proj1 (stopline_markings_rule example_vocabulary
                         example_parallel_offset example_substring example_length
                         true default_settings n l _ _ _ _ _));
        vm_compute; reflexivity
      | vm_compute; reflexivity ]
  end.
Defined.

(** C7 as stated fails in both directions.  The rail lane that reaches the
    always-stop junction "S" meets the three conditions (stop lines are
    enabled, it requires a stop line, it permits neither pedestrians nor
    ships) and has a stop-line location, yet gets no marking at all; the
    road lane beside it permits pedestrians and gets a stopline marking. *)
Lemma stopline_not_by_permission :
  exists net rail road ms,
    Net_init example_float example_buffer_flat example_root = Ok net
    /\ Net_lane (edges net) ("rail", 0%nat) = Some rail
    /\ Net_lane (edges net) ("road", 0%nat) = Some road
    /\ (PLOT_STOP_LINES default_settings = true
        /\ _requires_stop_line net rail = Ok true
        /\ Allowance_member example_vocabulary (allows rail) "pedestrian" = false
        /\ Allowance_member example_vocabulary (allows rail) "ship" = false
        /\ get_stop_line_locations example_vocabulary net rail = [0%float]
        /\ _guess_lane_markings example_vocabulary example_parallel_offset
             example_substring example_length true default_settings net rail = Ok [])
    /\ (Allowance_member example_vocabulary (allows road) "pedestrian" = true
        /\ _guess_lane_markings example_vocabulary example_parallel_offset
             example_substring example_length true default_settings net road = Ok ms
        /\ length (stoplines ms) = 1%nat).
Proof.
  do 4 eexists.
  split; [vm_compute; reflexivity|]. split; [vm_compute; reflexivity|].
  split; [vm_compute; reflexivity|].
  split; [repeat split; vm_compute; reflexivity|].
  split; [vm_compute; reflexivity|]. split; vm_compute; reflexivity.
Qed.

(** C9 on the pedestrian crossing of the example. *)
Lemma crossing_lane_marking_witness :
  exists net l e,
    Net_init example_float example_buffer_flat example_root = Ok net
    /\ Net_lane (edges net) (":J_c0", 0%nat) = Some l
    /\ Lane_parentEdge net l = Some e
    /\ lane_type example_vocabulary net l = "crosswalk"
    /\ _guess_lane_markings example_vocabulary example_parallel_offset
         example_substring example_length true
         (mkSettings USA_STYLE 3%float false) net l
       = Ok [mkLaneMarking "crossing" (alignment l) (width l) "w" (0.5, 0.5)%float].
Proof.
  do 3 eexists.
  split; [vm_compute; reflexivity|]. split; [vm_compute; reflexivity|].
  split; [vm_compute; reflexivity|]. split; [vm_compute; reflexivity|].
  eapply (crossing_lane_marking example_vocabulary example_parallel_offset
            example_substring example_length true);
    vm_compute; reflexivity.
Defined.

(** C9 as stated fails: the lane of the crossing edge ":J_c1" is for ships
    only, and marking derivation returns no marking for it. *)
Lemma crossing_lane_for_ships_unmarked :
  exists net l e,
    Net_init example_float example_buffer_flat example_root = Ok net
    /\ Net_lane (edges net) (":J_c1", 0%nat) = Some l
    /\ Lane_parentEdge net l = Some e
    /\ function e = "crossing"
    /\ _guess_lane_markings example_vocabulary example_parallel_offset
         example_substring example_length true default_settings net l = Ok [].
Proof.
  do 3 eexists.
  split; [vm_compute; reflexivity|]. split; [vm_compute; reflexivity|].
  split; [vm_compute; reflexivity|]. split; vm_compute; reflexivity.
Qed.

(** C10 on the example, whose description has the walking area ":J_w0". *)
Lemma no_walkingarea_edge_witness :
  exists net,
    Net_init example_float example_buffer_flat example_root = Ok net
    /\ (forall k e, edges net !! k = Some e -> function e <> "walkingarea")
    /\ edges net !! ":J_w0" = None.
Proof.
  eexists. split; [vm_compute; reflexivity|]. split.
  - refine (proj1 (no_walkingarea_edge example_float example_buffer_flat
                     example_root _ _)).
    vm_compute. reflexivity.
  - vm_compute. reflexivity.
Defined.

(** C3 as stated fails: junction "K" names the lane "in_5"; edge "in"
    exists and has no lane 5, the lookup raises IndexError and so does the
    construction of the Net.  And the via lane ":X_0_0" of a connection that
    leaves "in_0" is not among the internal lanes of junction "J": the pass
    turns to the connection that leaves ":X_0_0", and raises TypeError when
    that has no via id, IndexError when "J" does not list its via id. *)
Lemma linking_pass_raises :
  Net_init example_float example_buffer_flat example_root_missing_lane
  = Raise IndexError
  /\ (exists net,
        load_objects example_float example_buffer_flat example_root_missing_lane = Ok net
        /\ is_Some (edges net !! "in")
        /\ _get_lane (edges net) "in_5" = Raise IndexError
        /\ _link_objects net = Raise IndexError)
  /\ (exists net,
        load_objects example_float example_buffer_flat (example_root_unlisted_via [])
        = Ok net
        /\ edges net !! ":X_0" = None
        /\ _get_lane (edges net) ":X_0_0" = Ok None
        /\ _link_objects net = Raise TypeError)
  /\ (exists net,
        load_objects example_float example_buffer_flat
                     (example_root_unlisted_via [("via", ":X_1_0")]) = Ok net
        /\ edges net !! ":X_0" = None
        /\ _get_lane (edges net) ":X_0_0" = Ok None
        /\ _link_objects net = Raise IndexError).
Proof.
  split; [vm_compute; reflexivity|]. split; [|split].
  - eexists. split; [vm_compute; reflexivity|].
    split; [eexists; vm_compute; reflexivity|].
    split; vm_compute; reflexivity.
  - eexists. split; [vm_compute; reflexivity|].
    split; [vm_compute; reflexivity|].
    split; vm_compute; reflexivity.
  - eexists. split; [vm_compute; reflexivity|].
    split; [vm_compute; reflexivity|].
    split; vm_compute; reflexivity.
Qed.

(** C2 on the example: linking the linked example again. *)
Lemma relink_keeps_links_witness :
  exists net0 net1,
    load_objects example_float example_buffer_flat example_root = Ok net0
    /\ _link_objects net0 = Ok net1
    /\ exists net2,
         _link_objects net1 = Ok net2
         /\ connections net2 = connections net1
         /\ map_lanes lane_without_requests (edges net2)
            = map_lanes lane_without_requests (edges net1)
         /\ Forall2 (fun kj kj' => kj'.1 = kj.1 /\ relinked (edges net1) kj.2 kj'.2)
                    (junctions net1) (junctions net2)
         /\ requests_extend (edges net1) (edges net2).
Proof.
  do 2 eexists. split; [vm_compute; reflexivity|].
  lazymatch goal with
  | |- _link_objects ?n0 = _ /\ _ =>
      split; [vm_compute; reflexivity|];
      refine (relink_keeps_links n0 _ _); vm_compute; reflexivity
  end.
Defined.

(** C2 as stated fails: a second run of the pass on the linked example
    lists the incoming lanes of junction "J" twice, and the lane "in_0"
    holds its request three times. *)
Lemma relink_appends_again :
  exists net1 net2 l1 l2,
    Net_init example_float example_buffer_flat example_root = Ok net1
    /\ _link_objects net1 = Ok net2
    /\ incLanes <$> dict_get (junctions net1) "J" = Some [("in", 0%nat); ("in", 1%nat)]
    /\ incLanes <$> dict_get (junctions net2) "J"
       = Some [("in", 0%nat); ("in", 1%nat); ("in", 0%nat); ("in", 1%nat)]
    /\ Net_lane (edges net1) ("in", 0%nat) = Some l1
    /\ Net_lane (edges net2) ("in", 0%nat) = Some l2
    /\ length (requests l1) = 1%nat
    /\ length (requests l2) = 3%nat.
Proof.
  do 4 eexists.
  split; [vm_compute; reflexivity|]. split; [vm_compute; reflexivity|].
  split; [vm_compute; reflexivity|]. split; [vm_compute; reflexivity|].
  split; [vm_compute; reflexivity|]. split; [vm_compute; reflexivity|].
  split; vm_compute; reflexivity.
Qed.

(** C3 on the example: the pass returns; the lane id of the walking area,
    whose edge is not in the net, is skipped in the incoming lanes of
    junction "J". *)
Lemma linking_pass_lookups_witness :
  exists net net',
    load_objects example_float example_buffer_flat example_root = Ok net
    /\ _link_objects net = Ok net'
    /\ incLane_ids <$> dict_get (junctions net') "J" = Some ["in_0"; "in_1"; ":J_w0_0"]
    /\ lane_of_id (edges net) ":J_w0_0" = None
    /\ forall k j, (k, j) ∈ junctions net' -> junction_type j <> "internal" ->
         incLanes j = omap (lane_of_id (edges net)) (incLane_ids j)
         /\ intLanes j = omap (lane_of_id (edges net)) (intLane_ids j).
Proof.
  do 2 eexists. split; [vm_compute; reflexivity|].
  split; [vm_compute; reflexivity|]. split; [vm_compute; reflexivity|].
  split; [vm_compute; reflexivity|].
  lazymatch goal with
  | |- forall k j, _ ∈ junctions ?net' -> _ -> incLanes j = omap (lane_of_id (edges ?net)) _ /\ _ =>
      refine (proj1 (proj2 (proj1 (proj2
                (linking_pass_lookups example_float example_buffer_flat
                   example_root net _)) net' _)));
        vm_compute; reflexivity
  end.
Defined.

(** C5 on the road lane of the example: no declaration covers its classes,
    and its stop-line locations contain 0. *)
Lemma stop_line_locations_cover_witness :
  exists net l,
    Net_init example_float example_buffer_flat example_root = Ok net
    /\ Net_lane (edges net) ("road", 0%nat) = Some l
    /\ Allowance_is_superset_of example_vocabulary
         (accrued (declarations net l)) (allows l) = false
    /\ contains_zero (get_stop_line_locations example_vocabulary net l) = true.
Proof.
  do 2 eexists. split; [vm_compute; reflexivity|]. split; [vm_compute; reflexivity|].
  split; [vm_compute; reflexivity|].
  refine (proj1 (proj2 (stop_line_locations_cover example_vocabulary _ _)) _).
  vm_compute. reflexivity.
Defined.

(** C6 on a bicycle lane and a lane closed to bicycles. *)
Lemma Allowance_union_is_superset_witness :
  Allowance_member example_vocabulary (Allowance_new "bicycle" "") "bicycle" = true
  /\ Allowance_member example_vocabulary
       (Allowance_union (Allowance_new "bicycle" "") (Allowance_new "" "bicycle"))
       "bicycle" = true
  /\ Allowance_is_superset_of example_vocabulary
       (Allowance_union (Allowance_new "bicycle" "") (Allowance_new "" "bicycle"))
       (Allowance_new "" "bicycle") = true.
Proof.
  split; [reflexivity|]. split.
  - apply (proj1 (proj2 (proj2 (proj2
             (Allowance_union_is_superset example_vocabulary _ _))))).
    reflexivity.
  - apply (proj1 (proj2 (Allowance_union_is_superset example_vocabulary _ _))).
Defined.

(** C8 on the pedestrian crossing of the example. *)
Lemma lane_type_classification_witness :
  exists net l,
    Net_init example_float example_buffer_flat example_root = Ok net
    /\ Net_lane (edges net) (":J_c0", 0%nat) = Some l
    /\ Allowance_eq example_vocabulary (allows l) "pedestrian" = true
    /\ on_crossing_edge net l = true
    /\ lane_type example_vocabulary net l = "crosswalk".
Proof.
  do 2 eexists. split; [vm_compute; reflexivity|]. split; [vm_compute; reflexivity|].
  split; [vm_compute; reflexivity|]. split; [vm_compute; reflexivity|].
  refine (proj1 (lane_type_classification example_vocabulary _ _) _ _);
    vm_compute; reflexivity.
Defined.

(** * The further properties on examples *)

(** X10 on a trajectory of three points: one segment, in the colour given. *)
Lemma constant_colors_plot_witness :
  length (traj_time example_trajectory) = length (traj_x example_trajectory)
  /\ exists segs,
       Trajectory_plot (assign_colors_constant example_trajectory (ColorName "red"))
                       0%float 10%float = (segs, None)
       /\ Forall (fun sg => segment_c sg = ColorName "red") segs
       /\ length (traj_colors (assign_colors_constant example_trajectory
                                                      (ColorName "red")))
          = length (traj_x example_trajectory).
Proof.
  split; [reflexivity|]. apply constant_colors_plot. reflexivity.
Defined.

(** X12 on the example file: the trajectories of "a" and "b", after a
    trajectory that was there before. *)
Lemma read_from_fcd_trajectories_witness :
  exists ts,
    read_from_fcd example_float [example_trajectory] example_fcd = Ok ts
    /\ exists new,
         ts = ([example_trajectory] ++ new)%list
         /\ Forall aligned new
         /\ NoDup (traj_id <$> new)
         /\ (forall t, t ∈ new ->
               traj_lane t <> []
               /\ traj_lane t = lanes_of (traj_id t) (vehicles example_fcd))
         /\ (forall veh, veh ∈ vehicles example_fcd ->
               exists t, t ∈ new
                         /\ attrib_get (attrib_of veh) "id" = Some (traj_id t)).
Proof.
  eexists. split; [vm_compute; reflexivity|].
  apply (read_from_fcd_trajectories example_float). vm_compute. reflexivity.
Defined.

(** X14 on edge "in" of the example and its second lane. *)
Lemma net_edges_hold_lanes_witness :
  exists net e l,
    Net_init example_float example_buffer_flat example_root = Ok net
    /\ edges net !! "in" = Some e
    /\ lanes e !! 1%nat = Some l
    /\ edge_id e = "in"
    /\ Edge_to_junction net e = to_junction_id e ≫= dict_get (junctions net)
    /\ Lane_parentEdge net l = Some e
    /\ lane_shape l = example_buffer_flat (alignment l) (width l / 2)%float.
Proof.
  do 3 eexists. split; [vm_compute; reflexivity|]. split; [vm_compute; reflexivity|].
  split; [vm_compute; reflexivity|].
  lazymatch goal with
  | |- edge_id ?e = _ /\ Edge_to_junction ?net _ = _ /\ Lane_parentEdge _ ?l = _ /\ _ =>
      assert (Hnet : Net_init example_float example_buffer_flat example_root = Ok net)
        by (vm_compute; reflexivity);
      assert (He : edges net !! "in" = Some e) by (vm_compute; reflexivity);
      assert (Hl : lanes e !! 1%nat = Some l) by (vm_compute; reflexivity);
      destruct (net_edges_hold_lanes example_float example_buffer_flat example_root
                  net Hnet "in" e He) as [Hid [_ [_ [Hto Hlanes]]]];
      split; [exact Hid|]; split; [exact Hto|];
      apply Hlanes; apply list_elem_of_lookup; exists 1%nat; exact Hl
  end.
Defined.

(** X15 on the connection of the example from lane 0 of "in" to lane 0 of
    "out" via ":J_0_0". *)
Lemma net_connections_resolved_witness :
  exists net c,
    Net_init example_float example_buffer_flat example_root = Ok net
    /\ connections net !! 0%nat = Some c
    /\ from_edge c = edge_ref (edges net) (from_edge_id c)
    /\ to_edge c = edge_ref (edges net) (to_edge_id c)
    /\ match edges net !! from_edge_id c with
       | Some e => exists il, Edge_get_lane e (from_lane_index c) = Ok il
                              /\ from_lane c = Some (from_edge_id c, il.1)
       | None => from_lane c = None
       end
    /\ match edges net !! to_edge_id c with
       | Some e => exists il, Edge_get_lane e (to_lane_index c) = Ok il
                              /\ to_lane c = Some (to_edge_id c, il.1)
       | None => to_lane c = None
       end
    /\ match via_id c with
       | Some v => _get_lane (edges net) v = Ok (via_lane c)
       | None => via_lane c = None
       end.
Proof.
  do 2 eexists. split; [vm_compute; reflexivity|]. split; [vm_compute; reflexivity|].
  lazymatch goal with
  | |- from_edge ?c = edge_ref (edges ?net) _ /\ _ =>
      assert (Hnet : Net_init example_float example_buffer_flat example_root = Ok net)
        by (vm_compute; reflexivity);
      assert (Hc : connections net !! 0%nat = Some c) by (vm_compute; reflexivity);
      apply (net_connections_resolved example_float example_buffer_flat example_root
               net Hnet c);
      apply list_elem_of_lookup; exists 0%nat; exact Hc
  end.
Defined.

(** X16 on the priority junction "J" of the example. *)
Lemma net_junctions_resolved_witness :
  exists net j,
    Net_init example_float example_buffer_flat example_root = Ok net
    /\ junctions net !! 1%nat = Some ("J", j)
    /\ NoDup (junctions net).*1
    /\ junction_id j = "J"
    /\ dict_get (junctions net) "J" = Some j
    /\ Forall (fun r => parentJunction r = Some "J") (_requests j)
    /\ if String.eqb (junction_type j) "internal"
       then incLanes j = [] /\ intLanes j = []
       else resolve_lanes (edges net) (incLane_ids j) = Ok (incLanes j)
            /\ resolve_lanes (edges net) (intLane_ids j) = Ok (intLanes j).
Proof.
  do 2 eexists. split; [vm_compute; reflexivity|]. split; [vm_compute; reflexivity|].
  lazymatch goal with
  | |- NoDup (junctions ?net).*1 /\ junction_id ?j = _ /\ _ =>
      assert (Hnet : Net_init example_float example_buffer_flat example_root = Ok net)
        by (vm_compute; reflexivity);
      assert (Hj : junctions net !! 1%nat = Some ("J", j)) by (vm_compute; reflexivity);
      destruct (net_junctions_resolved example_float example_buffer_flat example_root
                  net Hnet) as [Hnd Hjs];
      split; [exact Hnd|]; apply Hjs;
      apply list_elem_of_lookup; exists 1%nat; exact Hj
  end.
Defined.

(** X17 on lane 0 of edge "in", which junction "J" lists among its
    incLanes. *)
Lemma net_lane_links_witness :
  exists net l j,
    Net_init example_float example_buffer_flat example_root = Ok net
    /\ Net_lane (edges net) ("in", 0%nat) = Some l
    /\ junctions net !! 1%nat = Some ("J", j)
    /\ incLanes j !! 0%nat = Some ("in", 0%nat)
    /\ incoming_connections l
       = (_get_connections_to_lane (connections net) (lane_id l)).*1
    /\ outgoing_connections l
       = (_get_connections_from_lane (connections net) (lane_id l)).*1.
Proof.
  do 3 eexists. split; [vm_compute; reflexivity|]. split; [vm_compute; reflexivity|].
  split; [vm_compute; reflexivity|]. split; [vm_compute; reflexivity|].
  lazymatch goal with
  | |- incoming_connections ?l = (_get_connections_to_lane (connections ?net) _).*1 /\ _ =>
      assert (Hnet : Net_init example_float example_buffer_flat example_root = Ok net)
        by (vm_compute; reflexivity);
      assert (Hl : Net_lane (edges net) ("in", 0%nat) = Some l)
        by (vm_compute; reflexivity);
      destruct (net_lane_links example_float example_buffer_flat example_root
                  net Hnet ("in", 0%nat) l Hl) as [Hlisted _];
      eapply (Hlisted "J");
        [apply list_elem_of_lookup; exists 1%nat; vm_compute; reflexivity
        |apply list_elem_of_lookup; exists 0%nat; vm_compute; reflexivity]
  end.
Defined.

(** X19 on the lane of edge "out" of the example, whose "to" junction "B"
    the file does not describe. *)
Lemma stop_lines_need_to_junction_witness :
  exists net e l,
    Net_init example_float example_buffer_flat example_root = Ok net
    /\ edges net !! "out" = Some e
    /\ lanes e !! 0%nat = Some l
    /\ to_junction_id e ≫= dict_get (junctions net) = None
    /\ _requires_stop_line net l = Raise AttributeError
    /\ exists err,
         _guess_lane_markings example_vocabulary example_parallel_offset
           example_substring example_length true default_settings net l = Raise err.
Proof.
  do 3 eexists. split; [vm_compute; reflexivity|]. split; [vm_compute; reflexivity|].
  split; [vm_compute; reflexivity|]. split; [vm_compute; reflexivity|].
  lazymatch goal with
  | |- _requires_stop_line ?net ?l = _ /\ _ =>
      assert (Hnet : Net_init example_float example_buffer_flat example_root = Ok net)
        by (vm_compute; reflexivity);
      pose proof (stop_lines_need_to_junction example_vocabulary example_float
                    example_parallel_offset example_substring example_buffer_flat
                    example_length true example_root net "out" _ l Hnet
                    ltac:(vm_compute; reflexivity)
                    ltac:(apply list_elem_of_lookup; exists 0%nat; vm_compute; reflexivity))
        as H
  end.
  match type of H with
  | match ?o with _ => _ end =>
      assert (Hnone : o = None) by (vm_compute; reflexivity); rewrite Hnone in H
  end.
  destruct H as [Hreq Hmarkings]. split; [exact Hreq|].
  apply Hmarkings; try (vm_compute; reflexivity);
    intros Hf; vm_compute in Hf; discriminate.
Defined.

(** X20 on the first lane of edge "in" of the example, with stop lines
    switched off. *)
Lemma numbered_lanes_markings_witness :
  exists net e l,
    Net_init example_float example_buffer_flat example_root = Ok net
    /\ edges net !! "in" = Some e
    /\ lanes e !! 0%nat = Some l
    /\ exists ms,
         _guess_lane_markings example_vocabulary example_parallel_offset
           example_substring example_length true
           (mkSettings EUR_STYLE 1%float false) net l = Ok ms
         /\ (forall m, m ∈ ms ->
               (purpose m = "crossing" /\ function e = "crossing")
               \/ (purpose m = "center"
                   /\ lane_index l = Z.of_nat (length (lanes e)) - 1)
               \/ (purpose m = "lane"
                   /\ exists adj, adj ∈ lanes e /\ lane_index adj = lane_index l + 1
                                  /\ dashes m
                                     = boundary_dashes example_vocabulary l adj)
               \/ (purpose m = "outer" /\ lane_index l = 0)).
Proof.
  do 3 eexists. split; [vm_compute; reflexivity|]. split; [vm_compute; reflexivity|].
  split; [vm_compute; reflexivity|].
  apply (numbered_lanes_markings example_vocabulary example_parallel_offset
           example_substring example_length true).
  - vm_compute. reflexivity.
  - apply list_elem_of_lookup. exists 0%nat. vm_compute. reflexivity.
  - vm_compute. reflexivity.
  - reflexivity.
Defined.

(** X21 on the example file. *)
Lemma fcd_trajectories_plot_witness :
  exists ts,
    Trajectories_init example_float (Some "sim.fcd-output.xml") example_fcd = Ok ts
    /\ exists segs,
         Trajectories_plot ts 0%float 10%float = (segs, None)
         /\ Forall (fun sg => length (segment_x sg) = 2%nat
                              /\ length (segment_y sg) = 2%nat) segs.
Proof.
  eexists. split; [vm_compute; reflexivity|].
  apply (fcd_trajectories_plot example_float (Some "sim.fcd-output.xml") example_fcd).
  vm_compute. reflexivity.
Defined.

(** X22 on the example trajectory with lanes, with the default colour map
    and with a colour map that matplotlib does not know. *)
Lemma assign_colors_lane_by_dict_witness :
  (exists colors,
     assign_colors_lane (list Color) example_get_cmap example_cmap_colors
                        example_trajectory_on_lanes None example_color_dict
     = (mkTrajectory "a" [0; 1; 2]%float [0; 13; 26]%float [0; 0; 0]%float [] []
                     [Some "in_0"; Some ":J_0_0"; Some "in_0"] colors,
        None)
     /\ Some <$> colors
        = color_of example_color_dict <$> traj_lane example_trajectory_on_lanes)
  /\ assign_colors_lane (list Color) example_get_cmap example_cmap_colors
                        example_trajectory_on_lanes (Some (CmapName (list Color) "rainbows"))
                        example_color_dict
     = (example_trajectory_on_lanes, Some ValueError).
Proof.
  assert (Hkeys : forall lane, lane ∈ traj_lane example_trajectory_on_lanes ->
                               is_Some (color_of example_color_dict lane)).
  { intros lane Hlane.
    repeat (apply elem_of_cons in Hlane as [->|Hlane]; [eexists; reflexivity|]).
    inversion Hlane. }
  split.
  - exact (assign_colors_lane_by_dict (list Color) example_get_cmap example_cmap_colors
             example_trajectory_on_lanes None example_color_dict
             eq_refl eq_refl Hkeys).
  - exact (assign_colors_lane_by_dict (list Color) example_get_cmap example_cmap_colors
             example_trajectory_on_lanes (Some (CmapName (list Color) "rainbows")) example_color_dict
             eq_refl eq_refl Hkeys).
Defined.

(** X23 on lane 0 of edge "in", which only junction "J" lists, once. *)
Lemma net_lane_requests_witness :
  exists net j l,
    Net_init example_float example_buffer_flat example_root = Ok net
    /\ junctions net !! 1%nat = Some ("J", j)
    /\ Net_lane (edges net) ("in", 0%nat) = Some l
    /\ exists reqs,
         mapM (fun cxn => requests_of_connection (connections net) j cxn.2)
              (_get_connections_from_lane (connections net) (lane_id l)) = Ok reqs
         /\ requests l = concat reqs.
Proof.
  do 3 eexists. split; [vm_compute; reflexivity|]. split; [vm_compute; reflexivity|].
  split; [vm_compute; reflexivity|].
  apply (net_lane_requests example_float example_buffer_flat example_root _ 1 0 "J" _
           ("in", 0%nat)).
  - vm_compute. reflexivity.
  - vm_compute. reflexivity.
  - vm_compute. reflexivity.
  - intros i' p' k' j' Hi' Hp'.
    destruct i' as [|[|[|i']]]; vm_compute in Hi'; try discriminate;
      injection Hi' as <- <-;
      destruct p' as [|[|[|p']]]; vm_compute in Hp'; try discriminate; auto.
  - vm_compute. reflexivity.
Defined.

(** * The model at work *)

Example split_lane_id : Py.split "_" ":J_0_1" = [":J"; "0"; "1"].
Proof. reflexivity. Qed.

Example split_empty : Py.split " " "" = [""].
Proof. reflexivity. Qed.

Example int_literals :
  (Py.int " +1_0 ", Py.int "-7", Py.int "", Py.int "1__0", Py.int "w0")
  = (Some 10, Some (-7), None, None, None).
Proof. reflexivity. Qed.

Example lane_id_parts :
  (edge_part ":J_w0_0", index_part ":J_w0_0", index_part "in")
  = (":J_w0", Some 0, None).
Proof. reflexivity. Qed.

(** The lane types of the example: the crossing, the ship crossing, the
    rail lane and a road lane. *)
Example lane_types_of_example :
  exists net,
    Net_init example_float example_buffer_flat example_root = Ok net
    /\ (lane_type example_vocabulary net <$> Net_lane (edges net) (":J_c0", 0%nat))
       = Some "crosswalk"
    /\ (lane_type example_vocabulary net <$> Net_lane (edges net) (":J_c1", 0%nat))
       = Some "ship"
    /\ (lane_type example_vocabulary net <$> Net_lane (edges net) ("rail", 0%nat))
       = Some "no_passenger"
    /\ (lane_type example_vocabulary net <$> Net_lane (edges net) ("in", 1%nat))
       = Some "other".
Proof.
  eexists. split; [vm_compute; reflexivity|]. repeat split; vm_compute; reflexivity.
Qed.

(** With no stop offset declared, a lane that permits a class has its stop
    line at the lane's end. *)
Example stop_line_at_lane_end :
  exists net,
    Net_init example_float example_buffer_flat example_root = Ok net
    /\ (get_stop_line_locations example_vocabulary net
          <$> Net_lane (edges net) ("road", 0%nat)) = Some [0%float].
Proof.
  eexists. split; vm_compute; reflexivity.
Qed.

(** A stop offset of 2 for all classes but bicycles leaves bicycles
    uncovered: a second stop line at the lane's end. *)
Example stop_lines_with_offset :
  let lane :=
    mkLane "e_0" 0 13%float (Allowance_new "" "") 3.2%float None "False"
           (LineString [[0; 0]; [10; 0]]%float) (Polygon []) None
           [(2%float, Allowance_new "" "bicycle")] [] [] [] in
  get_stop_line_locations example_vocabulary empty_net lane = [2%float; 0%float]
  /\ get_stop_line_locations example_vocabulary empty_net
       (Lane_set_stop_offsets lane [(2%float, Allowance_new "" "")]) = [2%float].
Proof. split; vm_compute; reflexivity. Qed.

Example union_of_allowances :
  let a := Allowance_new "bicycle" "" in
  let b := Allowance_new "" "bicycle pedestrian" in
  map (Allowance_member example_vocabulary (Allowance_union a b))
      ["passenger"; "bicycle"; "pedestrian"]
  = [true; true; false].
Proof. reflexivity. Qed.

(** The incoming-lane ids of junction "J": the lane of the walking area,
    whose edge is not in the net, is skipped. *)
Example walkingarea_lane_skipped :
  exists net,
    Net_init example_float example_buffer_flat example_root = Ok net
    /\ resolve_lanes (edges net) ["in_0"; "in_1"; ":J_w0_0"]
       = Ok [("in", 0%nat); ("in", 1%nat)].
Proof.
  eexists. split; vm_compute; reflexivity.
Qed.

(** The splice polygon of the connection from "in_0" to "out_0". *)
Example splice_of_example :
  exists net c,
    Net_init example_float example_buffer_flat example_root = Ok net
    /\ connections net !! 0%nat = Some c
    /\ _generate_shape example_parallel_offset net c
       = Ok (Polygon [[10; -1.6]; [20; -1.6]; [20; 1.6]; [10; 1.6]; [10; -1.6]]%float).
Proof.
  do 2 eexists. split; [vm_compute; reflexivity|]. split; vm_compute; reflexivity.
Qed.

(** The trajectories of the example file: "a" with two points, "b" with one;
    the person adds none. *)
Example trajectories_of_example :
  exists ts,
    Trajectories_init example_float (Some "sim.fcd-output.xml") example_fcd = Ok ts
    /\ map (fun t => (traj_id t, traj_x t, traj_lane t)) ts
       = [("a", [0; 13]%float, [Some "in_0"; Some ":J_0_0"]);
          ("b", [0]%float, [Some "in_1"])].
Proof. eexists. split; vm_compute; reflexivity. Qed.

(** Of the two segments of the example trajectory, only the first is drawn. *)
Example plot_of_example :
  Trajectory_plot (assign_colors_constant example_trajectory (ColorName "red"))
                  0%float 10%float
  = ([mkSegment [0; 13]%float [0; 0]%float (ColorName "red")], None).
Proof. vm_compute. reflexivity. Qed.

(** A run that an exception ends: the first segment is drawn, the second
    point has no colour. *)
Example plot_ended_by_exception :
  Trajectory_plot example_trajectory_one_color 0%float 10%float
  = ([mkSegment [0; 13]%float [0; 0]%float default_color], Some IndexError).
Proof. vm_compute. reflexivity. Qed.

(** The colours by lane of the example trajectory. *)
Example colors_by_lane_of_example :
  assign_colors_lane (list Color) example_get_cmap example_cmap_colors
                     example_trajectory_on_lanes None example_color_dict
  = (mkTrajectory "a" [0; 1; 2]%float [0; 13; 26]%float [0; 0; 0]%float [] []
                  [Some "in_0"; Some ":J_0_0"; Some "in_0"]
                  [ColorName "red"; ColorName "blue"; ColorName "red"],
     None).
Proof. vm_compute. reflexivity. Qed.

(** Colours are changed in place up to the exception: the dictionary has no
    colour for the second lane. *)
Example colors_changed_up_to_exception :
  assign_colors_lane (list Color) example_get_cmap example_cmap_colors
                     example_trajectory_on_lanes None [(Some "in_0", ColorName "red")]
  = (mkTrajectory "a" [0; 1; 2]%float [0; 13; 26]%float [0; 0; 0]%float [] []
                  [Some "in_0"; Some ":J_0_0"; Some "in_0"]
                  [ColorName "red"; default_color; default_color],
     Some KeyError).
Proof. vm_compute. reflexivity. Qed.
